(** * minVAR: the VQVAE encoder/decoder of [models/vqvae.py]

    A shallow embedding of the module's constructors ([__init__]) and of
    its [forward] methods.  A tensor is its shape together with its
    values, single-precision floats; the numeric library's operators
    check shapes the way the library does and leave the computation of
    the values to a table of kernels.  Python exceptions are the errors
    of a small error monad. *)

From Stdlib Require Import ZArith List Lia Bool QArith SpecFloat.
Import ListNotations.
Local Open Scope Z_scope.

(** ** Exceptions and the error monad *)

Inductive exn : Type :=
| IndexError
| ValueError
| RuntimeError
| AttributeError
| EinopsError.

Inductive result (A : Type) : Type :=
| Ok (a : A)
| Raise (e : exn).
Arguments Ok {A} a.
Arguments Raise {A} e.

Definition bind {A B : Type} (r : result A) (k : A -> result B) : result B :=
  match r with
  | Ok a => k a
  | Raise e => Raise e
  end.

Notation "x <- e ;; k" := (bind e (fun x => k))
  (at level 61, e at next level, right associativity).
Notation "' p <- e ;; k" := (bind e (fun x => match x with p => k end))
  (at level 61, p pattern, e at next level, right associativity).

Definition fmap {A B : Type} (f : A -> B) (r : result A) : result B :=
  x <- r ;; Ok (f x).

Definition is_ok {A : Type} (r : result A) : bool :=
  match r with Ok _ => true | Raise _ => false end.

(** ** Python sequences and loops *)

Definition len {A : Type} (l : list A) : Z := Z.of_nat (length l).

(** [l[i]]: a negative index counts from the end, an index out of range
    raises [IndexError]. *)
Definition index {A : Type} (l : list A) (i : Z) : result A :=
  let j := if i <? 0 then i + len l else i in
  if (j <? 0) || (len l <=? j) then Raise IndexError
  else match nth_error l (Z.to_nat j) with
       | Some a => Ok a
       | None => Raise IndexError
       end.

(** [range(n)]: empty when [n <= 0]. *)
Definition range (n : Z) : list Z := map Z.of_nat (seq 0 (Z.to_nat n)).

(** [reversed(range(n))]. *)
Definition reversed {A : Type} (l : list A) : list A := rev l.

(** [for x in xs: body], the loop's variables being the state [s]. *)
Fixpoint for_ {A S : Type} (xs : list A) (body : A -> S -> result S) (s : S)
  : result S :=
  match xs with
  | [] => Ok s
  | x :: xs' => s' <- body x s ;; for_ xs' body s'
  end.

(** An attribute that is set only on some objects: reading it where it
    was never set raises [AttributeError]. *)
Definition getattr {A : Type} (o : option A) : result A :=
  match o with
  | Some a => Ok a
  | None => Raise AttributeError
  end.

(** ** Floating-point values *)

(** A value of a tensor is a single-precision number of IEEE 754, with
    its signed zeros, its infinities and its NaN.  The arithmetic rounds
    to the nearest, ties to even, on 24 bits of mantissa, and overflows
    to an infinity. *)
Definition float32 : Type := spec_float.

Module F32.

Definition prec : Z := 24.
Definition emax : Z := 128.

(** The float that a Python [int] becomes where a float is expected. *)
Definition of_int (z : Z) : float32 := binary_normalize prec emax z 0 false.

Definition add : float32 -> float32 -> float32 := SFadd prec emax.
Definition sub : float32 -> float32 -> float32 := SFsub prec emax.
Definition mul : float32 -> float32 -> float32 := SFmul prec emax.
Definition div : float32 -> float32 -> float32 := SFdiv prec emax.

Definition is_nan (v : float32) : bool :=
  match v with S754_nan => true | _ => false end.

(** The representations that are single-precision numbers: a mantissa
    of at most 24 bits, at the exponent that its size calls for. *)
Definition valid (v : float32) : bool := valid_binary prec emax v.

(** The comparisons: false whenever an operand is NaN. *)
Definition ltb : float32 -> float32 -> bool := SFltb.
Definition leb : float32 -> float32 -> bool := SFleb.

(** The library's maximum and minimum of two values: NaN when either of
    them is NaN. *)
Definition max (a b : float32) : float32 :=
  if is_nan a then a else if is_nan b then b
  else if ltb a b then b else a.

Definition min (a b : float32) : float32 :=
  if is_nan a then a else if is_nan b then b
  else if ltb b a then b else a.

End F32.

(** ** Tensors *)

(** A feature map has four dimensions, (batch, channels, height, width). *)
Definition Shape : Type := (Z * Z * Z * Z)%type.

Record Tensor : Type := mkTensor {
  shape : Shape;
  values : list float32
}.

(** ** The numeric library *)

(** The values the library's operators compute.  The model fixes what
    flows where and which shapes result; the arithmetic of a convolution
    (given its channels, kernel size, stride and padding), of a group
    normalization (given its groups, channels and epsilon) or of an
    attention, with the learned parameters, is a kernel. *)
Record Kernels : Type := mkKernels {
  conv2d_values : Z -> Z -> Z -> Z -> Z -> Tensor -> list float32;
  group_norm_values : Z -> Z -> Q -> Tensor -> list float32;
  sigmoid_values : Tensor -> list float32;
  mul_values : Tensor -> Tensor -> list float32;
  add_values : Tensor -> Tensor -> list float32;
  pad_values : Tensor -> list float32;
  interpolate_values : Tensor -> list float32;
  rearrange_values : Tensor -> list float32;
  sdpa_values : Tensor -> Tensor -> Tensor -> list float32
}.

(** Broadcasting of two sizes of one dimension. *)
Definition broadcast_dim (a b : Z) : result Z :=
  if a =? b then Ok a
  else if a =? 1 then Ok b
  else if b =? 1 then Ok a
  else Raise RuntimeError.

Definition broadcast (s t : Shape) : result Shape :=
  let '(a, b, c, d) := s in
  let '(a', b', c', d') := t in
  a'' <- broadcast_dim a a' ;;
  b'' <- broadcast_dim b b' ;;
  c'' <- broadcast_dim c c' ;;
  d'' <- broadcast_dim d d' ;;
  Ok (a'', b'', c'', d'').

Section Operators.

Variable K : Kernels.

(** [x + y] and [x * y], elementwise with broadcasting. *)
Definition add (x y : Tensor) : result Tensor :=
  s <- broadcast (shape x) (shape y) ;;
  Ok (mkTensor s (add_values K x y)).

Definition mul (x y : Tensor) : result Tensor :=
  s <- broadcast (shape x) (shape y) ;;
  Ok (mkTensor s (mul_values K x y)).

Definition sigmoid (x : Tensor) : Tensor :=
  mkTensor (shape x) (sigmoid_values K x).

(** [x.clamp(lo, hi)]: every value [v] becomes [min(max(v, lo), hi)],
    a NaN staying a NaN. *)
Definition clamp (lo hi : float32) (x : Tensor) : Tensor :=
  mkTensor (shape x) (map (fun v => F32.min (F32.max v lo) hi) (values x)).

(** [F.pad(x, (0, 1, 0, 1), mode="constant", value=0)]: one column on the
    right and one row at the bottom. *)
Definition pad_0101 (x : Tensor) : Tensor :=
  let '(B, C, H, W) := shape x in
  mkTensor (B, C, H + 1, W + 1) (pad_values K x).

(** [F.interpolate(x, scale_factor=2.0, mode="nearest")]. *)
Definition interpolate_nearest_2 (x : Tensor) : Tensor :=
  let '(B, C, H, W) := shape x in
  mkTensor (B, C, 2 * H, 2 * W) (interpolate_values K x).

(** [rearrange(x, "b c h w -> b 1 (h w) c")]. *)
Definition rearrange_to_seq (x : Tensor) : Tensor :=
  let '(b, c, h, w) := shape x in
  mkTensor (b, 1, h * w, c) (rearrange_values K x).

(** [rearrange(x, "b 1 (h w) c -> b c h w", h=H, w=W, c=C, b=B)]: the
    axes of the input must have the lengths the pattern gives them. *)
Definition rearrange_from_seq (x : Tensor) (h w c b : Z) : result Tensor :=
  let '(b', one, hw, c') := shape x in
  if (b' =? b) && (one =? 1) && (hw =? h * w) && (c' =? c)
  then Ok (mkTensor (b, c, h, w) (rearrange_values K x))
  else Raise EinopsError.

(** [F.scaled_dot_product_attention(q, k, v)] on (batch, heads, length,
    width) operands. *)
Definition scaled_dot_product_attention (q k v : Tensor) : result Tensor :=
  let '(qb, qh, ql, qe) := shape q in
  let '(kb, kh, ks, ke) := shape k in
  let '(vb, vh, vs, ve) := shape v in
  if (qb =? kb) && (kb =? vb) && (qh =? kh) && (kh =? vh)
     && (qe =? ke) && (ks =? vs)
  then Ok (mkTensor (qb, qh, ql, ve) (sdpa_values K q k v))
  else Raise RuntimeError.

(** [swish]: [x * torch.sigmoid(x)]. *)
Definition swish (x : Tensor) : result Tensor :=
  mul x (sigmoid x).

End Operators.

(** [nn.GroupNorm(num_groups, num_channels, eps, affine=True)]. *)
Module GroupNorm.

Record t : Type := mk {
  num_groups : Z;
  num_channels : Z;
  eps : Q
}.

(** The constructor rejects a channel count that the groups do not divide
    ([ValueError]); allocating the affine weight of a negative size fails
    in the library ([RuntimeError]). *)
Definition init (num_groups num_channels : Z) (eps : Q) : result t :=
  if negb (num_channels mod num_groups =? 0) then Raise ValueError
  else if num_channels <? 0 then Raise RuntimeError
  else Ok (mk num_groups num_channels eps).

(** Calling the layer.  The functional form first refuses an input with
    a single value per group over the whole batch ([ValueError]); the
    operator then needs the input's channels to be those of the layer's
    weight, and refuses an input without channels. *)
Definition forward (K : Kernels) (self : t) (x : Tensor) : result Tensor :=
  let '(B, C, H, W) := shape x in
  if ((B * C) / num_groups self) * H * W =? 1 then Raise ValueError
  else if negb (C =? num_channels self) then Raise RuntimeError
  else if C =? 0 then Raise RuntimeError
  else Ok (mkTensor (B, C, H, W)
             (group_norm_values K (num_groups self) (num_channels self)
                (eps self) x)).

End GroupNorm.

(** [nn.Conv2d(in_channels, out_channels, kernel_size, stride, padding)]. *)
Module Conv2d.

Record t : Type := mk {
  in_channels : Z;
  out_channels : Z;
  kernel_size : Z;
  stride : Z;
  padding : Z
}.

(** The weight has size (out, in, k, k): a negative size fails. *)
Definition init (in_channels out_channels kernel_size stride padding : Z)
  : result t :=
  if (in_channels <? 0) || (out_channels <? 0) then Raise RuntimeError
  else Ok (mk in_channels out_channels kernel_size stride padding).

(** A spatial size [n] becomes
    [(n + 2*padding - kernel_size) // stride + 1]. *)
Definition out_size (self : t) (n : Z) : Z :=
  (n + 2 * padding self - kernel_size self) / stride self + 1.

(** Calling the layer: the input's channels are the layer's, neither
    the input nor the weight is without channels, and the padded input is
    at least as large as the kernel. *)
Definition forward (K : Kernels) (self : t) (x : Tensor) : result Tensor :=
  let '(B, C, H, W) := shape x in
  if negb (C =? in_channels self) then Raise RuntimeError
  else if (in_channels self =? 0) || (out_channels self =? 0)
  then Raise RuntimeError
  else if (H + 2 * padding self <? kernel_size self)
          || (W + 2 * padding self <? kernel_size self)
  then Raise RuntimeError
  else Ok (mkTensor (B, out_channels self, out_size self H, out_size self W)
             (conv2d_values K (in_channels self) (out_channels self)
                (kernel_size self) (stride self) (padding self) x)).

End Conv2d.

(** ** The blocks of [models/vqvae.py] *)

Definition eps_1e_6 : Q := (1 # 1000000)%Q.

Module AttnBlock.

Record t : Type := mk {
  in_channels : Z;
  norm : GroupNorm.t;
  q : Conv2d.t;
  k : Conv2d.t;
  v : Conv2d.t;
  proj_out : Conv2d.t
}.

Definition init (in_channels : Z) : result t :=
  norm <- GroupNorm.init 32 in_channels eps_1e_6 ;;
  q <- Conv2d.init in_channels in_channels 1 1 0 ;;
  k <- Conv2d.init in_channels in_channels 1 1 0 ;;
  v <- Conv2d.init in_channels in_channels 1 1 0 ;;
  proj_out <- Conv2d.init in_channels in_channels 1 1 0 ;;
  Ok (mk in_channels norm q k v proj_out).

(** The name [x_BCHW] is bound again by the first statement, as in the
    source. *)
Definition forward (K : Kernels) (self : t) (x_BCHW : Tensor) : result Tensor :=
  x_BCHW <- GroupNorm.forward K (norm self) x_BCHW ;;
  q_BCHW <- Conv2d.forward K (q self) x_BCHW ;;
  k_BCHW <- Conv2d.forward K (k self) x_BCHW ;;
  v_BCHW <- Conv2d.forward K (v self) x_BCHW ;;
  let '(B, C, H, W) := shape x_BCHW in
  let q_B1HWC := rearrange_to_seq K q_BCHW in
  let k_B1HWC := rearrange_to_seq K k_BCHW in
  let v_B1HWC := rearrange_to_seq K v_BCHW in
  h_B1HWC <- scaled_dot_product_attention K q_B1HWC k_B1HWC v_B1HWC ;;
  h_BCHW <- rearrange_from_seq K h_B1HWC H W C B ;;
  p <- Conv2d.forward K (proj_out self) h_BCHW ;;
  add K x_BCHW p.

End AttnBlock.

Module ResnetBlock.

Record t : Type := mk {
  in_channels : Z;
  out_channels : Z;
  norm1 : GroupNorm.t;
  conv1 : Conv2d.t;
  norm2 : GroupNorm.t;
  conv2 : Conv2d.t;
  nin_shortcut : option Conv2d.t
}.

(** [out_channels] may be [None]. *)
Definition init (in_channels : Z) (out_channels : option Z) : result t :=
  let out_channels :=
    match out_channels with None => in_channels | Some c => c end in
  norm1 <- GroupNorm.init 32 in_channels eps_1e_6 ;;
  conv1 <- Conv2d.init in_channels out_channels 3 1 1 ;;
  norm2 <- GroupNorm.init 32 out_channels eps_1e_6 ;;
  conv2 <- Conv2d.init out_channels out_channels 3 1 1 ;;
  if negb (in_channels =? out_channels) then
    nin_shortcut <- Conv2d.init in_channels out_channels 1 1 0 ;;
    Ok (mk in_channels out_channels norm1 conv1 norm2 conv2 (Some nin_shortcut))
  else
    Ok (mk in_channels out_channels norm1 conv1 norm2 conv2 None).

Definition forward (K : Kernels) (self : t) (x : Tensor) : result Tensor :=
  let h := x in
  h <- GroupNorm.forward K (norm1 self) h ;;
  h <- swish K h ;;
  h <- Conv2d.forward K (conv1 self) h ;;
  h <- GroupNorm.forward K (norm2 self) h ;;
  h <- swish K h ;;
  h <- Conv2d.forward K (conv2 self) h ;;
  x <- (if negb (in_channels self =? out_channels self)
        then (sc <- getattr (nin_shortcut self) ;; Conv2d.forward K sc x)
        else Ok x) ;;
  add K x h.

End ResnetBlock.

Module Downsample.

Record t : Type := mk {
  conv : Conv2d.t
}.

Definition init (in_channels : Z) : result t :=
  conv <- Conv2d.init in_channels in_channels 3 2 0 ;;
  Ok (mk conv).

Definition forward (K : Kernels) (self : t) (x : Tensor) : result Tensor :=
  let x := pad_0101 K x in
  Conv2d.forward K (conv self) x.

End Downsample.

Module Upsample.

Record t : Type := mk {
  conv : Conv2d.t
}.

Definition init (in_channels : Z) : result t :=
  conv <- Conv2d.init in_channels in_channels 3 1 1 ;;
  Ok (mk conv).

Definition forward (K : Kernels) (self : t) (x : Tensor) : result Tensor :=
  let x := interpolate_nearest_2 K x in
  Conv2d.forward K (conv self) x.

End Upsample.

(** ** Encoder and Decoder *)

(** The bottleneck, [self.mid]: a bare module carrying three blocks. *)
Module Mid.

Record t : Type := mk {
  block_1 : ResnetBlock.t;
  attn_1 : AttnBlock.t;
  block_2 : ResnetBlock.t
}.

Definition init (block_in : Z) : result t :=
  block_1 <- ResnetBlock.init block_in (Some block_in) ;;
  attn_1 <- AttnBlock.init block_in ;;
  block_2 <- ResnetBlock.init block_in (Some block_in) ;;
  Ok (mk block_1 attn_1 block_2).

Definition forward (K : Kernels) (self : t) (h : Tensor) : result Tensor :=
  h <- ResnetBlock.forward K (block_1 self) h ;;
  h <- AttnBlock.forward K (attn_1 self) h ;;
  ResnetBlock.forward K (block_2 self) h.

End Mid.

(** One resolution level: bare modules with the attributes [block] and
    [attn], and [downsample] (or [upsample]) on some of them only. *)
Module Level.

Record t (R : Type) : Type := mk {
  block : list ResnetBlock.t;
  attn : list AttnBlock.t;
  resample : option R
}.
Arguments mk {R} block attn resample.
Arguments block {R} self : rename.
Arguments attn {R} self : rename.
Arguments resample {R} self : rename.

(** The attribute is [downsample] on an Encoder level and [upsample] on
    a Decoder level. *)
Definition downsample {R : Type} (self : t R) : option R := resample self.
Definition upsample {R : Type} (self : t R) : option R := resample self.

End Level.

(** The inner loop of both constructors:
    [for _ in range(n): block.append(ResnetBlock(block_in, block_out));
     block_in = block_out]. *)
Definition append_blocks (n block_out : Z)
  (st : list ResnetBlock.t * Z) : result (list ResnetBlock.t * Z) :=
  for_ (range n)
    (fun _ '(block, block_in) =>
       b <- ResnetBlock.init block_in (Some block_out) ;;
       Ok (block ++ [b], block_out))
    st.

(** The inner loop of both [forward]s, [n] being the number of blocks the
    loop counts:
    [for i_block in range(n): h = level.block[i_block](h);
     if len(level.attn) > 0: h = level.attn[i_block](h)]. *)
Definition run_blocks {R : Type} (K : Kernels) (levels : list (Level.t R))
  (i_level n : Z) (h : Tensor) : result Tensor :=
  for_ (range n)
    (fun i_block h =>
       lvl <- index levels i_level ;;
       b <- index (Level.block lvl) i_block ;;
       h <- ResnetBlock.forward K b h ;;
       lvl <- index levels i_level ;;
       if 0 <? len (Level.attn lvl) then
         lvl <- index levels i_level ;;
         a <- index (Level.attn lvl) i_block ;;
         AttnBlock.forward K a h
       else Ok h)
    h.

Module Encoder.

Record t : Type := mk {
  ch : Z;
  num_resolutions : Z;
  num_res_blocks : Z;
  resolution : Z;
  in_channels : Z;
  conv_in : Conv2d.t;
  in_ch_mult : list Z;
  down : list (Level.t Downsample.t);
  mid : Mid.t;
  norm_out : GroupNorm.t;
  conv_out : Conv2d.t
}.

(** The body of [for i_level in range(self.num_resolutions)] in the
    constructor; the loop's variables are [block_in], [curr_res] and
    [self.down]. *)
Definition init_level (ch : Z) (ch_mult in_ch_mult : list Z)
  (num_resolutions num_res_blocks : Z) (i_level : Z)
  (st : Z * Z * list (Level.t Downsample.t))
  : result (Z * Z * list (Level.t Downsample.t)) :=
  let '(block_in, curr_res, down) := st in
  let block := [] in
  let attn := [] in
  m_in <- index in_ch_mult i_level ;;
  let block_in := ch * m_in in
  m_out <- index ch_mult i_level ;;
  let block_out := ch * m_out in
  ' (block, block_in) <- append_blocks num_res_blocks block_out (block, block_in) ;;
  if negb (i_level =? num_resolutions - 1) then
    downsample <- Downsample.init block_in ;;
    let curr_res := curr_res / 2 in
    Ok (block_in, curr_res, down ++ [Level.mk block attn (Some downsample)])
  else
    Ok (block_in, curr_res, down ++ [Level.mk block attn None]).

Definition init (resolution in_channels ch : Z) (ch_mult : list Z)
  (num_res_blocks z_channels : Z) : result t :=
  let num_resolutions := len ch_mult in
  conv_in <- Conv2d.init in_channels ch 3 1 1 ;;
  let curr_res := resolution in
  let in_ch_mult := 1 :: ch_mult in
  let down := [] in
  let block_in := ch in
  ' (block_in, curr_res, down) <-
    for_ (range num_resolutions)
      (init_level ch ch_mult in_ch_mult num_resolutions num_res_blocks)
      (block_in, curr_res, down) ;;
  mid <- Mid.init block_in ;;
  norm_out <- GroupNorm.init 32 block_in eps_1e_6 ;;
  conv_out <- Conv2d.init block_in z_channels 3 1 1 ;;
  Ok (mk ch num_resolutions num_res_blocks resolution in_channels conv_in
        in_ch_mult down mid norm_out conv_out).

(** The body of [for i_level in range(self.num_resolutions)] in
    [forward]. *)
Definition forward_level (K : Kernels) (self : t) (i_level : Z) (h : Tensor)
  : result Tensor :=
  h <- run_blocks K (down self) i_level (num_res_blocks self) h ;;
  if negb (i_level =? num_resolutions self - 1) then
    lvl <- index (down self) i_level ;;
    d <- getattr (Level.downsample lvl) ;;
    Downsample.forward K d h
  else Ok h.

Definition forward (K : Kernels) (self : t) (x : Tensor) : result Tensor :=
  h <- Conv2d.forward K (conv_in self) x ;;
  h <- for_ (range (num_resolutions self)) (forward_level K self) h ;;
  h <- Mid.forward K (mid self) h ;;
  h <- GroupNorm.forward K (norm_out self) h ;;
  h <- swish K h ;;
  h <- Conv2d.forward K (conv_out self) h ;;
  Ok h.

End Encoder.

Module Decoder.

Record t : Type := mk {
  ch : Z;
  num_resolutions : Z;
  num_res_blocks : Z;
  resolution : Z;
  in_channels : Z;
  ffactor : Z;
  z_shape : Shape;
  conv_in : Conv2d.t;
  mid : Mid.t;
  up : list (Level.t Upsample.t);
  norm_out : GroupNorm.t;
  conv_out : Conv2d.t
}.

(** The body of [for i_level in reversed(range(self.num_resolutions))] in
    the constructor; [self.up.insert(0, up)] puts the level in front. *)
Definition init_level (ch : Z) (ch_mult : list Z) (num_res_blocks : Z)
  (i_level : Z) (st : Z * Z * list (Level.t Upsample.t))
  : result (Z * Z * list (Level.t Upsample.t)) :=
  let '(block_in, curr_res, up) := st in
  let block := [] in
  let attn := [] in
  m_out <- index ch_mult i_level ;;
  let block_out := ch * m_out in
  ' (block, block_in) <-
    append_blocks (num_res_blocks + 1) block_out (block, block_in) ;;
  if negb (i_level =? 0) then
    upsample <- Upsample.init block_in ;;
    let curr_res := curr_res * 2 in
    Ok (block_in, curr_res, Level.mk block attn (Some upsample) :: up)
  else
    Ok (block_in, curr_res, Level.mk block attn None :: up).

(** [2 ** (num_resolutions - 1)] is an integer power when there is a
    level; with no level the statement after it, [ch_mult[-1]], raises
    and no object results. *)
Definition init (ch out_ch : Z) (ch_mult : list Z)
  (num_res_blocks in_channels resolution z_channels : Z) : result t :=
  let num_resolutions := len ch_mult in
  let ffactor := 2 ^ (num_resolutions - 1) in
  m_last <- index ch_mult (num_resolutions - 1) ;;
  let block_in := ch * m_last in
  let curr_res := resolution / 2 ^ (num_resolutions - 1) in
  let z_shape := (1, z_channels, curr_res, curr_res) in
  conv_in <- Conv2d.init z_channels block_in 3 1 1 ;;
  mid <- Mid.init block_in ;;
  let up := [] in
  ' (block_in, curr_res, up) <-
    for_ (reversed (range num_resolutions))
      (init_level ch ch_mult num_res_blocks)
      (block_in, curr_res, up) ;;
  norm_out <- GroupNorm.init 32 block_in eps_1e_6 ;;
  conv_out <- Conv2d.init block_in out_ch 3 1 1 ;;
  Ok (mk ch num_resolutions num_res_blocks resolution in_channels ffactor
        z_shape conv_in mid up norm_out conv_out).

(** The body of [for i_level in reversed(range(self.num_resolutions))] in
    [forward]. *)
Definition forward_level (K : Kernels) (self : t) (i_level : Z) (h : Tensor)
  : result Tensor :=
  h <- run_blocks K (up self) i_level (num_res_blocks self + 1) h ;;
  if negb (i_level =? 0) then
    lvl <- index (up self) i_level ;;
    u <- getattr (Level.upsample lvl) ;;
    Upsample.forward K u h
  else Ok h.

Definition forward (K : Kernels) (self : t) (z : Tensor) : result Tensor :=
  h <- Conv2d.forward K (conv_in self) z ;;
  h <- Mid.forward K (mid self) h ;;
  h <- for_ (reversed (range (num_resolutions self))) (forward_level K self) h ;;
  h <- GroupNorm.forward K (norm_out self) h ;;
  h <- swish K h ;;
  h <- Conv2d.forward K (conv_out self) h ;;
  Ok h.

End Decoder.

(** ** The model *)

Record VQVAEConfig : Type := mkVQVAEConfig {
  resolution : Z;
  in_channels : Z;
  dim : Z;
  ch_mult : list Z;
  num_res_blocks : Z;
  z_channels : Z;
  out_ch : Z;
  vocab_size : Z;
  patch_sizes : list Z
}.

(** The class [VectorQuantizer] that the module imports from
    [models/quant.py]: its constructor, and what calling an instance on a
    latent returns, the quantized feature map with the residual maps, the
    index grids, the scales and the loss. *)
Record QuantizerClass : Type := mkQuantizerClass {
  Quantizer : Type;
  RMaps : Type;
  Idxs : Type;
  Scales : Type;
  Loss : Type;
  Quantizer_init : Z -> Z -> list Z -> result Quantizer;
  Quantizer_forward :
    Quantizer -> Tensor -> result (Tensor * RMaps * Idxs * Scales * Loss)
}.

Module VQVAE.

Section WithQuantizer.

Variable VectorQuantizer : QuantizerClass.

Record t : Type := mk {
  config : VQVAEConfig;
  encoder : Encoder.t;
  decoder : Decoder.t;
  quantizer : Quantizer VectorQuantizer
}.

Definition init (config : VQVAEConfig) : result t :=
  encoder <- Encoder.init (resolution config) (in_channels config)
               (dim config) (ch_mult config) (num_res_blocks config)
               (z_channels config) ;;
  decoder <- Decoder.init (dim config) (out_ch config) (ch_mult config)
               (num_res_blocks config) (in_channels config)
               (resolution config) (z_channels config) ;;
  quantizer <- Quantizer_init VectorQuantizer (vocab_size config)
                 (z_channels config) (patch_sizes config) ;;
  Ok (mk config encoder decoder quantizer).

Variable K : Kernels.

Definition forward (self : t) (x : Tensor)
  : result (Tensor * RMaps VectorQuantizer * Idxs VectorQuantizer
            * Scales VectorQuantizer * Loss VectorQuantizer) :=
  f <- Encoder.forward K (encoder self) x ;;
  ' (fhat, r_maps, idxs, scales, loss) <-
    Quantizer_forward VectorQuantizer (quantizer self) f ;;
  x_hat <- Decoder.forward K (decoder self) fhat ;;
  Ok (x_hat, r_maps, idxs, scales, loss).

Definition to_img (self : t) (f_hat_BCHW : Tensor) : result Tensor :=
  h <- Decoder.forward K (decoder self) f_hat_BCHW ;;
  Ok (clamp (F32.of_int (-1)) (F32.of_int 1) h).

Definition img_to_indices (self : t) (x : Tensor)
  : result (Idxs VectorQuantizer) :=
  f <- Encoder.forward K (encoder self) x ;;
  ' (fhat, r_maps, idxs, scales, loss) <-
    Quantizer_forward VectorQuantizer (quantizer self) f ;;
  Ok idxs.

End WithQuantizer.

End VQVAE.

(** ** Vocabulary of the statements *)

(** A call returns a tensor of the given shape. *)
Definition returns_shape (r : result Tensor) (s : Shape) : Prop :=
  exists y, r = Ok y /\ shape y = s.

(** A channel width that a [GroupNorm] of 32 groups accepts. *)
Definition width_ok (c : Z) : Prop := 0 < c /\ c mod 32 = 0.

(** What a normalization of 32 groups checks of a (B, C, H, W) input:
    the count [(B * C // 32) * H * W] is not 1, the batch has more than
    one value per group. *)
Definition normalizable (B C H W : Z) : Prop := B * C / 32 * H * W <> 1.


(** A value lies in [[lo, hi]]; a NaN does not. *)
Definition between (lo hi v : float32) : Prop :=
  F32.leb lo v = true /\ F32.leb v hi = true.

(** Every value of a tensor lies in [[lo, hi]]. *)
Definition within (lo hi : float32) (x : Tensor) : Prop :=
  Forall (between lo hi) (values x).

(** Every value of a tensor is a NaN or lies in [[lo, hi]]. *)
Definition within_or_nan (lo hi : float32) (x : Tensor) : Prop :=
  Forall (fun v => F32.is_nan v = true \/ between lo hi v) (values x).

(** The values of [y] are NaN exactly where those of [x] are. *)
Definition same_nans (x y : Tensor) : Prop :=
  map F32.is_nan (values y) = map F32.is_nan (values x).

(** The blocks the constructors build, written out. *)
Definition resnet_block (cin cout : Z) : ResnetBlock.t :=
  ResnetBlock.mk cin cout
    (GroupNorm.mk 32 cin eps_1e_6) (Conv2d.mk cin cout 3 1 1)
    (GroupNorm.mk 32 cout eps_1e_6) (Conv2d.mk cout cout 3 1 1)
    (if cin =? cout then None else Some (Conv2d.mk cin cout 1 1 0)).

Definition attn_block (c : Z) : AttnBlock.t :=
  AttnBlock.mk c (GroupNorm.mk 32 c eps_1e_6)
    (Conv2d.mk c c 1 1 0) (Conv2d.mk c c 1 1 0) (Conv2d.mk c c 1 1 0)
    (Conv2d.mk c c 1 1 0).

Definition mid_block (c : Z) : Mid.t :=
  Mid.mk (resnet_block c c) (attn_block c) (resnet_block c c).

(** [n] blocks in a row, the first one from [cin] to [cout] channels and
    the others keeping [cout]. *)
Fixpoint resnet_blocks (n : nat) (cin cout : Z) : list ResnetBlock.t :=
  match n with
  | O => []
  | S n' => resnet_block cin cout :: resnet_blocks n' cout cout
  end.

(** The channels that enter level [i] of the Encoder and those that
    leave it: [ch * in_ch_mult[i]] and [ch * ch_mult[i]]. *)
Definition width_in (ch : Z) (ch_mult : list Z) (i : nat) : Z :=
  ch * nth i (1 :: ch_mult) 0.

Definition width_out (ch : Z) (ch_mult : list Z) (i : nat) : Z :=
  ch * nth i ch_mult 0.

(** The widest level, the last one. *)
Definition width_last (ch : Z) (ch_mult : list Z) : Z :=
  width_out ch ch_mult (length ch_mult - 1).

(** Level [i] of an Encoder of [n] blocks a level. *)
Definition encoder_level (ch : Z) (ch_mult : list Z) (n i : nat)
  : Level.t Downsample.t :=
  Level.mk
    (resnet_blocks n (width_in ch ch_mult i) (width_out ch ch_mult i)) []
    (if (S i =? length ch_mult)%nat then None
     else Some (Downsample.mk
                  (Conv2d.mk (width_out ch ch_mult i) (width_out ch ch_mult i)
                     3 2 0))).

Definition built_encoder (resolution in_channels ch : Z) (ch_mult : list Z)
  (num_res_blocks z_channels : Z) : Encoder.t :=
  Encoder.mk ch (len ch_mult) num_res_blocks resolution in_channels
    (Conv2d.mk in_channels ch 3 1 1) (1 :: ch_mult)
    (map (encoder_level ch ch_mult (Z.to_nat num_res_blocks))
       (seq 0 (length ch_mult)))
    (mid_block (width_last ch ch_mult))
    (GroupNorm.mk 32 (width_last ch ch_mult) eps_1e_6)
    (Conv2d.mk (width_last ch ch_mult) z_channels 3 1 1).

(** The channels that enter level [i] of the Decoder: those of the last
    level at the last level, and those that leave level [i + 1] below. *)
Definition dec_width_in (ch : Z) (ch_mult : list Z) (i : nat) : Z :=
  width_out ch ch_mult (Nat.min (S i) (length ch_mult - 1)).

(** Level [i] of a Decoder of [n] blocks a level. *)
Definition decoder_level (ch : Z) (ch_mult : list Z) (n i : nat)
  : Level.t Upsample.t :=
  Level.mk
    (resnet_blocks n (dec_width_in ch ch_mult i) (width_out ch ch_mult i)) []
    (if (i =? 0)%nat then None
     else Some (Upsample.mk
                  (Conv2d.mk (width_out ch ch_mult i) (width_out ch ch_mult i)
                     3 1 1))).

Definition built_decoder (ch out_ch : Z) (ch_mult : list Z)
  (num_res_blocks in_channels resolution z_channels : Z) : Decoder.t :=
  let L := len ch_mult in
  Decoder.mk ch L num_res_blocks resolution in_channels (2 ^ (L - 1))
    (1, z_channels, resolution / 2 ^ (L - 1), resolution / 2 ^ (L - 1))
    (Conv2d.mk z_channels (width_last ch ch_mult) 3 1 1)
    (mid_block (width_last ch ch_mult))
    (map (decoder_level ch ch_mult (Z.to_nat (num_res_blocks + 1)))
       (seq 0 (length ch_mult)))
    (GroupNorm.mk 32 (width_out ch ch_mult 0) eps_1e_6)
    (Conv2d.mk (width_out ch ch_mult 0) out_ch 3 1 1).

(** The Encoder that is built when the levels have no block,
    [num_res_blocks <= 0], and every multiplier but the last is 1: it has
    [ch] channels throughout. *)
Definition blockless_encoder (resolution in_channels ch : Z) (ch_mult : list Z)
  (num_res_blocks z_channels : Z) : Encoder.t :=
  Encoder.mk ch (len ch_mult) num_res_blocks resolution in_channels
    (Conv2d.mk in_channels ch 3 1 1) (1 :: ch_mult)
    (map (fun i =>
            Level.mk [] []
              (if (S i =? length ch_mult)%nat then None
               else Some (Downsample.mk (Conv2d.mk ch ch 3 2 0))))
       (seq 0 (length ch_mult)))
    (mid_block ch)
    (GroupNorm.mk 32 ch eps_1e_6)
    (Conv2d.mk ch z_channels 3 1 1).

(** The Decoder that is built when the levels have no block,
    [num_res_blocks + 1 <= 0]: it has the channels of the last level
    throughout. *)
Definition blockless_decoder (ch out_ch : Z) (ch_mult : list Z)
  (num_res_blocks in_channels resolution z_channels : Z) : Decoder.t :=
  let L := len ch_mult in
  let w := width_last ch ch_mult in
  Decoder.mk ch L num_res_blocks resolution in_channels (2 ^ (L - 1))
    (1, z_channels, resolution / 2 ^ (L - 1), resolution / 2 ^ (L - 1))
    (Conv2d.mk z_channels w 3 1 1)
    (mid_block w)
    (map (fun i =>
            Level.mk [] []
              (if (i =? 0)%nat then None
               else Some (Upsample.mk (Conv2d.mk w w 3 1 1))))
       (seq 0 (length ch_mult)))
    (GroupNorm.mk 32 w eps_1e_6)
    (Conv2d.mk w out_ch 3 1 1).

(** Kernels that compute no value, for running the model on shapes. *)
Definition null_kernels : Kernels :=
  mkKernels (fun _ _ _ _ _ _ => []) (fun _ _ _ _ => []) (fun _ => [])
    (fun _ _ => []) (fun _ _ => []) (fun _ => []) (fun _ => [])
    (fun _ => []) (fun _ _ _ => []).

(** The configuration of the module's [__main__]. *)
Definition example_config : VQVAEConfig :=
  mkVQVAEConfig 256 3 128 [1; 2; 4; 4] 2 64 3 8192
    [1; 2; 3; 4; 5; 6; 8; 10; 13; 16; 32].

(** The invariant that the data model gives a Configuration: at least one
    level, and a resolution that [2^(num_resolutions-1)] divides. *)
Definition valid_config (c : VQVAEConfig) : Prop :=
  1 <= len (ch_mult c)
  /\ resolution c mod 2 ^ (len (ch_mult c) - 1) = 0.

(** What the constructors need of a Configuration: widths that the 32
    groups of the normalizations divide, [dim] itself among them, at least
    one block a level, and channels to convolve. *)
Definition buildable (c : VQVAEConfig) : Prop :=
  width_ok (dim c)
  /\ Forall (fun m => width_ok (dim c * m)) (ch_mult c)
  /\ 1 <= num_res_blocks c
  /\ 0 < in_channels c /\ 0 < z_channels c /\ 0 < out_ch c.

(** The spatial size of the latent. *)
Definition latent_size (c : VQVAEConfig) : Z :=
  resolution c / 2 ^ (len (ch_mult c) - 1).

(** Every multiplier but the last is 1. *)
Definition ones_before_last (ch_mult : list Z) : Prop :=
  forall i, (S i < length ch_mult)%nat -> nth i ch_mult 0 = 1.

(** The channels that enter the last level of the Encoder,
    [dim * in_ch_mult[L-1]], and those of the last level,
    [dim * ch_mult[L-1]]. *)
Definition entry_width (c : VQVAEConfig) : Z :=
  width_in (dim c) (ch_mult c) (length (ch_mult c) - 1).

Definition last_width (c : VQVAEConfig) : Z :=
  width_last (dim c) (ch_mult c).

(** What building the Encoder of a Configuration and running it on an
    image of the configured resolution needs: a base width that is a
    positive multiple of 32; with blocks in the levels, widths
    [dim * ch_mult[i]] that are positive multiples of 32; without blocks,
    multipliers equal to 1 before the last; channels to convolve; and an
    image with a pixel. *)
Definition encoder_runnable (c : VQVAEConfig) : Prop :=
  width_ok (dim c)
  /\ (1 <= num_res_blocks c ->
      Forall (fun m => width_ok (dim c * m)) (ch_mult c))
  /\ (num_res_blocks c <= 0 -> ones_before_last (ch_mult c))
  /\ 0 < in_channels c /\ 0 < z_channels c /\ 0 < resolution c.

(** The same for the Encoder and the Decoder together. *)
Definition runnable (c : VQVAEConfig) : Prop :=
  width_ok (dim c)
  /\ Forall (fun m => width_ok (dim c * m)) (ch_mult c)
  /\ (num_res_blocks c <= 0 -> ones_before_last (ch_mult c))
  /\ 0 < in_channels c /\ 0 < z_channels c /\ 0 < out_ch c
  /\ 0 < resolution c.

Definition image_shape (c : VQVAEConfig) (B : Z) : Shape :=
  (B, in_channels c, resolution c, resolution c).

Definition latent_shape (c : VQVAEConfig) (B : Z) : Shape :=
  (B, z_channels c, latent_size c, latent_size c).

Definition reconstruction_shape (c : VQVAEConfig) (B : Z) : Shape :=
  (B, out_ch c, resolution c, resolution c).

Definition Encoder_of (c : VQVAEConfig) : result Encoder.t :=
  Encoder.init (resolution c) (in_channels c) (dim c) (ch_mult c)
    (num_res_blocks c) (z_channels c).

Definition Decoder_of (c : VQVAEConfig) : result Decoder.t :=
  Decoder.init (dim c) (out_ch c) (ch_mult c) (num_res_blocks c)
    (in_channels c) (resolution c) (z_channels c).

(** What the model relies on from the quantizer: its constructor accepts
    the Configuration, and calling it on a latent returns a quantized
    feature map of the latent's shape. *)
Definition quantizer_contract (VQ : QuantizerClass) (c : VQVAEConfig) (B : Z)
  : Prop :=
  exists q,
    Quantizer_init VQ (vocab_size c) (z_channels c) (patch_sizes c) = Ok q
    /\ forall f, shape f = latent_shape c B ->
         exists fhat r i s l,
           Quantizer_forward VQ q f = Ok (fhat, r, i, s, l)
           /\ shape fhat = shape f.

(** A quantizer for running the model: it keeps the patch sizes, hands
    the latent back as the quantized feature map, and returns one residual
    map and one index grid for every patch size. *)
Definition passthrough_quantizer : QuantizerClass :=
  mkQuantizerClass (list Z) (list Tensor) (list Tensor) (list Z) float32
    (fun _ _ patch_sizes => Ok patch_sizes)
    (fun patch_sizes f =>
       Ok (f, map (fun _ => f) patch_sizes, map (fun _ => f) patch_sizes,
           patch_sizes, F32.of_int 0)).

(** The example configuration with a base width of 16 channels. *)
Definition narrow_config : VQVAEConfig :=
  mkVQVAEConfig 256 3 16 [1; 2; 4; 4] 2 64 3 8192
    [1; 2; 3; 4; 5; 6; 8; 10; 13; 16; 32].

(** The example configuration with a base width of 100 channels. *)
Definition odd_width_config : VQVAEConfig :=
  mkVQVAEConfig 256 3 100 [1; 2; 4; 4] 2 64 3 8192
    [1; 2; 3; 4; 5; 6; 8; 10; 13; 16; 32].

(** The library's arithmetic on tensors whose values are all equal, small
    integers or NaN, for convolutions with identity weights and a bias of
    3 and normalizations with the default affine parameters.  On such a
    tensor the mean is the value itself, so a normalization returns the
    value less itself, a zero or a NaN; the sigmoid is only met after a
    normalization and returns one half, or NaN on a NaN; an attention
    returns its value operand, and a permutation of the axes changes
    nothing. *)
Definition constant_kernels : Kernels :=
  mkKernels
    (fun _ _ _ _ _ x => map (fun v => F32.add v (F32.of_int 3)) (values x))
    (fun _ _ _ x => map (fun v => F32.sub v v) (values x))
    (fun x => map (fun v => if F32.is_nan v then v
                            else F32.div (F32.of_int 1) (F32.of_int 2))
                (values x))
    (fun x y => map (fun '(a, b) => F32.mul a b) (combine (values x) (values y)))
    (fun x y => map (fun '(a, b) => F32.add a b) (combine (values x) (values y)))
    (fun x => values x)
    (fun x => values x)
    (fun x => values x)
    (fun _ _ v => values v).

(** A Configuration of one level in which every width is 32. *)
Definition one_level_config : VQVAEConfig :=
  mkVQVAEConfig 2 32 32 [1] 1 32 32 8192 [1; 2].

Definition one_level_model : VQVAE.t passthrough_quantizer :=
  VQVAE.mk passthrough_quantizer one_level_config
    (built_encoder 2 32 32 [1] 1 32)
    (built_decoder 32 32 [1] 1 32 2 32)
    [1; 2].

(** A (1, 32, 2, 2) tensor with every value equal to [v]. *)
Definition constant_tensor (v : float32) : Tensor :=
  mkTensor (1, 32, 2, 2) (repeat v 128).

(** What a call comes to: a return or the exception it raises. *)
Definition outcome {A : Type} (r : result A) : result unit :=
  fmap (fun _ => tt) r.

(** Two calls come to the same, with returned values related by [R]. *)
Definition sim {A : Type} (R : A -> A -> Prop) (r1 r2 : result A) : Prop :=
  match r1, r2 with
  | Ok a1, Ok a2 => R a1 a2
  | Raise e1, Raise e2 => e1 = e2
  | _, _ => False
  end.

(** The Configuration with another resolution. *)
Definition with_resolution (r : Z) (c : VQVAEConfig) : VQVAEConfig :=
  mkVQVAEConfig r (in_channels c) (dim c) (ch_mult c) (num_res_blocks c)
    (z_channels c) (out_ch c) (vocab_size c) (patch_sizes c).

(** The example configuration with a resolution of 250, which 8 does not
    divide, and with no level. *)
Definition indivisible_config : VQVAEConfig :=
  with_resolution 250 example_config.

Definition no_level_config : VQVAEConfig :=
  mkVQVAEConfig 256 3 128 [] 2 64 3 8192
    [1; 2; 3; 4; 5; 6; 8; 10; 13; 16; 32].

(** A Configuration of two levels with a base width of 16 channels and no
    block in a level of the Encoder. *)
Definition blockless_config : VQVAEConfig :=
  mkVQVAEConfig 256 3 16 [2; 2] 0 64 3 8192
    [1; 2; 3; 4; 5; 6; 8; 10; 13; 16; 32].

(** The normalization layers of the blocks and of the models. *)
Definition ResnetBlock_norms (b : ResnetBlock.t) : list GroupNorm.t :=
  [ResnetBlock.norm1 b; ResnetBlock.norm2 b].

Definition AttnBlock_norms (a : AttnBlock.t) : list GroupNorm.t :=
  [AttnBlock.norm a].

Definition Mid_norms (m : Mid.t) : list GroupNorm.t :=
  ResnetBlock_norms (Mid.block_1 m) ++ AttnBlock_norms (Mid.attn_1 m)
  ++ ResnetBlock_norms (Mid.block_2 m).

Definition Level_norms {R : Type} (l : Level.t R) : list GroupNorm.t :=
  flat_map ResnetBlock_norms (Level.block l)
  ++ flat_map AttnBlock_norms (Level.attn l).

Definition Encoder_norms (e : Encoder.t) : list GroupNorm.t :=
  flat_map Level_norms (Encoder.down e) ++ Mid_norms (Encoder.mid e)
  ++ [Encoder.norm_out e].

Definition Decoder_norms (d : Decoder.t) : list GroupNorm.t :=
  Mid_norms (Decoder.mid d) ++ flat_map Level_norms (Decoder.up d)
  ++ [Decoder.norm_out d].

(** A normalization of 32 groups over channels that 32 divides. *)
Definition norm32 (g : GroupNorm.t) : Prop :=
  GroupNorm.num_groups g = 32 /\ GroupNorm.num_channels g mod 32 = 0.

(** The states of the constructors' loops, up to [curr_res]. *)
Definition same_but_res {T : Type} (s1 s2 : Z * Z * list T) : Prop :=
  fst (fst s1) = fst (fst s2) /\ snd s1 = snd s2.

(** The errors of the numeric library: a shape it refuses. *)
Definition library_error (e : exn) : Prop :=
  e = ValueError \/ e = RuntimeError.

(** A call that raises raises only an exception of [P]. *)
Definition raises_only {A : Type} (P : exn -> Prop) (r : result A) : Prop :=
  forall e, r = Raise e -> P e.

(** The factor between the image and the latent, [2^(num_resolutions-1)]. *)
Definition scale_factor (c : VQVAEConfig) : Z :=
  2 ^ (len (ch_mult c) - 1).

(** What the constructors need of a Configuration, the resolution apart:
    a level, widths that 32 divides, a block a level and channels. *)
Definition channels_ok (c : VQVAEConfig) : Prop :=
  ch_mult c <> [] /\ buildable c.

(** The number of halvings done before level [i] of an Encoder of [L]
    levels, and the number of doublings done once the levels from [j] on
    of a Decoder of [L] levels are done. *)
Definition halvings (L i : nat) : Z := Z.of_nat (Nat.min i (L - 1)).

Definition doublings (L j : nat) : Z := Z.of_nat (Nat.min (L - j) (L - 1)).

(** Building the Encoder of a Configuration and running it on a tensor;
    building the model and running its [forward]. *)
Definition encode (K : Kernels) (c : VQVAEConfig) (x : Tensor)
  : result Tensor :=
  enc <- Encoder_of c ;; Encoder.forward K enc x.

Definition reconstruct (VQ : QuantizerClass) (K : Kernels) (c : VQVAEConfig)
  (x : Tensor) : result Tensor :=
  model <- VQVAE.init VQ c ;;
  out <- VQVAE.forward VQ K model x ;;
  Ok (fst (fst (fst (fst out)))).

(** An image of the shape that a Configuration gives its inputs, the
    values left out. *)
Definition blank_image (c : VQVAEConfig) (B : Z) : Tensor :=
  mkTensor (image_shape c B) [].

(** The Configuration with other channels, another base width, other
    multipliers or another number of blocks. *)
Definition with_channels (i z o : Z) (c : VQVAEConfig) : VQVAEConfig :=
  mkVQVAEConfig (resolution c) i (dim c) (ch_mult c) (num_res_blocks c)
    z o (vocab_size c) (patch_sizes c).

Definition with_widths (d : Z) (m : list Z) (n : Z) (c : VQVAEConfig)
  : VQVAEConfig :=
  mkVQVAEConfig (resolution c) (in_channels c) d m n
    (z_channels c) (out_ch c) (vocab_size c) (patch_sizes c).

(** One level of 32 channels widened to 64, on one pixel: 32 channels
    enter the last level. *)
Definition narrow_entry_config : VQVAEConfig :=
  mkVQVAEConfig 1 3 32 [2] 1 64 3 8192 [1].

(** Two levels of 64 and 32 channels, on two pixels by two: the last
    level has 32 channels on one pixel. *)
Definition narrow_last_config : VQVAEConfig :=
  mkVQVAEConfig 2 3 32 [2; 1] 1 64 3 8192 [1].

(** Three levels without blocks, [num_res_blocks = -1], with a base
    width of 16 channels. *)
Definition blockless_decoder_config : VQVAEConfig :=
  mkVQVAEConfig 256 3 16 [1; 2; 2] (-1) 64 3 8192
    [1; 2; 3; 4; 5; 6; 8; 10; 13; 16; 32].

(** * Properties *)

(** ** The error monad and the loops *)

Lemma bind_Ok_inv {A B : Type} (r : result A) (k : A -> result B) (b : B) :
  bind r k = Ok b -> exists a, r = Ok a /\ k a = Ok b.
Proof.
  destruct r as [a|e]; simpl; intros H; [now exists a | discriminate].
Qed.

Lemma returns_shape_bind (r : result Tensor) (k : Tensor -> result Tensor)
  (s s' : Shape) :
  returns_shape r s ->
  (forall y, shape y = s -> returns_shape (k y) s') ->
  returns_shape (bind r k) s'.
Proof.
  intros (y & -> & Hy) Hk. simpl. now apply Hk.
Qed.

Lemma returns_shape_Ok (y : Tensor) (s : Shape) :
  shape y = s -> returns_shape (Ok y) s.
Proof. intros H. now exists y. Qed.

(** The rule of an upward loop [for i in range(n)], with an invariant
    indexed by the number of rounds done. *)
Lemma for_seq_inv {S : Type} (body : Z -> S -> result S)
  (Inv : nat -> S -> Prop) (n a : nat) (s : S) :
  Inv a s ->
  (forall i t, (a <= i < a + n)%nat -> Inv i t ->
     exists t', body (Z.of_nat i) t = Ok t' /\ Inv (Datatypes.S i) t') ->
  exists s', for_ (map Z.of_nat (seq a n)) body s = Ok s' /\ Inv (a + n)%nat s'.
Proof.
  revert a s. induction n as [|n IH]; intros a s H0 Hstep; simpl.
  - exists s. now rewrite Nat.add_0_r.
  - destruct (Hstep a s) as (t' & -> & Ht'); [lia | assumption |]. simpl.
    destruct (IH (Datatypes.S a) t' Ht') as (s' & Hs' & Hinv).
    + intros i t Hi. apply Hstep. lia.
    + exists s'. split; [assumption|]. now rewrite <- Nat.add_succ_comm.
Qed.

Lemma for_range_inv {S : Type} (body : Z -> S -> result S)
  (Inv : nat -> S -> Prop) (n : nat) (s : S) :
  Inv O s ->
  (forall i t, (i < n)%nat -> Inv i t ->
     exists t', body (Z.of_nat i) t = Ok t' /\ Inv (Datatypes.S i) t') ->
  exists s', for_ (range (Z.of_nat n)) body s = Ok s' /\ Inv n s'.
Proof.
  intros H0 Hstep. unfold range. rewrite Nat2Z.id.
  apply (for_seq_inv body Inv n O s H0).
  intros i t Hi. apply Hstep. lia.
Qed.

(** The rule of a downward loop [for i in reversed(range(n))]: the
    invariant is indexed by the next value of [i] plus one. *)
Lemma for_reversed_range_inv {S : Type} (body : Z -> S -> result S)
  (Inv : nat -> S -> Prop) (n : nat) (s : S) :
  Inv n s ->
  (forall i t, (i < n)%nat -> Inv (Datatypes.S i) t ->
     exists t', body (Z.of_nat i) t = Ok t' /\ Inv i t') ->
  exists s', for_ (reversed (range (Z.of_nat n))) body s = Ok s' /\ Inv O s'.
Proof.
  unfold range, reversed. rewrite Nat2Z.id.
  revert s. induction n as [|n IH]; intros s Hn Hstep.
  - exists s. now split.
  - rewrite seq_S, map_app, rev_app_distr. simpl.
    destruct (Hstep n s) as (t' & -> & Ht'); [lia | assumption |]. simpl.
    apply IH; [assumption|]. intros i t Hi. apply Hstep. lia.
Qed.

(** ** Indexing *)

Lemma index_nth {A : Type} (l : list A) (i : nat) (d : A) :
  (i < length l)%nat -> index l (Z.of_nat i) = Ok (nth i l d).
Proof.
  intros Hi. unfold index, len.
  replace (Z.of_nat i <? 0) with false by (symmetry; apply Z.ltb_ge; lia).
  replace (Z.of_nat i <? 0) with false by (symmetry; apply Z.ltb_ge; lia).
  replace (Z.of_nat (length l) <=? Z.of_nat i) with false
    by (symmetry; apply Z.leb_gt; lia).
  simpl. rewrite Nat2Z.id.
  now rewrite (nth_error_nth' l d Hi).
Qed.

Lemma index_empty {A : Type} (i : Z) : index (@nil A) i = Raise IndexError.
Proof.
  unfold index, len. simpl.
  destruct (i <? 0) eqn:Hi.
  - rewrite Z.add_0_r, Hi. reflexivity.
  - rewrite Hi. apply Z.ltb_ge in Hi.
    replace (0 <=? i) with true by (symmetry; apply Z.leb_le; lia).
    reflexivity.
Qed.

(** ** Floating-point comparisons *)

Lemma compare_cont_opp (p q : positive) :
  PosDef.Pos.compare_cont Eq q p = CompOpp (PosDef.Pos.compare_cont Eq p q).
Proof. exact (eq_sym (Pos.compare_cont_antisym p q Eq)). Qed.

Lemma SFcompare_antisym (a b : float32) :
  SFcompare b a = option_map CompOpp (SFcompare a b).
Proof.
  destruct a as [sa|sa| |sa ma ea], b as [sb|sb| |sb mb eb]; cbn;
    try reflexivity;
    try (destruct sa; reflexivity); try (destruct sb; reflexivity);
    try (destruct sa, sb; reflexivity).
  destruct sa, sb; cbn; try reflexivity.
  - rewrite (Z.compare_antisym ea eb).
    destruct (ea ?= eb); cbn; try reflexivity.
    now rewrite (compare_cont_opp ma mb).
  - rewrite (Z.compare_antisym ea eb).
    destruct (ea ?= eb); cbn; try reflexivity.
    now rewrite (compare_cont_opp ma mb).
Qed.

Lemma SFcompare_refl (a : float32) :
  F32.is_nan a = false -> SFcompare a a = Some Eq.
Proof.
  destruct a as [s|s| |s m e]; cbn; intros H; try discriminate;
    try reflexivity; try (destruct s; reflexivity).
  destruct s; rewrite Z.compare_refl, Pos.compare_cont_refl; reflexivity.
Qed.

Lemma SFcompare_defined (a b : float32) :
  F32.is_nan a = false -> F32.is_nan b = false ->
  exists c, SFcompare a b = Some c.
Proof.
  destruct a as [sa|sa| |sa ma ea], b as [sb|sb| |sb mb eb]; cbn;
    intros Ha Hb; try discriminate; eexists; reflexivity.
Qed.

Lemma F32_leb_refl (a : float32) : F32.is_nan a = false -> F32.leb a a = true.
Proof.
  intros H. unfold F32.leb, SFleb. now rewrite SFcompare_refl.
Qed.

Lemma F32_ltb_false_leb (a b : float32) :
  F32.is_nan a = false -> F32.is_nan b = false ->
  F32.ltb a b = false -> F32.leb b a = true.
Proof.
  intros Ha Hb. unfold F32.ltb, F32.leb, SFltb, SFleb.
  rewrite (SFcompare_antisym a b).
  destruct (SFcompare_defined a b Ha Hb) as (c & ->). cbn.
  destruct c; cbn; congruence.
Qed.

Lemma F32_leb_ltb_false (a b : float32) :
  F32.leb a b = true -> F32.ltb b a = false.
Proof.
  unfold F32.ltb, F32.leb, SFltb, SFleb.
  rewrite (SFcompare_antisym a b).
  destruct (SFcompare a b) as [c|]; cbn; [|discriminate].
  destruct c; cbn; congruence.
Qed.

Lemma between_not_nan (lo hi v : float32) :
  between lo hi v -> F32.is_nan v = false.
Proof.
  intros [H _]. destruct v; try reflexivity.
  unfold F32.leb, SFleb in H. now destruct lo.
Qed.

(** What [clamp] makes of one value: a NaN stays a NaN, every other
    value lands between the bounds. *)
Lemma clamp_value_cases (lo hi v : float32) :
  F32.is_nan lo = false -> F32.is_nan hi = false -> F32.leb lo hi = true ->
  (F32.is_nan v = true /\ F32.min (F32.max v lo) hi = v)
  \/ (F32.is_nan v = false /\ between lo hi (F32.min (F32.max v lo) hi)).
Proof.
  intros Hlo Hhi Hle. destruct (F32.is_nan v) eqn:Hv.
  - left. split; [reflexivity|]. unfold F32.max. rewrite Hv.
    unfold F32.min. now rewrite Hv.
  - right. split; [reflexivity|]. unfold F32.max. rewrite Hv, Hlo.
    destruct (F32.ltb v lo) eqn:E1; unfold F32.min.
    + rewrite Hlo, Hhi, (F32_leb_ltb_false lo hi Hle).
      split; [now apply F32_leb_refl | assumption].
    + rewrite Hv, Hhi. destruct (F32.ltb hi v) eqn:E2.
      * split; [assumption | now apply F32_leb_refl].
      * split; now apply F32_ltb_false_leb.
Qed.

(** Every value that [clamp] returns is a NaN, where the input has one,
    or lies between the bounds. *)
Lemma clamp_within_or_nan (lo hi : float32) (x : Tensor) :
  F32.is_nan lo = false -> F32.is_nan hi = false -> F32.leb lo hi = true ->
  within_or_nan lo hi (clamp lo hi x) /\ same_nans x (clamp lo hi x).
Proof.
  intros Hlo Hhi Hle. unfold within_or_nan, same_nans, clamp. cbn [values].
  split.
  - apply Forall_map, Forall_forall. intros v _.
    destruct (clamp_value_cases lo hi v Hlo Hhi Hle) as [[Hv ->]|[_ Hb]];
      [now left | now right].
  - rewrite map_map. apply map_ext. intros v.
    destruct (clamp_value_cases lo hi v Hlo Hhi Hle) as [[Hv ->]|[Hv Hb]];
      [reflexivity|].
    rewrite Hv. now apply between_not_nan in Hb.
Qed.

(** A tensor without NaN is clamped into the bounds. *)
Lemma clamp_within (lo hi : float32) (x : Tensor) :
  F32.is_nan lo = false -> F32.is_nan hi = false -> F32.leb lo hi = true ->
  Forall (fun v => F32.is_nan v = false) (values x) ->
  within lo hi (clamp lo hi x).
Proof.
  intros Hlo Hhi Hle Hx. unfold within, clamp. cbn [values].
  apply Forall_map. revert Hx. apply Forall_impl. intros v Hv.
  destruct (clamp_value_cases lo hi v Hlo Hhi Hle) as [[Hn _]|[_ Hb]];
    [congruence | assumption].
Qed.

(** Clamping between two single-precision numbers keeps the values of a
    tensor single-precision numbers. *)
Lemma clamp_valid (lo hi : float32) (x : Tensor) :
  F32.valid lo = true -> F32.valid hi = true ->
  Forall (fun v => F32.valid v = true) (values x) ->
  Forall (fun v => F32.valid v = true) (values (clamp lo hi x)).
Proof.
  intros Hlo Hhi Hx. unfold clamp. cbn [values].
  apply Forall_map. revert Hx. apply Forall_impl. intros v Hv.
  unfold F32.min, F32.max.
  repeat match goal with
         | |- context [if ?b then _ else _] => destruct b
         end; assumption.
Qed.

(** The bounds of [to_img] are single-precision numbers, in order. *)
Lemma unit_bounds :
  F32.valid (F32.of_int (-1)) = true /\ F32.valid (F32.of_int 1) = true
  /\ F32.leb (F32.of_int (-1)) (F32.of_int 1) = true.
Proof. repeat split. Qed.

(** ** Shapes through the layers *)

Lemma broadcast_same (s : Shape) : broadcast s s = Ok s.
Proof.
  destruct s as [[[a b] c] d]. unfold broadcast, broadcast_dim.
  now rewrite !Z.eqb_refl.
Qed.

Lemma add_shape (K : Kernels) (x y : Tensor) (s : Shape) :
  shape x = s -> shape y = s -> returns_shape (add K x y) s.
Proof.
  intros Hx Hy. unfold add. rewrite Hx, Hy, broadcast_same. simpl.
  now apply returns_shape_Ok.
Qed.

Lemma swish_shape (K : Kernels) (x : Tensor) (s : Shape) :
  shape x = s -> returns_shape (swish K x) s.
Proof.
  intros Hx. unfold swish, mul, sigmoid. simpl.
  rewrite Hx, broadcast_same. simpl. now apply returns_shape_Ok.
Qed.

Lemma Conv2d_forward_shape (K : Kernels) (c : Conv2d.t) (x : Tensor)
  (B H W : Z) :
  shape x = (B, Conv2d.in_channels c, H, W) ->
  Conv2d.in_channels c <> 0 -> Conv2d.out_channels c <> 0 ->
  Conv2d.kernel_size c <= H + 2 * Conv2d.padding c ->
  Conv2d.kernel_size c <= W + 2 * Conv2d.padding c ->
  returns_shape (Conv2d.forward K c x)
    (B, Conv2d.out_channels c, Conv2d.out_size c H, Conv2d.out_size c W).
Proof.
  intros Hs Hi Ho HH HW. unfold Conv2d.forward. rewrite Hs.
  rewrite Z.eqb_refl. cbn [negb].
  replace (Conv2d.in_channels c =? 0) with false
    by (symmetry; now apply Z.eqb_neq).
  replace (Conv2d.out_channels c =? 0) with false
    by (symmetry; now apply Z.eqb_neq).
  replace (H + 2 * Conv2d.padding c <? Conv2d.kernel_size c) with false
    by (symmetry; apply Z.ltb_ge; lia).
  replace (W + 2 * Conv2d.padding c <? Conv2d.kernel_size c) with false
    by (symmetry; apply Z.ltb_ge; lia).
  cbn [orb]. now apply returns_shape_Ok.
Qed.

(** A 3x3 convolution of stride 1 and padding 1, and a 1x1 convolution,
    keep the spatial size. *)
Lemma conv3x3_shape (K : Kernels) (cin cout : Z) (x : Tensor) (B H W : Z) :
  shape x = (B, cin, H, W) -> cin <> 0 -> cout <> 0 -> 1 <= H -> 1 <= W ->
  returns_shape (Conv2d.forward K (Conv2d.mk cin cout 3 1 1) x) (B, cout, H, W).
Proof.
  intros Hs Hi Ho HH HW.
  pose proof (Conv2d_forward_shape K (Conv2d.mk cin cout 3 1 1) x B H W Hs) as P.
  unfold Conv2d.out_size in P. cbn [Conv2d.kernel_size Conv2d.padding
    Conv2d.stride Conv2d.out_channels Conv2d.in_channels] in P.
  rewrite !Z.div_1_r in P.
  replace (H + 2 * 1 - 3 + 1) with H in P by lia.
  replace (W + 2 * 1 - 3 + 1) with W in P by lia.
  apply P; lia.
Qed.

Lemma conv1x1_shape (K : Kernels) (cin cout : Z) (x : Tensor) (B H W : Z) :
  shape x = (B, cin, H, W) -> cin <> 0 -> cout <> 0 -> 1 <= H -> 1 <= W ->
  returns_shape (Conv2d.forward K (Conv2d.mk cin cout 1 1 0) x) (B, cout, H, W).
Proof.
  intros Hs Hi Ho HH HW.
  pose proof (Conv2d_forward_shape K (Conv2d.mk cin cout 1 1 0) x B H W Hs) as P.
  unfold Conv2d.out_size in P. cbn [Conv2d.kernel_size Conv2d.padding
    Conv2d.stride Conv2d.out_channels Conv2d.in_channels] in P.
  rewrite !Z.div_1_r in P.
  replace (H + 2 * 0 - 1 + 1) with H in P by lia.
  replace (W + 2 * 0 - 1 + 1) with W in P by lia.
  apply P; lia.
Qed.

(** ** The count that a normalization checks *)

(** For a width that 32 divides, the count is the product of the batch,
    the channels of a group, the height and the width. *)
Lemma group_count (B C H W : Z) :
  width_ok C -> B * C / 32 * H * W = B * (C / 32) * H * W /\ 1 <= C / 32.
Proof.
  intros [Hpos Hmod].
  assert (HC : C = 32 * (C / 32)) by (apply Z_div_exact_full_2; lia).
  split; [|lia].
  rewrite HC at 1. replace (B * (32 * (C / 32))) with (B * (C / 32) * 32) by ring.
  now rewrite Z.div_mul by lia.
Qed.

(** The count is 1 for a single image of one pixel and 32 channels, and
    for no other feature map. *)
Lemma normalizable_iff (B C H W : Z) :
  width_ok C -> 1 <= H -> 1 <= W ->
  (normalizable B C H W <-> ~ (B = 1 /\ C = 32 /\ H = 1 /\ W = 1)).
Proof.
  intros HC HH HW. unfold normalizable.
  destruct (group_count B C H W HC) as [-> Hk].
  pose proof HC as [Hpos Hmod].
  assert (EC : C = 32 * (C / 32)) by (apply Z_div_exact_full_2; lia).
  set (k := C / 32) in *. split.
  - intros Hn (-> & E & -> & ->). apply Hn.
    assert (k = 1) by lia. subst k. lia.
  - intros Hn E. apply Hn.
    assert (E1 : W = 1).
    { destruct (Z.eq_mul_1_nonneg' (B * k * H) W) as [_ ?]; lia. }
    rewrite E1, Z.mul_1_r in E.
    assert (E2 : H = 1).
    { destruct (Z.eq_mul_1_nonneg' (B * k) H) as [_ ?]; lia. }
    rewrite E2, Z.mul_1_r in E.
    assert (E3 : k = 1).
    { destruct (Z.eq_mul_1_nonneg' B k) as [_ ?]; lia. }
    rewrite E3, Z.mul_1_r in E. lia.
Qed.

(** A feature map with more than one pixel, or more than one image, has
    more than one value per group. *)
Lemma normalizable_big (B C H W : Z) :
  width_ok C -> 1 <= H -> 1 <= W -> 2 <= H \/ 2 <= W ->
  normalizable B C H W.
Proof.
  intros HC HH HW Hbig. apply normalizable_iff; auto. lia.
Qed.


Lemma GroupNorm_forward_shape (K : Kernels) (C : Z) (x : Tensor) (B H W : Z) :
  shape x = (B, C, H, W) -> width_ok C -> normalizable B C H W ->
  returns_shape (GroupNorm.forward K (GroupNorm.mk 32 C eps_1e_6) x) (B, C, H, W).
Proof.
  intros Hs [HC _] Hn. unfold GroupNorm.forward. rewrite Hs.
  cbn [GroupNorm.num_groups GroupNorm.num_channels].
  replace (B * C / 32 * H * W =? 1) with false
    by (symmetry; now apply Z.eqb_neq).
  rewrite Z.eqb_refl. cbn [negb].
  replace (C =? 0) with false by (symmetry; apply Z.eqb_neq; lia).
  now apply returns_shape_Ok.
Qed.

(** ** The constructors of the blocks *)

Lemma GroupNorm_init_ok (c : Z) :
  width_ok c -> GroupNorm.init 32 c eps_1e_6 = Ok (GroupNorm.mk 32 c eps_1e_6).
Proof.
  intros [Hpos Hmod]. unfold GroupNorm.init. rewrite Hmod. cbn [Z.eqb negb].
  now replace (c <? 0) with false by (symmetry; apply Z.ltb_ge; lia).
Qed.

Lemma Conv2d_init_ok (cin cout k s p : Z) :
  0 <= cin -> 0 <= cout ->
  Conv2d.init cin cout k s p = Ok (Conv2d.mk cin cout k s p).
Proof.
  intros Hi Ho. unfold Conv2d.init.
  replace (cin <? 0) with false by (symmetry; apply Z.ltb_ge; lia).
  now replace (cout <? 0) with false by (symmetry; apply Z.ltb_ge; lia).
Qed.

Lemma ResnetBlock_init_ok (cin cout : Z) :
  width_ok cin -> width_ok cout ->
  ResnetBlock.init cin (Some cout) = Ok (resnet_block cin cout).
Proof.
  intros Hi Ho. unfold ResnetBlock.init, resnet_block.
  pose proof Hi as [Hi0 _]. pose proof Ho as [Ho0 _].
  rewrite (GroupNorm_init_ok cin Hi). cbn [bind].
  rewrite Conv2d_init_ok by lia. cbn [bind].
  rewrite (GroupNorm_init_ok cout Ho). cbn [bind].
  rewrite Conv2d_init_ok by lia. cbn [bind].
  destruct (cin =? cout); cbn [negb]; [reflexivity|].
  now rewrite Conv2d_init_ok by lia.
Qed.

Lemma AttnBlock_init_ok (c : Z) :
  width_ok c -> AttnBlock.init c = Ok (attn_block c).
Proof.
  intros Hc. unfold AttnBlock.init, attn_block.
  rewrite (GroupNorm_init_ok c Hc). destruct Hc as [Hc _]. cbn [bind].
  now rewrite Conv2d_init_ok by lia.
Qed.

Lemma Mid_init_ok (c : Z) :
  width_ok c -> Mid.init c = Ok (mid_block c).
Proof.
  intros Hc. unfold Mid.init, mid_block.
  rewrite (ResnetBlock_init_ok c c Hc Hc). cbn [bind].
  now rewrite (AttnBlock_init_ok c Hc).
Qed.

(** ** Shapes through the blocks *)

(** One statement of a [forward]: the call returns a tensor of a known
    shape, with which the rest goes on. *)
Ltac shape_step lem :=
  eapply returns_shape_bind;
  [ eapply lem; [(eassumption || reflexivity) | ..]; (assumption || lia) | ].

Lemma ResnetBlock_forward_shape (K : Kernels) (cin cout : Z) (x : Tensor)
  (B H W : Z) :
  shape x = (B, cin, H, W) -> width_ok cin -> width_ok cout ->
  1 <= H -> 1 <= W ->
  normalizable B cin H W -> normalizable B cout H W ->
  returns_shape (ResnetBlock.forward K (resnet_block cin cout) x) (B, cout, H, W).
Proof.
  intros Hs Hi Ho HH HW Hni Hno.
  pose proof Hi as [Hi0 _]. pose proof Ho as [Ho0 _].
  unfold ResnetBlock.forward, resnet_block.
  cbn [ResnetBlock.norm1 ResnetBlock.conv1 ResnetBlock.norm2 ResnetBlock.conv2
       ResnetBlock.nin_shortcut ResnetBlock.in_channels ResnetBlock.out_channels].
  shape_step GroupNorm_forward_shape.
  intros h1 H1.
  shape_step swish_shape. intros h2 H2.
  shape_step conv3x3_shape. intros h3 H3.
  shape_step GroupNorm_forward_shape.
  intros h4 H4.
  shape_step swish_shape. intros h5 H5.
  shape_step conv3x3_shape. intros h6 H6.
  destruct (cin =? cout) eqn:E; cbn [negb getattr bind].
  - apply Z.eqb_eq in E. subst cout. now apply add_shape.
  - shape_step conv1x1_shape.
    intros h7 H7. now apply add_shape.
Qed.

Lemma AttnBlock_forward_shape (K : Kernels) (c : Z) (x : Tensor) (B H W : Z) :
  shape x = (B, c, H, W) -> width_ok c -> 1 <= H -> 1 <= W ->
  normalizable B c H W ->
  returns_shape (AttnBlock.forward K (attn_block c) x) (B, c, H, W).
Proof.
  intros Hs Hc HH HW Hn. pose proof Hc as [Hc0 _].
  unfold AttnBlock.forward, attn_block.
  cbn [AttnBlock.norm AttnBlock.q AttnBlock.k AttnBlock.v AttnBlock.proj_out].
  shape_step GroupNorm_forward_shape.
  intros xn Hxn.
  shape_step conv1x1_shape. intros q Hq.
  shape_step conv1x1_shape. intros k Hk.
  shape_step conv1x1_shape. intros v Hv.
  rewrite Hxn.
  unfold scaled_dot_product_attention, rearrange_to_seq. rewrite Hq, Hk, Hv.
  cbn [shape]. rewrite !Z.eqb_refl. cbn [andb bind].
  unfold rearrange_from_seq. cbn [shape]. rewrite !Z.eqb_refl. cbn [andb bind].
  shape_step conv1x1_shape. intros p Hp.
  now apply add_shape.
Qed.

Lemma Mid_forward_shape (K : Kernels) (c : Z) (x : Tensor) (B H W : Z) :
  shape x = (B, c, H, W) -> width_ok c -> 1 <= H -> 1 <= W ->
  normalizable B c H W ->
  returns_shape (Mid.forward K (mid_block c) x) (B, c, H, W).
Proof.
  intros Hs Hc HH HW Hn. unfold Mid.forward, mid_block.
  cbn [Mid.block_1 Mid.attn_1 Mid.block_2].
  shape_step ResnetBlock_forward_shape.
  intros h1 H1.
  shape_step AttnBlock_forward_shape.
  intros h2 H2.
  now apply ResnetBlock_forward_shape.
Qed.

(** Padding by one on the right and at the bottom and convolving with a
    3x3 kernel of stride 2 halves a spatial size, rounding down. *)
Lemma Downsample_forward_shape (K : Kernels) (c : Z) (x : Tensor) (B H W : Z) :
  shape x = (B, c, H, W) -> c <> 0 -> 2 <= H -> 2 <= W ->
  returns_shape (Downsample.forward K (Downsample.mk (Conv2d.mk c c 3 2 0)) x)
    (B, c, H / 2, W / 2).
Proof.
  intros Hs Hc HH HW. unfold Downsample.forward. cbn [Downsample.conv].
  assert (Hp : shape (pad_0101 K x) = (B, c, H + 1, W + 1))
    by (unfold pad_0101; now rewrite Hs).
  pose proof (Conv2d_forward_shape K (Conv2d.mk c c 3 2 0) _ B (H + 1) (W + 1) Hp)
    as P.
  unfold Conv2d.out_size in P. cbn [Conv2d.kernel_size Conv2d.padding
    Conv2d.stride Conv2d.out_channels Conv2d.in_channels] in P.
  replace ((H + 1 + 2 * 0 - 3) / 2 + 1) with (H / 2) in P.
  2:{ replace (H + 1 + 2 * 0 - 3) with (H + (-1) * 2) by lia.
      rewrite Z.div_add by lia. lia. }
  replace ((W + 1 + 2 * 0 - 3) / 2 + 1) with (W / 2) in P.
  2:{ replace (W + 1 + 2 * 0 - 3) with (W + (-1) * 2) by lia.
      rewrite Z.div_add by lia. lia. }
  apply P; lia.
Qed.

Lemma Upsample_forward_shape (K : Kernels) (c : Z) (x : Tensor) (B H W : Z) :
  shape x = (B, c, H, W) -> c <> 0 -> 1 <= H -> 1 <= W ->
  returns_shape (Upsample.forward K (Upsample.mk (Conv2d.mk c c 3 1 1)) x)
    (B, c, 2 * H, 2 * W).
Proof.
  intros Hs Hc HH HW. unfold Upsample.forward. cbn [Upsample.conv].
  apply conv3x3_shape; [|lia..].
  unfold interpolate_nearest_2. now rewrite Hs.
Qed.

(** ** The levels *)

Lemma length_resnet_blocks (n : nat) (cin cout : Z) :
  length (resnet_blocks n cin cout) = n.
Proof.
  revert cin. induction n as [|n IH]; intros cin; simpl; [reflexivity|].
  now rewrite IH.
Qed.

Lemma nth_resnet_blocks (n j : nat) (cin cout : Z) (d : ResnetBlock.t) :
  (j < n)%nat ->
  nth j (resnet_blocks n cin cout) d
  = resnet_block (if (j =? 0)%nat then cin else cout) cout.
Proof.
  revert j cin. induction n as [|n IH]; intros j cin Hj; [lia|].
  destruct j as [|j]; simpl; [reflexivity|].
  rewrite IH by lia. now destruct (j =? 0)%nat.
Qed.

Lemma index_map_seq {A : Type} (f : nat -> A) (n i : nat) :
  (i < n)%nat -> index (map f (seq 0 n)) (Z.of_nat i) = Ok (f i).
Proof.
  intros Hi. rewrite (index_nth _ _ (f O)) by (now rewrite length_map, length_seq).
  now rewrite map_nth, seq_nth.
Qed.

(** The loop that appends the blocks of a level. *)
Lemma append_loop_ok {A : Type} (xs : list A) (cout : Z)
  (block : list ResnetBlock.t) (cin : Z) :
  (xs <> [] -> width_ok cin) -> width_ok cout ->
  for_ xs
    (fun _ '(block, block_in) =>
       b <- ResnetBlock.init block_in (Some cout) ;;
       Ok (block ++ [b], cout))
    (block, cin)
  = Ok (block ++ resnet_blocks (length xs) cin cout,
        match xs with [] => cin | _ => cout end).
Proof.
  intros Hin Hout. revert block cin Hin.
  induction xs as [|x xs IH]; intros block cin Hin; simpl.
  - now rewrite app_nil_r.
  - rewrite ResnetBlock_init_ok by (auto; apply Hin; discriminate).
    cbn [bind]. rewrite IH by auto. rewrite <- app_assoc. simpl.
    now destruct xs.
Qed.

Lemma append_blocks_ok (n : nat) (cout : Z) (block : list ResnetBlock.t)
  (cin : Z) :
  (0 < n)%nat -> width_ok cin -> width_ok cout ->
  append_blocks (Z.of_nat n) cout (block, cin)
  = Ok (block ++ resnet_blocks n cin cout, cout).
Proof.
  intros Hn Hin Hout. unfold append_blocks, range. rewrite Nat2Z.id.
  rewrite append_loop_ok by auto.
  rewrite length_map, length_seq.
  destruct n as [|n]; [lia|]. reflexivity.
Qed.

(** The blocks of a level in [forward]: the input has the channels that
    enter the level, the output those that leave it. *)
Lemma run_blocks_shape {R : Type} (K : Kernels) (levels : list (Level.t R))
  (i : Z) (lvl : Level.t R) (n : nat) (cin cout : Z) (x : Tensor) (B H W : Z) :
  index levels i = Ok lvl ->
  Level.block lvl = resnet_blocks n cin cout ->
  Level.attn lvl = [] ->
  (0 < n)%nat -> width_ok cin -> width_ok cout -> 1 <= H -> 1 <= W ->
  normalizable B cin H W -> normalizable B cout H W ->
  shape x = (B, cin, H, W) ->
  returns_shape (run_blocks K levels i (Z.of_nat n) x) (B, cout, H, W).
Proof.
  intros Hlvl Hblock Hattn Hn Hin Hout HH HW Hni Hno Hx. unfold run_blocks.
  destruct (for_range_inv
    (fun i_block h =>
       lvl <- index levels i ;;
       b <- index (Level.block lvl) i_block ;;
       h <- ResnetBlock.forward K b h ;;
       lvl <- index levels i ;;
       if 0 <? len (Level.attn lvl) then
         lvl <- index levels i ;;
         a <- index (Level.attn lvl) i_block ;;
         AttnBlock.forward K a h
       else Ok h)
    (fun j h => shape h = (B, (if (j =? 0)%nat then cin else cout), H, W))
    n x Hx) as (y & Hy & Hshape).
  - intros j h Hj Hh. rewrite Hlvl. cbn [bind]. rewrite Hblock, Hattn.
    rewrite (index_nth _ _ (resnet_block cin cout))
      by (now rewrite length_resnet_blocks).
    cbn [bind]. rewrite nth_resnet_blocks by assumption.
    destruct (ResnetBlock_forward_shape K
                (if (j =? 0)%nat then cin else cout) cout h B H W Hh)
      as (h' & -> & Hh'); try assumption; try (now destruct (j =? 0)%nat).
    cbn. now exists h'.
  - exists y. split; [assumption|]. rewrite Hshape.
    destruct n; [lia | reflexivity].
Qed.

Lemma range_nonpos (n : Z) : n <= 0 -> range n = [].
Proof.
  intros Hn. unfold range. now replace (Z.to_nat n) with O by lia.
Qed.

(** A level without blocks: the loop over its blocks does nothing. *)
Lemma run_blocks_none {R : Type} (K : Kernels) (levels : list (Level.t R))
  (i n : Z) (h : Tensor) :
  n <= 0 -> run_blocks K levels i n h = Ok h.
Proof.
  intros Hn. unfold run_blocks. now rewrite range_nonpos.
Qed.

Lemma append_blocks_none (n cout : Z) (st : list ResnetBlock.t * Z) :
  n <= 0 -> append_blocks n cout st = Ok st.
Proof.
  intros Hn. unfold append_blocks. now rewrite range_nonpos.
Qed.

(** ** The Encoder *)

Lemma last_level_test (i : nat) (l : list Z) :
  (Z.of_nat i =? len l - 1) = (S i =? length l)%nat.
Proof.
  unfold len.
  destruct (Z.eqb_spec (Z.of_nat i) (Z.of_nat (length l) - 1));
    destruct (Nat.eqb_spec (S i) (length l)); auto; lia.
Qed.

Lemma Downsample_init_ok (c : Z) :
  0 <= c -> Downsample.init c = Ok (Downsample.mk (Conv2d.mk c c 3 2 0)).
Proof.
  intros Hc. unfold Downsample.init. now rewrite Conv2d_init_ok by lia.
Qed.

Lemma Upsample_init_ok (c : Z) :
  0 <= c -> Upsample.init c = Ok (Upsample.mk (Conv2d.mk c c 3 1 1)).
Proof.
  intros Hc. unfold Upsample.init. now rewrite Conv2d_init_ok by lia.
Qed.

Section Widths.

Variables (ch : Z) (ch_mult : list Z).
Hypothesis Hch : width_ok ch.
Hypothesis Hmult : Forall (fun m => width_ok (ch * m)) ch_mult.

Lemma width_out_ok (i : nat) :
  (i < length ch_mult)%nat -> width_ok (width_out ch ch_mult i).
Proof.
  intros Hi. unfold width_out.
  now apply (proj1 (Forall_nth _ ch_mult) Hmult i 0).
Qed.

Lemma width_in_ok (i : nat) :
  (i <= length ch_mult)%nat -> width_ok (width_in ch ch_mult i).
Proof.
  intros Hi. unfold width_in. destruct i as [|i]; simpl.
  - now rewrite Z.mul_1_r.
  - apply width_out_ok. lia.
Qed.

Lemma width_last_ok : ch_mult <> [] -> width_ok (width_last ch ch_mult).
Proof.
  intros Hne. unfold width_last. apply width_out_ok.
  destruct ch_mult; [congruence | simpl; lia].
Qed.

Lemma width_in_S (i : nat) : width_in ch ch_mult (S i) = width_out ch ch_mult i.
Proof. reflexivity. Qed.

End Widths.

Section EncoderFacts.

Variables (resolution in_channels ch : Z) (ch_mult : list Z) (n : nat)
  (z_channels : Z).
Hypothesis Hn : (0 < n)%nat.
Hypothesis Hch : width_ok ch.
Hypothesis Hmult : Forall (fun m => width_ok (ch * m)) ch_mult.
Hypothesis Hne : ch_mult <> [].
Hypothesis Hin : 0 <= in_channels.
Hypothesis Hz : 0 <= z_channels.

Let L := length ch_mult.

Lemma Encoder_init_level_ok (i : nat) (bi cr : Z)
  (down : list (Level.t Downsample.t)) :
  (i < L)%nat ->
  Encoder.init_level ch ch_mult (1 :: ch_mult) (len ch_mult) (Z.of_nat n)
    (Z.of_nat i) (bi, cr, down)
  = Ok (width_out ch ch_mult i,
        (if (S i =? L)%nat then cr else cr / 2),
        down ++ [encoder_level ch ch_mult n i]).
Proof.
  intros Hi. unfold Encoder.init_level.
  rewrite (index_nth (1 :: ch_mult) i 0) by (simpl; fold L; lia). cbn [bind].
  rewrite (index_nth ch_mult i 0) by assumption. cbn [bind].
  fold (width_in ch ch_mult i). fold (width_out ch ch_mult i).
  rewrite append_blocks_ok;
    [ | assumption | apply width_in_ok; auto; fold L; lia
      | apply width_out_ok; auto ].
  cbn [bind app]. rewrite last_level_test. fold L.
  unfold encoder_level. fold L.
  destruct (S i =? L)%nat; cbn [negb]; [reflexivity|].
  rewrite Downsample_init_ok; [reflexivity|].
  pose proof (width_out_ok ch ch_mult Hmult i Hi) as [Hp _]. lia.
Qed.

Lemma Encoder_init_ok :
  Encoder.init resolution in_channels ch ch_mult (Z.of_nat n) z_channels
  = Ok (built_encoder resolution in_channels ch ch_mult (Z.of_nat n) z_channels).
Proof.
  unfold Encoder.init. pose proof Hch as [Hch0 _].
  rewrite Conv2d_init_ok by lia. cbn [bind]. cbv zeta.
  destruct (for_range_inv
    (Encoder.init_level ch ch_mult (1 :: ch_mult) (len ch_mult) (Z.of_nat n))
    (fun i st =>
       fst (fst st) = (match i with O => ch | S j => width_out ch ch_mult j end)
       /\ snd st = map (encoder_level ch ch_mult n) (seq 0 i))
    L (ch, resolution, [])) as ([[bi cr] down] & Hloop & Hbi & Hdown).
  - now split.
  - intros i [[bi cr] down] Hi [_ Hd]. cbn [fst snd] in Hd. subst down.
    rewrite Encoder_init_level_ok by assumption.
    eexists. split; [reflexivity|]. cbn [fst snd]. split; [reflexivity|].
    now rewrite seq_S, map_app.
  - change (Z.of_nat L) with (len ch_mult) in Hloop.
    rewrite Hloop. cbn [bind fst snd] in *.
    assert (HL : L <> O) by (unfold L; destruct ch_mult; simpl; congruence).
    destruct L as [|L'] eqn:EL; [congruence|].
    assert (Hb : bi = width_last ch ch_mult).
    { rewrite Hbi. unfold width_last. fold L. rewrite EL.
      f_equal. lia. }
    subst down. rewrite Hb. clear Hb Hbi.
    pose proof (width_last_ok ch ch_mult Hmult Hne) as Hw.
    rewrite Mid_init_ok by assumption. cbn [bind].
    rewrite GroupNorm_init_ok by assumption. cbn [bind].
    destruct Hw as [Hw0 _].
    rewrite Conv2d_init_ok by lia. cbn [bind].
    unfold built_encoder, len. fold L. rewrite EL, Nat2Z.id. reflexivity.
Qed.

End EncoderFacts.

(** The Encoder without blocks: with [num_res_blocks <= 0] and every
    multiplier but the last equal to 1, every level is built on [ch]
    channels. *)
Section BlocklessEncoderFacts.

Variables (resolution in_channels ch : Z) (ch_mult : list Z)
  (num_res_blocks z_channels : Z).
Hypothesis Hn : num_res_blocks <= 0.
Hypothesis Hch : width_ok ch.
Hypothesis Hones : ones_before_last ch_mult.
Hypothesis Hin : 0 <= in_channels.
Hypothesis Hz : 0 <= z_channels.

Let L := length ch_mult.

Lemma in_ch_mult_one (i : nat) : (i < L)%nat -> nth i (1 :: ch_mult) 0 = 1.
Proof.
  intros Hi. destruct i as [|j]; [reflexivity|]. simpl. apply Hones.
  fold L. lia.
Qed.

Lemma blockless_Encoder_init_level_ok (i : nat) (bi cr : Z)
  (down : list (Level.t Downsample.t)) :
  (i < L)%nat ->
  Encoder.init_level ch ch_mult (1 :: ch_mult) (len ch_mult) num_res_blocks
    (Z.of_nat i) (bi, cr, down)
  = Ok (ch,
        (if (S i =? L)%nat then cr else cr / 2),
        down ++ [Level.mk [] []
                   (if (S i =? L)%nat then None
                    else Some (Downsample.mk (Conv2d.mk ch ch 3 2 0)))]).
Proof.
  intros Hi. pose proof Hch as [Hch0 _]. unfold Encoder.init_level.
  rewrite (index_nth (1 :: ch_mult) i 0) by (simpl; fold L; lia). cbn [bind].
  rewrite (index_nth ch_mult i 0) by assumption. cbn [bind].
  rewrite in_ch_mult_one by assumption. rewrite Z.mul_1_r.
  rewrite append_blocks_none by assumption.
  cbn [bind]. rewrite last_level_test. fold L.
  destruct (S i =? L)%nat; cbn [negb]; [reflexivity|].
  rewrite Downsample_init_ok by lia. reflexivity.
Qed.

Lemma blockless_Encoder_init_ok :
  Encoder.init resolution in_channels ch ch_mult num_res_blocks z_channels
  = Ok (blockless_encoder resolution in_channels ch ch_mult num_res_blocks
          z_channels).
Proof.
  unfold Encoder.init. pose proof Hch as [Hch0 _].
  rewrite Conv2d_init_ok by lia. cbn [bind]. cbv zeta.
  destruct (for_range_inv
    (Encoder.init_level ch ch_mult (1 :: ch_mult) (len ch_mult) num_res_blocks)
    (fun i st =>
       fst (fst st) = ch
       /\ snd st
          = map (fun i =>
                   Level.mk [] []
                     (if (S i =? L)%nat then None
                      else Some (Downsample.mk (Conv2d.mk ch ch 3 2 0))))
              (seq 0 i))
    L (ch, resolution, [])) as ([[bi cr] down] & Hloop & Hbi & Hdown).
  - now split.
  - intros i [[bi cr] down] Hi [_ Hd]. cbn [fst snd] in Hd. subst down.
    rewrite blockless_Encoder_init_level_ok by assumption.
    eexists. split; [reflexivity|]. cbn [fst snd]. split; [reflexivity|].
    now rewrite seq_S, map_app.
  - change (Z.of_nat L) with (len ch_mult) in Hloop.
    rewrite Hloop. cbn [bind fst snd] in *. subst bi down.
    rewrite Mid_init_ok by assumption. cbn [bind].
    rewrite GroupNorm_init_ok by assumption. cbn [bind].
    rewrite Conv2d_init_ok by lia. cbn [bind].
    reflexivity.
Qed.

End BlocklessEncoderFacts.

(** ** Images of any size *)

Lemma pow2_pos (k : nat) : 0 < 2 ^ Z.of_nat k.
Proof. apply Z.pow_pos_nonneg; lia. Qed.

Lemma pow2_mono (j k : nat) : (j <= k)%nat -> 2 ^ Z.of_nat j <= 2 ^ Z.of_nat k.
Proof. intros H. apply Z.pow_le_mono_r; lia. Qed.

Lemma halved_size_ge (L : nat) (N : Z) (i : nat) :
  0 <= N -> N / 2 ^ Z.of_nat (L - 1) <= N / 2 ^ halvings L i.
Proof.
  intros HN. unfold halvings. apply Z.div_le_compat_l; [assumption|].
  split; [apply pow2_pos | apply pow2_mono; lia].
Qed.

Lemma halved_size_step (L : nat) (N : Z) (i : nat) :
  2 ^ Z.of_nat (L - 1) <= N -> (S i < L)%nat ->
  2 <= N / 2 ^ halvings L i
  /\ N / 2 ^ halvings L i / 2 = N / 2 ^ halvings L (S i).
Proof.
  intros HN Hi. unfold halvings.
  replace (Nat.min i (L - 1)) with i by lia.
  replace (Nat.min (S i) (L - 1)) with (S i) by lia.
  pose proof (pow2_pos i) as Hp.
  pose proof (pow2_mono (S i) (L - 1) ltac:(lia)) as Hm.
  rewrite Nat2Z.inj_succ, Z.pow_succ_r in * by lia.
  split.
  - apply Z.div_le_lower_bound; lia.
  - rewrite Z.div_div by lia. f_equal. ring.
Qed.

Lemma halved_size_pos (L : nat) (N : Z) (i : nat) :
  2 ^ Z.of_nat (L - 1) <= N -> 1 <= N / 2 ^ halvings L i.
Proof.
  intros HN. pose proof (pow2_pos (L - 1)) as Hp.
  assert (1 <= N / 2 ^ Z.of_nat (L - 1))
    by (apply Z.div_le_lower_bound; lia).
  pose proof (halved_size_ge L N i ltac:(lia)). lia.
Qed.

Lemma halvings_last (L i : nat) :
  (S i = L)%nat -> halvings L i = Z.of_nat (L - 1)
                   /\ halvings L (S i) = Z.of_nat (L - 1).
Proof. intros Hi. unfold halvings. split; f_equal; lia. Qed.

(** The Encoder with blocks in its levels. *)
Section EncoderAnyImage.

Variables (K : Kernels) (r in_channels ch : Z) (ch_mult : list Z) (n : nat)
  (z_channels B H W : Z).
Hypothesis Hn : (0 < n)%nat.
Hypothesis Hch : width_ok ch.
Hypothesis Hmult : Forall (fun m => width_ok (ch * m)) ch_mult.
Hypothesis Hne : ch_mult <> [].
Hypothesis Hin : 0 < in_channels.
Hypothesis Hz : 0 < z_channels.

Let L := length ch_mult.

Let E : Encoder.t :=
  built_encoder r in_channels ch ch_mult (Z.of_nat n) z_channels.

Hypothesis HH : 2 ^ Z.of_nat (L - 1) <= H.
Hypothesis HW : 2 ^ Z.of_nat (L - 1) <= W.
Hypothesis Hnorm_in :
  normalizable B (width_in ch ch_mult (L - 1))
    (H / 2 ^ Z.of_nat (L - 1)) (W / 2 ^ Z.of_nat (L - 1)).
Hypothesis Hnorm_last :
  normalizable B (width_last ch ch_mult)
    (H / 2 ^ Z.of_nat (L - 1)) (W / 2 ^ Z.of_nat (L - 1)).

Lemma Encoder_level_any_size (i : nat) (h : Tensor) (Hi' Wi' : Z) :
  (i < L)%nat ->
  shape h = (B, width_in ch ch_mult i, Hi', Wi') ->
  1 <= Hi' -> 1 <= Wi' ->
  normalizable B (width_in ch ch_mult i) Hi' Wi' ->
  normalizable B (width_out ch ch_mult i) Hi' Wi' ->
  ((S i < L)%nat -> 2 <= Hi' /\ 2 <= Wi') ->
  returns_shape (Encoder.forward_level K E (Z.of_nat i) h)
    (B, width_in ch ch_mult (S i),
     (if (S i =? L)%nat then Hi' else Hi' / 2),
     (if (S i =? L)%nat then Wi' else Wi' / 2)).
Proof.
  intros Hi Hh H1 W1 Hni Hno Hbig. unfold Encoder.forward_level, E, built_encoder.
  cbn [Encoder.down Encoder.num_res_blocks Encoder.num_resolutions].
  rewrite Nat2Z.id, last_level_test. fold L.
  eapply returns_shape_bind.
  - eapply (run_blocks_shape K _ _ (encoder_level ch ch_mult n i) n
              (width_in ch ch_mult i) (width_out ch ch_mult i)).
    + now apply index_map_seq.
    + reflexivity.
    + reflexivity.
    + assumption.
    + apply width_in_ok; auto. fold L. lia.
    + apply width_out_ok; auto.
    + exact H1.
    + exact W1.
    + exact Hni.
    + exact Hno.
    + exact Hh.
  - intros y Hy. rewrite width_in_S.
    destruct (Nat.eqb_spec (S i) L) as [Hlast|Hlast]; cbn [negb].
    + now apply returns_shape_Ok.
    + rewrite index_map_seq by assumption. cbn [bind].
      unfold Level.downsample, encoder_level. cbn [Level.resample]. fold L.
      destruct (Nat.eqb_spec (S i) L) as [|_]; [contradiction|].
      cbn [getattr bind].
      destruct Hbig as [H2 W2]; [lia|].
      pose proof (width_out_ok ch ch_mult Hmult i Hi) as [Hp _].
      apply Downsample_forward_shape; (assumption || lia).
Qed.

Lemma Encoder_forward_any_size (x : Tensor) :
  shape x = (B, in_channels, H, W) ->
  returns_shape (Encoder.forward K E x)
    (B, z_channels, H / 2 ^ Z.of_nat (L - 1), W / 2 ^ Z.of_nat (L - 1)).
Proof.
  intros Hx. unfold Encoder.forward.
  pose proof (pow2_pos (L - 1)) as Hp. pose proof Hch as [Hch0 _].
  eapply returns_shape_bind.
  { unfold E, built_encoder. cbn [Encoder.conv_in].
    apply conv3x3_shape; [exact Hx | lia..]. }
  intros h0 Hh0.
  assert (HL : (0 < L)%nat)
    by (unfold L; destruct ch_mult; [congruence | simpl; lia]).
  destruct (for_range_inv (Encoder.forward_level K E)
    (fun i h => shape h = (B, width_in ch ch_mult i,
                           H / 2 ^ halvings L i, W / 2 ^ halvings L i))
    L h0) as (h1 & Hloop & Hh1).
  { rewrite Hh0. unfold width_in, halvings. simpl.
    now rewrite Z.mul_1_r, !Z.div_1_r. }
  { intros i t Hi Ht.
    pose proof (halved_size_pos L H i HH) as H1.
    pose proof (halved_size_pos L W i HW) as W1.
    assert (Hnorm : normalizable B (width_in ch ch_mult i)
                      (H / 2 ^ halvings L i) (W / 2 ^ halvings L i)
                    /\ normalizable B (width_out ch ch_mult i)
                         (H / 2 ^ halvings L i) (W / 2 ^ halvings L i)).
    { destruct (Nat.eq_dec (S i) L) as [Hlast|Hlast].
      - destruct (halvings_last L i Hlast) as [-> _].
        replace i with (L - 1)%nat at 1 by lia. split; [exact Hnorm_in|].
        replace i with (L - 1)%nat by lia. exact Hnorm_last.
      - destruct (halved_size_step L H i HH ltac:(lia)) as [H2 _].
        split; apply normalizable_big; auto;
          [apply width_in_ok; auto; fold L; lia | apply width_out_ok; auto]. }
    destruct Hnorm as [Hni Hno].
    destruct (Encoder_level_any_size i t _ _ Hi Ht H1 W1 Hni Hno)
      as (t' & Ht' & Hs).
    { intros Hlt. split; now apply halved_size_step. }
    exists t'. split; [assumption|]. rewrite Hs.
    destruct (Nat.eqb_spec (S i) L) as [Hlast|Hlast].
    - destruct (halvings_last L i Hlast) as [-> ->]. reflexivity.
    - destruct (halved_size_step L H i HH ltac:(lia)) as [_ ->].
      now destruct (halved_size_step L W i HW ltac:(lia)) as [_ ->]. }
  replace (range (Encoder.num_resolutions E)) with (range (Z.of_nat L))
    by reflexivity.
  rewrite Hloop. cbn [bind].
  assert (Hhalv : halvings L L = Z.of_nat (L - 1))
    by (unfold halvings; f_equal; lia).
  assert (Hw : width_in ch ch_mult L = width_last ch ch_mult).
  { unfold width_last. fold L. destruct L as [|L'] eqn:EL; [lia|].
    rewrite width_in_S. f_equal. lia. }
  rewrite Hhalv, Hw in Hh1.
  pose proof (width_last_ok ch ch_mult Hmult Hne) as Hwl.
  pose proof Hwl as [Hwl0 _].
  assert (H1 : 1 <= H / 2 ^ Z.of_nat (L - 1))
    by (apply Z.div_le_lower_bound; lia).
  assert (W1 : 1 <= W / 2 ^ Z.of_nat (L - 1))
    by (apply Z.div_le_lower_bound; lia).
  unfold E, built_encoder.
  cbn [Encoder.mid Encoder.norm_out Encoder.conv_out].
  shape_step Mid_forward_shape. intros h2 Hh2.
  shape_step GroupNorm_forward_shape. intros h3 Hh3.
  shape_step swish_shape. intros h4 Hh4.
  shape_step conv3x3_shape. intros h5 Hh5.
  now apply returns_shape_Ok.
Qed.

End EncoderAnyImage.

(** The Encoder without blocks. *)
Section BlocklessEncoderAnyImage.

Variables (K : Kernels) (r in_channels ch : Z) (ch_mult : list Z)
  (num_res_blocks z_channels B H W : Z).
Hypothesis Hn : num_res_blocks <= 0.
Hypothesis Hch : width_ok ch.
Hypothesis Hne : ch_mult <> [].
Hypothesis Hin : 0 < in_channels.
Hypothesis Hz : 0 < z_channels.

Let L := length ch_mult.

Let E : Encoder.t :=
  blockless_encoder r in_channels ch ch_mult num_res_blocks z_channels.

Hypothesis HH : 2 ^ Z.of_nat (L - 1) <= H.
Hypothesis HW : 2 ^ Z.of_nat (L - 1) <= W.
Hypothesis Hnorm :
  normalizable B ch (H / 2 ^ Z.of_nat (L - 1)) (W / 2 ^ Z.of_nat (L - 1)).

Lemma blockless_Encoder_level_any_size (i : nat) (h : Tensor) (Hi' Wi' : Z) :
  (i < L)%nat ->
  shape h = (B, ch, Hi', Wi') ->
  ((S i < L)%nat -> 2 <= Hi' /\ 2 <= Wi') ->
  returns_shape (Encoder.forward_level K E (Z.of_nat i) h)
    (B, ch,
     (if (S i =? L)%nat then Hi' else Hi' / 2),
     (if (S i =? L)%nat then Wi' else Wi' / 2)).
Proof.
  intros Hi Hh Hbig. pose proof Hch as [Hch0 _].
  unfold Encoder.forward_level, E, blockless_encoder.
  cbn [Encoder.down Encoder.num_res_blocks Encoder.num_resolutions].
  rewrite run_blocks_none by assumption. cbn [bind].
  rewrite last_level_test. fold L.
  destruct (Nat.eqb_spec (S i) L) as [Hlast|Hlast]; cbn [negb].
  - now apply returns_shape_Ok.
  - rewrite index_map_seq by assumption. cbn [bind].
    unfold Level.downsample. cbn [Level.resample]. fold L.
    destruct (Nat.eqb_spec (S i) L) as [|_]; [contradiction|].
    cbn [getattr bind].
    destruct Hbig as [H2 W2]; [lia|].
    apply Downsample_forward_shape; (assumption || lia).
Qed.

Lemma blockless_Encoder_forward_any_size (x : Tensor) :
  shape x = (B, in_channels, H, W) ->
  returns_shape (Encoder.forward K E x)
    (B, z_channels, H / 2 ^ Z.of_nat (L - 1), W / 2 ^ Z.of_nat (L - 1)).
Proof.
  intros Hx. unfold Encoder.forward.
  pose proof (pow2_pos (L - 1)) as Hp. pose proof Hch as [Hch0 _].
  eapply returns_shape_bind.
  { unfold E, blockless_encoder. cbn [Encoder.conv_in].
    apply conv3x3_shape; [exact Hx | lia..]. }
  intros h0 Hh0.
  assert (HL : (0 < L)%nat)
    by (unfold L; destruct ch_mult; [congruence | simpl; lia]).
  destruct (for_range_inv (Encoder.forward_level K E)
    (fun i h => shape h = (B, ch, H / 2 ^ halvings L i, W / 2 ^ halvings L i))
    L h0) as (h1 & Hloop & Hh1).
  { rewrite Hh0. unfold halvings. simpl. now rewrite !Z.div_1_r. }
  { intros i t Hi Ht.
    destruct (blockless_Encoder_level_any_size i t _ _ Hi Ht)
      as (t' & Ht' & Hs).
    { intros Hlt. split; now apply halved_size_step. }
    exists t'. split; [assumption|]. rewrite Hs.
    destruct (Nat.eqb_spec (S i) L) as [Hlast|Hlast].
    - destruct (halvings_last L i Hlast) as [-> ->]. reflexivity.
    - destruct (halved_size_step L H i HH ltac:(lia)) as [_ ->].
      now destruct (halved_size_step L W i HW ltac:(lia)) as [_ ->]. }
  replace (range (Encoder.num_resolutions E)) with (range (Z.of_nat L))
    by reflexivity.
  rewrite Hloop. cbn [bind].
  assert (Hhalv : halvings L L = Z.of_nat (L - 1))
    by (unfold halvings; f_equal; lia).
  rewrite Hhalv in Hh1.
  assert (H1 : 1 <= H / 2 ^ Z.of_nat (L - 1))
    by (apply Z.div_le_lower_bound; lia).
  assert (W1 : 1 <= W / 2 ^ Z.of_nat (L - 1))
    by (apply Z.div_le_lower_bound; lia).
  unfold E, blockless_encoder.
  cbn [Encoder.mid Encoder.norm_out Encoder.conv_out].
  shape_step Mid_forward_shape. intros h2 Hh2.
  shape_step GroupNorm_forward_shape. intros h3 Hh3.
  shape_step swish_shape. intros h4 Hh4.
  shape_step conv3x3_shape. intros h5 Hh5.
  now apply returns_shape_Ok.
Qed.

End BlocklessEncoderAnyImage.

(** ** The Decoder *)

Lemma first_level_test (i : nat) : (Z.of_nat i =? 0) = (i =? 0)%nat.
Proof.
  destruct (Z.eqb_spec (Z.of_nat i) 0); destruct (Nat.eqb_spec i 0);
    auto; lia.
Qed.

Section DecoderFacts.

Variables (ch out_ch : Z) (ch_mult : list Z) (n : nat)
  (in_channels resolution z_channels : Z).
Hypothesis Hmult : Forall (fun m => width_ok (ch * m)) ch_mult.
Hypothesis Hne : ch_mult <> [].
Hypothesis Hout : 0 <= out_ch.
Hypothesis Hz : 0 <= z_channels.

Let L := length ch_mult.

Lemma L_pos : (0 < L)%nat.
Proof. unfold L. destruct ch_mult; [congruence | simpl; lia]. Qed.

Lemma dec_width_in_ok (i : nat) : width_ok (dec_width_in ch ch_mult i).
Proof.
  unfold dec_width_in. apply width_out_ok; [assumption|].
  pose proof L_pos. fold L. lia.
Qed.

Lemma Decoder_init_level_ok (i : nat) (cr : Z) (up : list (Level.t Upsample.t)) :
  (i < L)%nat ->
  Decoder.init_level ch ch_mult (Z.of_nat n) (Z.of_nat i)
    (dec_width_in ch ch_mult i, cr, up)
  = Ok (width_out ch ch_mult i,
        (if (i =? 0)%nat then cr else cr * 2),
        decoder_level ch ch_mult (S n) i :: up).
Proof.
  intros Hi. unfold Decoder.init_level.
  rewrite (index_nth ch_mult i 0) by assumption. cbn [bind].
  fold (width_out ch ch_mult i).
  replace (Z.of_nat n + 1) with (Z.of_nat (S n)) by lia.
  rewrite append_blocks_ok;
    [ | lia | apply dec_width_in_ok | apply width_out_ok; auto ].
  cbn [bind app]. rewrite first_level_test. unfold decoder_level.
  destruct (i =? 0)%nat; cbn [negb]; [reflexivity|].
  rewrite Upsample_init_ok; [reflexivity|].
  pose proof (width_out_ok ch ch_mult Hmult i Hi) as [Hp _]. lia.
Qed.

Lemma Decoder_init_ok :
  Decoder.init ch out_ch ch_mult (Z.of_nat n) in_channels resolution z_channels
  = Ok (built_decoder ch out_ch ch_mult (Z.of_nat n) in_channels resolution
          z_channels).
Proof.
  pose proof L_pos as HL. unfold Decoder.init. cbv zeta.
  replace (len ch_mult - 1) with (Z.of_nat (L - 1)) by (unfold len; fold L; lia).
  rewrite (index_nth ch_mult (L - 1) 0) by (fold L; lia). cbn [bind].
  fold (width_out ch ch_mult (L - 1)).
  change (width_out ch ch_mult (L - 1)) with (width_last ch ch_mult).
  pose proof (width_last_ok ch ch_mult Hmult Hne) as Hw.
  pose proof Hw as [Hw0 _].
  rewrite Conv2d_init_ok by lia. cbn [bind].
  rewrite Mid_init_ok by assumption. cbn [bind].
  destruct (for_reversed_range_inv
    (Decoder.init_level ch ch_mult (Z.of_nat n))
    (fun j st =>
       fst (fst st) = width_out ch ch_mult (Nat.min j (L - 1))
       /\ snd st = map (decoder_level ch ch_mult (S n)) (seq j (L - j)))
    L (width_last ch ch_mult, resolution / 2 ^ Z.of_nat (L - 1), []))
    as ([[bi cr] up] & Hloop & Hbi & Hup).
  - cbn [fst snd]. split.
    + unfold width_last. fold L. f_equal. lia.
    + now rewrite Nat.sub_diag.
  - intros i [[bi cr] up] Hi [Hb Hu]. cbn [fst snd] in Hb, Hu. subst bi up.
    fold L. change (width_out ch ch_mult (Nat.min (S i) (L - 1)))
      with (dec_width_in ch ch_mult i).
    rewrite Decoder_init_level_ok by assumption.
    eexists. split; [reflexivity|]. cbn [fst snd]. split.
    + f_equal. lia.
    + replace (L - i)%nat with (S (L - S i)) by lia. reflexivity.
  - change (Z.of_nat L) with (len ch_mult) in Hloop. rewrite Hloop.
    cbn [bind fst snd] in *. subst bi up.
    rewrite Nat.min_0_l, Nat.sub_0_r.
    assert (H0 : width_ok (width_out ch ch_mult 0))
      by (apply width_out_ok; auto).
    rewrite GroupNorm_init_ok by assumption. cbn [bind].
    destruct H0 as [H0 _].
    rewrite Conv2d_init_ok by lia. cbn [bind].
    unfold built_decoder. cbv zeta.
    replace (len ch_mult - 1) with (Z.of_nat (L - 1))
      by (unfold len; fold L; lia).
    replace (Z.of_nat n + 1) with (Z.of_nat (S n)) by lia.
    rewrite Nat2Z.id. reflexivity.
Qed.

End DecoderFacts.

(** The Decoder without blocks: with [num_res_blocks + 1 <= 0] every
    level is built on the channels of the last one. *)
Section BlocklessDecoderFacts.

Variables (ch out_ch : Z) (ch_mult : list Z)
  (num_res_blocks in_channels resolution z_channels : Z).
Hypothesis Hn : num_res_blocks + 1 <= 0.
Hypothesis Hne : ch_mult <> [].
Hypothesis Hw : width_ok (width_last ch ch_mult).
Hypothesis Hout : 0 <= out_ch.
Hypothesis Hz : 0 <= z_channels.

Let L := length ch_mult.

Let w := width_last ch ch_mult.

Lemma blockless_Decoder_init_level_ok (i : nat) (cr : Z)
  (up : list (Level.t Upsample.t)) :
  (i < L)%nat ->
  Decoder.init_level ch ch_mult num_res_blocks (Z.of_nat i) (w, cr, up)
  = Ok (w,
        (if (i =? 0)%nat then cr else cr * 2),
        Level.mk [] []
          (if (i =? 0)%nat then None
           else Some (Upsample.mk (Conv2d.mk w w 3 1 1))) :: up).
Proof.
  intros Hi. pose proof Hw as [Hw0 _]. fold w in Hw0.
  unfold Decoder.init_level.
  rewrite (index_nth ch_mult i 0) by assumption. cbn [bind].
  rewrite append_blocks_none by assumption.
  cbn [bind]. rewrite first_level_test.
  destruct (i =? 0)%nat; cbn [negb]; [reflexivity|].
  rewrite Upsample_init_ok by lia. reflexivity.
Qed.

Lemma blockless_Decoder_init_ok :
  Decoder.init ch out_ch ch_mult num_res_blocks in_channels resolution
    z_channels
  = Ok (blockless_decoder ch out_ch ch_mult num_res_blocks in_channels
          resolution z_channels).
Proof.
  assert (HL : (0 < L)%nat)
    by (unfold L; destruct ch_mult; [congruence | simpl; lia]).
  unfold Decoder.init. cbv zeta.
  replace (len ch_mult - 1) with (Z.of_nat (L - 1)) by (unfold len; fold L; lia).
  rewrite (index_nth ch_mult (L - 1) 0) by (fold L; lia). cbn [bind].
  fold (width_out ch ch_mult (L - 1)).
  change (width_out ch ch_mult (L - 1)) with w.
  pose proof Hw as [Hw0 _]. fold w in Hw0.
  rewrite Conv2d_init_ok by lia. cbn [bind].
  rewrite Mid_init_ok by assumption. cbn [bind].
  destruct (for_reversed_range_inv
    (Decoder.init_level ch ch_mult num_res_blocks)
    (fun j st =>
       fst (fst st) = w
       /\ snd st
          = map (fun i =>
                   Level.mk [] []
                     (if (i =? 0)%nat then None
                      else Some (Upsample.mk (Conv2d.mk w w 3 1 1))))
              (seq j (L - j)))
    L (w, resolution / 2 ^ Z.of_nat (L - 1), []))
    as ([[bi cr] up] & Hloop & Hbi & Hup).
  - cbn [fst snd]. split; [reflexivity|]. now rewrite Nat.sub_diag.
  - intros i [[bi cr] up] Hi [Hb Hu]. cbn [fst snd] in Hb, Hu. subst bi up.
    rewrite blockless_Decoder_init_level_ok by assumption.
    eexists. split; [reflexivity|]. cbn [fst snd]. split; [reflexivity|].
    replace (L - i)%nat with (S (L - S i)) by lia. reflexivity.
  - change (Z.of_nat L) with (len ch_mult) in Hloop. rewrite Hloop.
    cbn [bind fst snd] in *. subst bi up.
    rewrite Nat.sub_0_r.
    rewrite GroupNorm_init_ok by assumption. cbn [bind].
    rewrite Conv2d_init_ok by lia. cbn [bind].
    unfold blockless_decoder. cbv zeta.
    replace (len ch_mult - 1) with (Z.of_nat (L - 1))
      by (unfold len; fold L; lia).
    reflexivity.
Qed.

End BlocklessDecoderFacts.

(** ** Latents of any size *)

Lemma doubled_size_ge (L : nat) (N : Z) (j : nat) :
  0 <= N -> N <= N * 2 ^ doublings L j.
Proof.
  intros HN. unfold doublings.
  pose proof (pow2_pos (Nat.min (L - j) (L - 1))). nia.
Qed.

Lemma doubled_size_step (L : nat) (N : Z) (i : nat) :
  (i < L)%nat -> (0 < i)%nat ->
  2 * (N * 2 ^ doublings L (S i)) = N * 2 ^ doublings L i.
Proof.
  intros Hi H0. unfold doublings.
  replace (Nat.min (L - i) (L - 1)) with (S (Nat.min (L - S i) (L - 1))) by lia.
  rewrite Nat2Z.inj_succ, Z.pow_succ_r by lia. ring.
Qed.

(** Once a level has doubled the size, the feature map has more than one
    pixel. *)
Lemma doubled_size_big (L : nat) (N : Z) (j : nat) :
  1 <= N -> (0 < j < L)%nat -> 2 <= N * 2 ^ doublings L j.
Proof.
  intros HN Hj. unfold doublings.
  replace (Nat.min (L - j) (L - 1)) with (S (L - j - 1)) by lia.
  rewrite Nat2Z.inj_succ, Z.pow_succ_r by lia.
  pose proof (pow2_pos (L - j - 1)). nia.
Qed.

Lemma doublings_none (L : nat) (N : Z) : N * 2 ^ doublings L L = N.
Proof.
  unfold doublings. replace (Nat.min (L - L) (L - 1)) with O by lia.
  simpl. lia.
Qed.

(** The Decoder with blocks in its levels. *)
Section DecoderAnyLatent.

Variables (K : Kernels) (ch out_ch : Z) (ch_mult : list Z) (n : nat)
  (in_channels r z_channels B H W : Z).
Hypothesis Hmult : Forall (fun m => width_ok (ch * m)) ch_mult.
Hypothesis Hne : ch_mult <> [].
Hypothesis Hout : 0 < out_ch.
Hypothesis Hz : 0 < z_channels.
Hypothesis H1 : 1 <= H.
Hypothesis W1 : 1 <= W.
Hypothesis Hnorm : normalizable B (width_last ch ch_mult) H W.

Let L := length ch_mult.

Let D : Decoder.t :=
  built_decoder ch out_ch ch_mult (Z.of_nat n) in_channels r z_channels.

Lemma Decoder_level_any_size (i : nat) (h : Tensor) (Hi' Wi' : Z) :
  (i < L)%nat ->
  shape h = (B, dec_width_in ch ch_mult i, Hi', Wi') ->
  1 <= Hi' -> 1 <= Wi' ->
  normalizable B (dec_width_in ch ch_mult i) Hi' Wi' ->
  normalizable B (width_out ch ch_mult i) Hi' Wi' ->
  returns_shape (Decoder.forward_level K D (Z.of_nat i) h)
    (B, width_out ch ch_mult i,
     (if (i =? 0)%nat then Hi' else 2 * Hi'),
     (if (i =? 0)%nat then Wi' else 2 * Wi')).
Proof.
  intros Hi Hh Hi1 Wi1 Hni Hno.
  unfold Decoder.forward_level, D, built_decoder.
  cbn [Decoder.up Decoder.num_res_blocks]. cbv zeta.
  cbn [Decoder.up Decoder.num_res_blocks].
  replace (Z.of_nat n + 1) with (Z.of_nat (S n)) by lia.
  rewrite Nat2Z.id, first_level_test.
  eapply returns_shape_bind.
  - eapply (run_blocks_shape K _ _ (decoder_level ch ch_mult (S n) i) (S n)
              (dec_width_in ch ch_mult i) (width_out ch ch_mult i)).
    + now apply index_map_seq.
    + reflexivity.
    + reflexivity.
    + lia.
    + now apply dec_width_in_ok.
    + apply width_out_ok; auto.
    + exact Hi1.
    + exact Wi1.
    + exact Hni.
    + exact Hno.
    + exact Hh.
  - intros y Hy.
    destruct (Nat.eqb_spec i 0) as [Hfirst|Hfirst]; cbn [negb].
    + now apply returns_shape_Ok.
    + rewrite index_map_seq by assumption. cbn [bind].
      unfold Level.upsample, decoder_level. cbn [Level.resample].
      destruct (Nat.eqb_spec i 0) as [|_]; [contradiction|].
      cbn [getattr bind].
      pose proof (width_out_ok ch ch_mult Hmult i Hi) as [Hp _].
      apply Upsample_forward_shape; (assumption || lia).
Qed.

Lemma Decoder_forward_any_size (z : Tensor) :
  shape z = (B, z_channels, H, W) ->
  returns_shape (Decoder.forward K D z)
    (B, out_ch, H * 2 ^ Z.of_nat (L - 1), W * 2 ^ Z.of_nat (L - 1)).
Proof.
  intros Hz'. unfold Decoder.forward.
  pose proof (width_last_ok ch ch_mult Hmult Hne) as Hwl.
  pose proof Hwl as [Hwl0 _].
  unfold D at 1 2, built_decoder. cbv zeta.
  cbn [Decoder.conv_in Decoder.mid].
  shape_step conv3x3_shape. intros h0 Hh0.
  shape_step Mid_forward_shape. intros h1 Hh1.
  assert (HL : (0 < L)%nat)
    by (unfold L; destruct ch_mult; [congruence | simpl; lia]).
  destruct (for_reversed_range_inv (Decoder.forward_level K D)
    (fun j h => shape h
       = (B, width_out ch ch_mult (Nat.min j (L - 1)),
          H * 2 ^ doublings L j, W * 2 ^ doublings L j))
    L h1) as (h2 & Hloop & Hh2).
  { rewrite Hh1, !doublings_none. unfold width_last. fold L.
    now replace (Nat.min L (L - 1)) with (L - 1)%nat by lia. }
  { intros i t Hi Ht.
    assert (HS : 1 <= H * 2 ^ doublings L (S i)
                 /\ 1 <= W * 2 ^ doublings L (S i)).
    { split; [pose proof (doubled_size_ge L H (S i))
             | pose proof (doubled_size_ge L W (S i))]; lia. }
    destruct HS as [HS1 WS1].
    assert (Hnorms :
      normalizable B (dec_width_in ch ch_mult i)
        (H * 2 ^ doublings L (S i)) (W * 2 ^ doublings L (S i))
      /\ normalizable B (width_out ch ch_mult i)
           (H * 2 ^ doublings L (S i)) (W * 2 ^ doublings L (S i))).
    { destruct (Nat.eq_dec (S i) L) as [Hlast|Hlast].
      - rewrite Hlast, !doublings_none. unfold dec_width_in. fold L.
        replace (Nat.min (S i) (L - 1)) with (L - 1)%nat by lia.
        replace i with (L - 1)%nat by lia.
        split; exact Hnorm.
      - pose proof (doubled_size_big L H (S i) H1 ltac:(lia)).
        split; apply normalizable_big; auto;
          [apply dec_width_in_ok; auto | apply width_out_ok; auto]. }
    destruct Hnorms as [Hni Hno].
    destruct (Decoder_level_any_size i t _ _ Hi Ht HS1 WS1 Hni Hno)
      as (t' & Ht' & Hs).
    exists t'. split; [assumption|]. rewrite Hs.
    replace (Nat.min i (L - 1)) with i by lia.
    destruct (Nat.eqb_spec i 0) as [Hfirst|Hfirst].
    - subst i. unfold doublings.
      now replace (Nat.min (L - 1) (L - 1)) with (Nat.min (L - 0) (L - 1)) by lia.
    - now rewrite !doubled_size_step by lia. }
  replace (range (Decoder.num_resolutions D)) with (range (Z.of_nat L))
    by reflexivity.
  rewrite Hloop. cbn [bind].
  assert (Hd : doublings L 0 = Z.of_nat (L - 1))
    by (unfold doublings; f_equal; lia).
  rewrite Nat.min_0_l in Hh2.
  assert (H0 : width_ok (width_out ch ch_mult 0))
    by (apply width_out_ok; auto).
  pose proof H0 as [H00 _].
  pose proof (doubled_size_ge L H 0 ltac:(lia)) as H1'.
  pose proof (doubled_size_ge L W 0 ltac:(lia)) as W1'.
  assert (Hno : normalizable B (width_out ch ch_mult 0)
                  (H * 2 ^ doublings L 0) (W * 2 ^ doublings L 0)).
  { destruct (Nat.eq_dec L 1) as [E1|E1].
    - rewrite Hd. replace (L - 1)%nat with O by lia.
      cbn [Z.of_nat]. rewrite Z.pow_0_r, !Z.mul_1_r.
      replace (width_out ch ch_mult 0) with (width_last ch ch_mult);
        [exact Hnorm|].
      unfold width_last. fold L. now rewrite E1.
    - pose proof (pow2_pos (L - 1)).
      apply normalizable_big; auto; try lia. left. rewrite Hd.
      replace (L - 1)%nat with (S (L - 2)) by lia.
      rewrite Nat2Z.inj_succ, Z.pow_succ_r by lia.
      pose proof (pow2_pos (L - 2)). nia. }
  rewrite Hd in *.
  unfold D, built_decoder. cbv zeta.
  cbn [Decoder.norm_out Decoder.conv_out].
  shape_step GroupNorm_forward_shape. intros h3 Hh3.
  shape_step swish_shape. intros h4 Hh4.
  shape_step conv3x3_shape. intros h5 Hh5.
  now apply returns_shape_Ok.
Qed.

End DecoderAnyLatent.

(** The Decoder without blocks. *)
Section BlocklessDecoderAnyLatent.

Variables (K : Kernels) (ch out_ch : Z) (ch_mult : list Z)
  (num_res_blocks in_channels r z_channels B H W : Z).
Hypothesis Hn : num_res_blocks + 1 <= 0.
Hypothesis Hne : ch_mult <> [].
Hypothesis Hw : width_ok (width_last ch ch_mult).
Hypothesis Hout : 0 < out_ch.
Hypothesis Hz : 0 < z_channels.
Hypothesis H1 : 1 <= H.
Hypothesis W1 : 1 <= W.
Hypothesis Hnorm : normalizable B (width_last ch ch_mult) H W.

Let L := length ch_mult.

Let w := width_last ch ch_mult.

Let D : Decoder.t :=
  blockless_decoder ch out_ch ch_mult num_res_blocks in_channels r z_channels.

Lemma blockless_Decoder_level_any_size (i : nat) (h : Tensor) (Hi' Wi' : Z) :
  (i < L)%nat ->
  shape h = (B, w, Hi', Wi') -> 1 <= Hi' -> 1 <= Wi' ->
  returns_shape (Decoder.forward_level K D (Z.of_nat i) h)
    (B, w,
     (if (i =? 0)%nat then Hi' else 2 * Hi'),
     (if (i =? 0)%nat then Wi' else 2 * Wi')).
Proof.
  intros Hi Hh Hi1 Wi1. pose proof Hw as [Hw0 _]. fold w in Hw0.
  unfold Decoder.forward_level, D, blockless_decoder. cbv zeta.
  cbn [Decoder.up Decoder.num_res_blocks].
  rewrite run_blocks_none by assumption. cbn [bind].
  rewrite first_level_test.
  destruct (Nat.eqb_spec i 0) as [Hfirst|Hfirst]; cbn [negb].
  - now apply returns_shape_Ok.
  - rewrite index_map_seq by assumption. cbn [bind].
    unfold Level.upsample. cbn [Level.resample].
    destruct (Nat.eqb_spec i 0) as [|_]; [contradiction|].
    cbn [getattr bind]. fold w.
    apply Upsample_forward_shape; (assumption || lia).
Qed.

Lemma blockless_Decoder_forward_any_size (z : Tensor) :
  shape z = (B, z_channels, H, W) ->
  returns_shape (Decoder.forward K D z)
    (B, out_ch, H * 2 ^ Z.of_nat (L - 1), W * 2 ^ Z.of_nat (L - 1)).
Proof.
  intros Hz'. unfold Decoder.forward.
  pose proof Hw as Hw'. fold w in Hw'. pose proof Hw' as [Hw0 _].
  pose proof Hnorm as Hnorm'. fold w in Hnorm'.
  unfold D at 1 2, blockless_decoder. cbv zeta.
  cbn [Decoder.conv_in Decoder.mid]. fold w.
  shape_step conv3x3_shape. intros h0 Hh0.
  shape_step Mid_forward_shape. intros h1 Hh1.
  assert (HL : (0 < L)%nat)
    by (unfold L; destruct ch_mult; [congruence | simpl; lia]).
  destruct (for_reversed_range_inv (Decoder.forward_level K D)
    (fun j h => shape h
       = (B, w, H * 2 ^ doublings L j, W * 2 ^ doublings L j))
    L h1) as (h2 & Hloop & Hh2).
  { now rewrite Hh1, !doublings_none. }
  { intros i t Hi Ht.
    pose proof (doubled_size_ge L H (S i) ltac:(lia)).
    pose proof (doubled_size_ge L W (S i) ltac:(lia)).
    destruct (blockless_Decoder_level_any_size i t _ _ Hi Ht)
      as (t' & Ht' & Hs); [lia | lia |].
    exists t'. split; [assumption|]. rewrite Hs.
    destruct (Nat.eqb_spec i 0) as [Hfirst|Hfirst].
    - subst i. unfold doublings.
      now replace (Nat.min (L - 1) (L - 1)) with (Nat.min (L - 0) (L - 1)) by lia.
    - now rewrite !doubled_size_step by lia. }
  replace (range (Decoder.num_resolutions D)) with (range (Z.of_nat L))
    by reflexivity.
  rewrite Hloop. cbn [bind].
  assert (Hd : doublings L 0 = Z.of_nat (L - 1))
    by (unfold doublings; f_equal; lia).
  pose proof (doubled_size_ge L H 0 ltac:(lia)) as H1'.
  pose proof (doubled_size_ge L W 0 ltac:(lia)) as W1'.
  assert (Hno : normalizable B w
                  (H * 2 ^ doublings L 0) (W * 2 ^ doublings L 0)).
  { destruct (Nat.eq_dec L 1) as [E1|E1].
    - rewrite Hd. replace (L - 1)%nat with O by lia.
      cbn [Z.of_nat]. now rewrite Z.pow_0_r, !Z.mul_1_r.
    - pose proof (pow2_pos (L - 1)).
      apply normalizable_big; auto; try lia. left. rewrite Hd.
      replace (L - 1)%nat with (S (L - 2)) by lia.
      rewrite Nat2Z.inj_succ, Z.pow_succ_r by lia.
      pose proof (pow2_pos (L - 2)). nia. }
  rewrite Hd in *.
  unfold D, blockless_decoder. cbv zeta.
  cbn [Decoder.norm_out Decoder.conv_out]. fold w.
  shape_step GroupNorm_forward_shape. intros h3 Hh3.
  shape_step swish_shape. intros h4 Hh4.
  shape_step conv3x3_shape. intros h5 Hh5.
  now apply returns_shape_Ok.
Qed.

End BlocklessDecoderAnyLatent.

(** ** From a Configuration to its Encoder and Decoder *)

Lemma valid_levels (c : VQVAEConfig) :
  valid_config c ->
  ch_mult c <> []
  /\ len (ch_mult c) - 1 = Z.of_nat (length (ch_mult c) - 1).
Proof.
  intros [HL _]. unfold len in *. split; [|lia].
  intros E. rewrite E in HL. simpl in HL. lia.
Qed.

Lemma valid_resolution (c : VQVAEConfig) :
  valid_config c -> 0 < resolution c ->
  2 ^ Z.of_nat (length (ch_mult c) - 1) <= resolution c
  /\ latent_size c = resolution c / 2 ^ Z.of_nat (length (ch_mult c) - 1)
  /\ latent_size c * 2 ^ Z.of_nat (length (ch_mult c) - 1) = resolution c
  /\ 1 <= latent_size c.
Proof.
  intros Hv Hres. destruct (valid_levels c Hv) as [_ HL].
  destruct Hv as [_ Hdiv]. unfold latent_size. rewrite HL in *.
  set (p := 2 ^ Z.of_nat (length (ch_mult c) - 1)) in *.
  assert (Hp : 0 < p) by apply pow2_pos.
  assert (E : resolution c = p * (resolution c / p))
    by (apply Z_div_exact_full_2; lia).
  assert (0 < resolution c / p) by nia.
  repeat split; try lia. nia.
Qed.

Lemma blocks_nat (n : Z) :
  0 <= n -> n = Z.of_nat (Z.to_nat n).
Proof. lia. Qed.

(** Without blocks and with multipliers 1 before the last, the channels
    that enter the last level are the base width. *)
Lemma entry_width_ones (c : VQVAEConfig) :
  ch_mult c <> [] -> ones_before_last (ch_mult c) -> entry_width c = dim c.
Proof.
  intros Hne Hones. unfold entry_width, width_in.
  rewrite (in_ch_mult_one (ch_mult c) Hones); [lia|].
  destruct (ch_mult c); [congruence | simpl; lia].
Qed.

Lemma runnable_encoder (c : VQVAEConfig) : runnable c -> encoder_runnable c.
Proof.
  intros (Hd & Hm & Ho & Hi & Hz & _ & Hr). unfold encoder_runnable.
  repeat split; auto; apply Hd.
Qed.

(** The Encoder of a Configuration, built and run on a batch of images
    of the configured resolution. *)
Lemma Encoder_of_runnable (K : Kernels) (c : VQVAEConfig) (B : Z) (x : Tensor) :
  valid_config c -> encoder_runnable c ->
  normalizable B (entry_width c) (latent_size c) (latent_size c) ->
  (1 <= num_res_blocks c ->
   normalizable B (last_width c) (latent_size c) (latent_size c)) ->
  shape x = image_shape c B ->
  exists enc y,
    Encoder_of c = Ok enc
    /\ Encoder.forward K enc x = Ok y
    /\ shape y = latent_shape c B.
Proof.
  intros Hv (Hd & Hm & Hones & Hi & Hz & Hres) Hni Hno Hx.
  destruct (valid_levels c Hv) as [Hne _].
  destruct (valid_resolution c Hv Hres) as (Hbig & El & _ & _).
  unfold latent_shape. rewrite El in *. unfold image_shape in Hx.
  unfold Encoder_of.
  destruct (Z_le_gt_dec 1 (num_res_blocks c)) as [Hn|Hn].
  - specialize (Hm Hn). specialize (Hno Hn).
    rewrite (blocks_nat (num_res_blocks c)) by lia.
    rewrite Encoder_init_ok by (auto; lia).
    destruct (Encoder_forward_any_size K (resolution c) (in_channels c)
                (dim c) (ch_mult c) (Z.to_nat (num_res_blocks c))
                (z_channels c) B (resolution c) (resolution c)
                ltac:(lia) Hd Hm Hne Hi Hz Hbig Hbig Hni Hno x Hx)
      as (y & Hy & Hs).
    now eexists _, y.
  - assert (Hn0 : num_res_blocks c <= 0) by lia.
    specialize (Hones Hn0).
    rewrite (entry_width_ones c Hne Hones) in Hni.
    rewrite blockless_Encoder_init_ok by (auto; lia).
    destruct (blockless_Encoder_forward_any_size K (resolution c)
                (in_channels c) (dim c) (ch_mult c) (num_res_blocks c)
                (z_channels c) B (resolution c) (resolution c)
                Hn0 Hd Hne Hi Hz Hbig Hbig Hni x Hx)
      as (y & Hy & Hs).
    now eexists _, y.
Qed.

(** The Decoder of a Configuration, built and run on a batch of latents
    of the configured size. *)
Lemma Decoder_of_runnable (K : Kernels) (c : VQVAEConfig) (B : Z) (z : Tensor) :
  valid_config c ->
  Forall (fun m => width_ok (dim c * m)) (ch_mult c) ->
  0 < z_channels c -> 0 < out_ch c -> 0 < resolution c ->
  normalizable B (last_width c) (latent_size c) (latent_size c) ->
  shape z = latent_shape c B ->
  exists dec y,
    Decoder_of c = Ok dec
    /\ Decoder.forward K dec z = Ok y
    /\ shape y = reconstruction_shape c B.
Proof.
  intros Hv Hm Hz Ho Hres Hn Hs.
  destruct (valid_levels c Hv) as [Hne _].
  destruct (valid_resolution c Hv Hres) as (_ & _ & El & Hl).
  unfold reconstruction_shape. rewrite <- El. unfold latent_shape in Hs.
  unfold Decoder_of.
  destruct (Z_le_gt_dec 0 (num_res_blocks c)) as [Hb|Hb].
  - rewrite (blocks_nat (num_res_blocks c)) by lia.
    rewrite Decoder_init_ok by (auto; lia).
    destruct (Decoder_forward_any_size K (dim c) (out_ch c) (ch_mult c)
                (Z.to_nat (num_res_blocks c)) (in_channels c) (resolution c)
                (z_channels c) B (latent_size c) (latent_size c)
                Hm Hne Ho Hz Hl Hl Hn z Hs)
      as (y & Hy & Hsy).
    now eexists _, y.
  - pose proof (width_last_ok (dim c) (ch_mult c) Hm Hne) as Hw.
    rewrite blockless_Decoder_init_ok by (auto; lia).
    destruct (blockless_Decoder_forward_any_size K (dim c) (out_ch c)
                (ch_mult c) (num_res_blocks c) (in_channels c) (resolution c)
                (z_channels c) B (latent_size c) (latent_size c)
                ltac:(lia) Hne Hw Ho Hz Hl Hl Hn z Hs)
      as (y & Hy & Hsy).
    now eexists _, y.
Qed.

(** ** The example configuration *)

Lemma example_valid : valid_config example_config.
Proof. split; [vm_compute; discriminate | reflexivity]. Defined.

Lemma example_buildable : buildable example_config.
Proof.
  unfold buildable, width_ok. cbn.
  repeat split; try lia; repeat constructor; try lia; reflexivity.
Defined.

Lemma example_runnable : runnable example_config.
Proof.
  unfold runnable, width_ok. cbn.
  repeat split; try lia; repeat constructor; try lia; reflexivity.
Defined.

Lemma example_encoder_runnable : encoder_runnable example_config.
Proof.
  unfold encoder_runnable, width_ok. cbn.
  repeat split; try lia; repeat constructor; try lia; reflexivity.
Defined.

(** The latent of the example configuration is 32 by 32: whatever the
    batch, its normalizations have values to normalize. *)
Lemma example_normalizable (B : Z) :
  normalizable B (entry_width example_config) (latent_size example_config)
    (latent_size example_config)
  /\ normalizable B (last_width example_config) (latent_size example_config)
       (latent_size example_config).
Proof.
  change (entry_width example_config) with 512.
  change (last_width example_config) with 512.
  change (latent_size example_config) with 32.
  split; apply normalizable_big; try lia; split; (lia || reflexivity).
Defined.

Lemma passthrough_contract (c : VQVAEConfig) (B : Z) :
  quantizer_contract passthrough_quantizer c B.
Proof.
  exists (patch_sizes c). split; [reflexivity|].
  intros f _. now eexists _, _, _, _, _.
Defined.

(** ** The latent of the Encoder *)

(** C4, as the spec states it, fails.  Each of these Configurations
    satisfies the data model's invariant.  With a base width of 100
    channels the Encoder is not built, the constructor of its first
    normalization raises.  The others have an Encoder, which raises on an
    image of the configured shape: on one pixel a normalization of 32
    channels, those that enter the last level or those of the last level,
    has a single value per group; without blocks the levels do not widen
    the feature map to the channels of the bottleneck; a convolution
    refuses an input or a weight without channels, and an image without
    pixels. *)
Lemma Encoder_latent_needs_widths :
  (valid_config odd_width_config
   /\ Encoder_of odd_width_config = Raise ValueError)
  /\ (valid_config narrow_entry_config
      /\ encode null_kernels narrow_entry_config
           (blank_image narrow_entry_config 1) = Raise ValueError)
  /\ (valid_config narrow_last_config
      /\ encode null_kernels narrow_last_config
           (blank_image narrow_last_config 1) = Raise ValueError)
  /\ (valid_config blockless_config
      /\ encode null_kernels blockless_config
           (blank_image blockless_config 1) = Raise RuntimeError)
  /\ (forall c,
        In c [with_channels 0 64 3 example_config;
              with_channels 3 0 3 example_config;
              with_widths 0 [1; 2; 4; 4] 2 example_config;
              with_widths 128 [1; 2; 0; 4] 2 example_config;
              with_resolution 0 example_config] ->
        valid_config c
        /\ encode null_kernels c (blank_image c 1) = Raise RuntimeError).
Proof.
  assert (V : forall c, len (ch_mult c) = 4 -> resolution c mod 8 = 0 ->
                        valid_config c).
  { intros c HL Hr. unfold valid_config. rewrite HL. split; [lia | exact Hr]. }
  assert (V1 : forall c, len (ch_mult c) = 1 -> valid_config c).
  { intros c HL. unfold valid_config. rewrite HL. split; [lia|].
    apply Z.mod_1_r. }
  assert (V2 : forall c, len (ch_mult c) = 2 -> resolution c mod 2 = 0 ->
                         valid_config c).
  { intros c HL Hr. unfold valid_config. rewrite HL. split; [lia | exact Hr]. }
  split; [|split; [|split; [|split]]].
  - split; [now apply V | repeat split; reflexivity].
  - split; [now apply V1 | vm_compute; reflexivity].
  - split; [now apply V2 | vm_compute; reflexivity].
  - split; [now apply V2 | vm_compute; reflexivity].
  - cbn [In]. intros c Hc.
    repeat (destruct Hc as [<-|Hc];
            [split; [now apply V | vm_compute; reflexivity]|]).
    contradiction.
Qed.

(** C4, amended: for a Configuration that satisfies the invariant and
    that the Encoder can be built from and run on, and a batch of images
    of shape (B, in_channels, resolution, resolution) on which the
    normalizations of the last level have more than one value per group,
    the Encoder is built and its [forward] returns a latent of shape
    (B, z_channels, resolution/2^(L-1), resolution/2^(L-1)). *)
Theorem Encoder_latent_shape (K : Kernels) (c : VQVAEConfig) (B : Z)
  (x : Tensor) :
  valid_config c -> encoder_runnable c ->
  normalizable B (entry_width c) (latent_size c) (latent_size c) ->
  (1 <= num_res_blocks c ->
   normalizable B (last_width c) (latent_size c) (latent_size c)) ->
  shape x = image_shape c B ->
  exists enc y,
    Encoder_of c = Ok enc
    /\ Encoder.forward K enc x = Ok y
    /\ shape y = (B, z_channels c,
                  resolution c / 2 ^ (len (ch_mult c) - 1),
                  resolution c / 2 ^ (len (ch_mult c) - 1)).
Proof. exact (Encoder_of_runnable K c B x). Qed.

(** The example configuration: a (1, 3, 256, 256) image gives a latent of
    shape (1, 64, 32, 32). *)
Lemma Encoder_latent_shape_example :
  exists enc y,
    Encoder_of example_config = Ok enc
    /\ Encoder.forward null_kernels enc (mkTensor (1, 3, 256, 256) []) = Ok y
    /\ shape y = (1, 64, 32, 32).
Proof.
  exact (Encoder_latent_shape null_kernels example_config 1
           (mkTensor (1, 3, 256, 256) [])
           example_valid example_encoder_runnable
           (proj1 (example_normalizable 1))
           (fun _ => proj2 (example_normalizable 1))
           eq_refl).
Defined.

(** For every batch size the latent of the example configuration has the
    shape (B, 64, 32, 32). *)
Corollary Encoder_example_latent (K : Kernels) (B : Z) (x : Tensor) :
  shape x = (B, 3, 256, 256) ->
  exists enc y,
    Encoder_of example_config = Ok enc
    /\ Encoder.forward K enc x = Ok y
    /\ shape y = (B, 64, 32, 32).
Proof.
  intros Hx.
  exact (Encoder_of_runnable K example_config B x example_valid
           example_encoder_runnable (proj1 (example_normalizable B))
           (fun _ => proj2 (example_normalizable B)) Hx).
Qed.

(** On one image of 8 by 8 pixels the latent of the example
    configuration is a single pixel of 64 channels: its last level has 512
    channels, 16 values per group. *)
Lemma Encoder_example_one_pixel (K : Kernels) (x : Tensor) :
  shape x = (1, 3, 8, 8) ->
  exists enc y,
    Encoder_of (with_resolution 8 example_config) = Ok enc
    /\ Encoder.forward K enc x = Ok y
    /\ shape y = (1, 64, 1, 1).
Proof.
  intros Hx.
  apply (Encoder_of_runnable K (with_resolution 8 example_config) 1 x).
  - split; [vm_compute; discriminate | reflexivity].
  - unfold encoder_runnable, width_ok. cbn.
    repeat split; try lia; repeat constructor; try lia; reflexivity.
  - vm_compute. discriminate.
  - intros _. vm_compute. discriminate.
  - exact Hx.
Qed.

(** ** The reconstruction of the model *)

(** C1, as the spec states it, fails.  Each of these Configurations
    satisfies the data model's invariant.  With a base width of 16
    channels the model cannot be built, whatever the quantizer.  The
    others have a model, whose [forward] raises on an image of the
    configured shape, with a quantizer that keeps its contract: on one
    pixel a normalization of 32 channels has a single value per group;
    without blocks the levels of the Encoder do not widen the feature map
    to the channels of the bottleneck; a convolution refuses an input or
    a weight without channels, and an image without pixels. *)
Lemma VQVAE_forward_needs_widths :
  (valid_config narrow_config
   /\ Encoder_of narrow_config = Raise ValueError
   /\ VQVAE.init passthrough_quantizer narrow_config = Raise ValueError)
  /\ (valid_config narrow_entry_config
      /\ reconstruct passthrough_quantizer null_kernels narrow_entry_config
           (blank_image narrow_entry_config 1) = Raise ValueError)
  /\ (valid_config narrow_last_config
      /\ reconstruct passthrough_quantizer null_kernels narrow_last_config
           (blank_image narrow_last_config 1) = Raise ValueError)
  /\ (valid_config blockless_config
      /\ reconstruct passthrough_quantizer null_kernels blockless_config
           (blank_image blockless_config 1) = Raise RuntimeError)
  /\ (forall c,
        In c [with_channels 0 64 3 example_config;
              with_channels 3 0 3 example_config;
              with_channels 3 64 0 example_config;
              with_widths 0 [1; 2; 4; 4] 2 example_config;
              with_widths 128 [1; 2; 0; 4] 2 example_config;
              with_resolution 0 example_config] ->
        valid_config c
        /\ reconstruct passthrough_quantizer null_kernels c (blank_image c 1)
           = Raise RuntimeError).
Proof.
  assert (V : forall c, len (ch_mult c) = 4 -> resolution c mod 8 = 0 ->
                        valid_config c).
  { intros c HL Hr. unfold valid_config. rewrite HL. split; [lia | exact Hr]. }
  assert (V1 : forall c, len (ch_mult c) = 1 -> valid_config c).
  { intros c HL. unfold valid_config. rewrite HL. split; [lia|].
    apply Z.mod_1_r. }
  assert (V2 : forall c, len (ch_mult c) = 2 -> resolution c mod 2 = 0 ->
                         valid_config c).
  { intros c HL Hr. unfold valid_config. rewrite HL. split; [lia | exact Hr]. }
  split; [|split; [|split; [|split]]].
  - split; [now apply V | repeat split; reflexivity].
  - split; [now apply V1 | vm_compute; reflexivity].
  - split; [now apply V2 | vm_compute; reflexivity].
  - split; [now apply V2 | vm_compute; reflexivity].
  - cbn [In]. intros c Hc.
    repeat (destruct Hc as [<-|Hc];
            [split; [now apply V | vm_compute; reflexivity]|]).
    contradiction.
Qed.

(** The model of a Configuration, built and run on a batch of images of
    the configured resolution. *)
Lemma model_builds_and_runs (VQ : QuantizerClass) (K : Kernels)
  (c : VQVAEConfig) (B : Z) (x : Tensor) :
  valid_config c -> runnable c ->
  normalizable B (entry_width c) (latent_size c) (latent_size c) ->
  normalizable B (last_width c) (latent_size c) (latent_size c) ->
  quantizer_contract VQ c B ->
  shape x = image_shape c B ->
  exists model x_hat r_maps idxs scales loss,
    VQVAE.init VQ c = Ok model
    /\ VQVAE.forward VQ K model x = Ok (x_hat, r_maps, idxs, scales, loss)
    /\ shape x_hat = reconstruction_shape c B.
Proof.
  intros Hv Hr Hni Hno (q & Hq & Hquant) Hx.
  destruct (Encoder_of_runnable K c B x Hv (runnable_encoder c Hr) Hni
              (fun _ => Hno) Hx) as (enc & f & Henc & Hf & Hfs).
  destruct (Hquant f Hfs) as (fhat & r & i & s & l & Hfhat & Hshape).
  rewrite Hfs in Hshape.
  destruct Hr as (_ & Hm & _ & _ & Hz & Ho & Hres).
  destruct (Decoder_of_runnable K c B fhat Hv Hm Hz Ho Hres Hno Hshape)
    as (dec & x_hat & Hdec & Hxh & Hxs).
  eexists _, x_hat, r, i, s, l. split; [|split].
  - unfold VQVAE.init.
    fold (Encoder_of c). rewrite Henc. cbn [bind].
    fold (Decoder_of c). rewrite Hdec. cbn [bind].
    rewrite Hq. reflexivity.
  - unfold VQVAE.forward. cbn [VQVAE.encoder VQVAE.quantizer VQVAE.decoder].
    rewrite Hf. cbn [bind]. rewrite Hfhat. cbn [bind]. rewrite Hxh. reflexivity.
  - exact Hxs.
Qed.

(** C1, amended: for a Configuration that satisfies the invariant and
    that the model can be built from and run on, with a quantizer that
    returns a quantized feature map of the latent's shape, and a batch of
    images of shape (B, in_channels, resolution, resolution) on which the
    normalizations of the last level have more than one value per group,
    the model is built and [forward] returns a reconstruction of shape
    (B, out_ch, resolution, resolution). *)
Theorem VQVAE_forward_shape (VQ : QuantizerClass) (K : Kernels)
  (c : VQVAEConfig) (B : Z) (x : Tensor) :
  valid_config c -> runnable c ->
  normalizable B (entry_width c) (latent_size c) (latent_size c) ->
  normalizable B (last_width c) (latent_size c) (latent_size c) ->
  quantizer_contract VQ c B ->
  shape x = image_shape c B ->
  exists model x_hat r_maps idxs scales loss,
    VQVAE.init VQ c = Ok model
    /\ VQVAE.forward VQ K model x = Ok (x_hat, r_maps, idxs, scales, loss)
    /\ shape x_hat = (B, out_ch c, resolution c, resolution c).
Proof. exact (model_builds_and_runs VQ K c B x). Qed.

(** With the example configuration, whatever the kernels and the batch
    size, and whatever the quantizer that keeps its contract, an image of
    shape (B, 3, 256, 256) gives a reconstruction of the same shape. *)
Corollary VQVAE_example_reconstruction (VQ : QuantizerClass) (K : Kernels)
  (B : Z) (x : Tensor) :
  quantizer_contract VQ example_config B ->
  shape x = (B, 3, 256, 256) ->
  exists model x_hat r_maps idxs scales loss,
    VQVAE.init VQ example_config = Ok model
    /\ VQVAE.forward VQ K model x = Ok (x_hat, r_maps, idxs, scales, loss)
    /\ shape x_hat = (B, 3, 256, 256).
Proof.
  intros Hq Hx.
  exact (model_builds_and_runs VQ K example_config B x example_valid
           example_runnable (proj1 (example_normalizable B))
           (proj2 (example_normalizable B)) Hq Hx).
Qed.

(** The example configuration: a (1, 3, 256, 256) image gives a
    reconstruction of shape (1, 3, 256, 256). *)
Lemma VQVAE_forward_shape_example :
  exists model x_hat r_maps idxs scales loss,
    VQVAE.init passthrough_quantizer example_config = Ok model
    /\ VQVAE.forward passthrough_quantizer null_kernels model
         (mkTensor (1, 3, 256, 256) [])
       = Ok (x_hat, r_maps, idxs, scales, loss)
    /\ shape x_hat = (1, 3, 256, 256).
Proof.
  exact (VQVAE_forward_shape passthrough_quantizer null_kernels example_config
           1 (mkTensor (1, 3, 256, 256) [])
           example_valid example_runnable
           (proj1 (example_normalizable 1)) (proj2 (example_normalizable 1))
           (passthrough_contract example_config 1) eq_refl).
Defined.

(** Without blocks in the levels of the Encoder, [num_res_blocks = 0],
    and with multipliers 1, the model runs all the same: a (1, 3, 4, 4)
    image gives a reconstruction of the same shape. *)
Lemma blockless_model_runs (VQ : QuantizerClass) (K : Kernels) (x : Tensor) :
  let c := mkVQVAEConfig 4 3 32 [1; 1] 0 64 3 8192 [1; 2] in
  quantizer_contract VQ c 1 ->
  shape x = (1, 3, 4, 4) ->
  exists model x_hat r_maps idxs scales loss,
    VQVAE.init VQ c = Ok model
    /\ VQVAE.forward VQ K model x = Ok (x_hat, r_maps, idxs, scales, loss)
    /\ shape x_hat = (1, 3, 4, 4).
Proof.
  intros c Hq Hx.
  apply (model_builds_and_runs VQ K c 1 x); try assumption.
  - split; [vm_compute; discriminate | reflexivity].
  - unfold runnable, width_ok, ones_before_last. cbn.
    repeat split; try lia; repeat constructor; try lia; try reflexivity.
    intros _ i Hi. destruct i as [|[|i]]; [reflexivity | lia | lia].
  - vm_compute. discriminate.
  - vm_compute. discriminate.
Qed.

(** ** Downsample *)

Lemma Conv2d_init_inv (cin cout k s p : Z) (c : Conv2d.t) :
  Conv2d.init cin cout k s p = Ok c ->
  c = Conv2d.mk cin cout k s p /\ 0 <= cin /\ 0 <= cout.
Proof.
  unfold Conv2d.init.
  destruct (Z.ltb_spec cin 0); cbn [orb]; [discriminate|].
  destruct (Z.ltb_spec cout 0); [discriminate|].
  intros [= <-]. now repeat split.
Qed.

Lemma Downsample_init_eq (c : Z) (self : Downsample.t) :
  Downsample.init c = Ok self -> self = Downsample.mk (Conv2d.mk c c 3 2 0).
Proof.
  unfold Downsample.init. intros H.
  apply bind_Ok_inv in H as (cv & Hcv & H).
  apply Conv2d_init_inv in Hcv as [-> _]. now injection H as <-.
Qed.

Lemma Upsample_init_eq (c : Z) (self : Upsample.t) :
  Upsample.init c = Ok self -> self = Upsample.mk (Conv2d.mk c c 3 1 1).
Proof.
  unfold Upsample.init. intros H.
  apply bind_Ok_inv in H as (cv & Hcv & H).
  apply Conv2d_init_inv in Hcv as [-> _]. now injection H as <-.
Qed.

(** C5: on a feature map of even height and width, with at least one
    channel and the layer's channels, [Downsample.forward] returns a
    feature map of the same channels and of exactly half the height and
    half the width. *)
Theorem Downsample_halves (K : Kernels) (c : Z) (self : Downsample.t)
  (x : Tensor) (B H W : Z) :
  Downsample.init c = Ok self -> 0 < c ->
  shape x = (B, c, H, W) ->
  0 < H -> 0 < W -> H mod 2 = 0 -> W mod 2 = 0 ->
  exists y,
    Downsample.forward K self x = Ok y
    /\ shape y = (B, c, H / 2, W / 2)
    /\ 2 * (H / 2) = H /\ 2 * (W / 2) = W.
Proof.
  intros Hinit Hc Hx HH HW HHe HWe.
  assert (EH : H = 2 * (H / 2)) by (apply Z_div_exact_full_2; lia).
  assert (EW : W = 2 * (W / 2)) by (apply Z_div_exact_full_2; lia).
  apply Downsample_init_eq in Hinit as ->.
  destruct (Downsample_forward_shape K c x B H W Hx) as (y & Hy & Hs);
    [lia..|].
  exists y. repeat split; auto; lia.
Qed.

Lemma Downsample_halves_example :
  exists y,
    Downsample.forward null_kernels (Downsample.mk (Conv2d.mk 128 128 3 2 0))
      (mkTensor (1, 128, 256, 256) []) = Ok y
    /\ shape y = (1, 128, 256 / 2, 256 / 2)
    /\ 2 * (256 / 2) = 256 /\ 2 * (256 / 2) = 256.
Proof.
  apply (Downsample_halves null_kernels 128 _ _ 1 256 256);
    first [reflexivity | lia].
Defined.

(** ** ResnetBlock *)

(** What a layer returns, when it returns. *)
Lemma GroupNorm_forward_inv (K : Kernels) (g : GroupNorm.t) (x y : Tensor) :
  GroupNorm.forward K g x = Ok y -> shape y = shape x.
Proof.
  unfold GroupNorm.forward. destruct (shape x) as [[[B C] H] W].
  destruct (_ =? 1); [discriminate|].
  destruct (negb _); [discriminate|].
  destruct (C =? 0); [discriminate|]. now intros [= <-].
Qed.

Lemma swish_inv (K : Kernels) (x y : Tensor) :
  swish K x = Ok y -> shape y = shape x.
Proof.
  unfold swish, mul, sigmoid. cbn [shape]. rewrite broadcast_same.
  cbn [bind]. now intros [= <-].
Qed.

Lemma Conv2d_forward_inv (K : Kernels) (c : Conv2d.t) (x y : Tensor)
  (B C H W : Z) :
  Conv2d.forward K c x = Ok y -> shape x = (B, C, H, W) ->
  shape y = (B, Conv2d.out_channels c, Conv2d.out_size c H, Conv2d.out_size c W).
Proof.
  unfold Conv2d.forward. intros Hy Hx. rewrite Hx in Hy.
  destruct (negb _); [discriminate|].
  destruct (_ || _); [discriminate|].
  destruct (_ || _); [discriminate|]. now injection Hy as <-.
Qed.

Lemma add_inv (K : Kernels) (x y z : Tensor) :
  add K x y = Ok z -> shape x = shape y -> shape z = shape x.
Proof.
  unfold add. intros Hz E. rewrite <- E, broadcast_same in Hz.
  cbn [bind] in Hz. now injection Hz as <-.
Qed.

(** C10: a [ResnetBlock] built with [out_channels = None] is the block
    built with [out_channels = in_channels], and fails to build when that
    one does; it keeps the channels, it has no shortcut projection, and
    its [forward] returns a tensor of the shape of its input. *)
Theorem ResnetBlock_default_out_channels (c : Z) :
  ResnetBlock.init c None = ResnetBlock.init c (Some c)
  /\ forall b, ResnetBlock.init c None = Ok b ->
       ResnetBlock.in_channels b = c
       /\ ResnetBlock.out_channels b = c
       /\ ResnetBlock.nin_shortcut b = None
       /\ forall K x y, ResnetBlock.forward K b x = Ok y -> shape y = shape x.
Proof.
  split; [reflexivity|]. intros b Hinit.
  unfold ResnetBlock.init in Hinit.
  apply bind_Ok_inv in Hinit as (n1 & Hn1 & Hinit).
  apply bind_Ok_inv in Hinit as (c1 & Hc1 & Hinit).
  apply bind_Ok_inv in Hinit as (n2 & Hn2 & Hinit).
  apply bind_Ok_inv in Hinit as (c2 & Hc2 & Hinit).
  rewrite Z.eqb_refl in Hinit. cbn [negb] in Hinit.
  injection Hinit as <-. cbn. repeat split.
  intros K x y Hy.
  assert (E1 : c1 = Conv2d.mk c c 3 1 1).
  { unfold Conv2d.init in Hc1. destruct (_ || _); congruence. }
  assert (E2 : c2 = Conv2d.mk c c 3 1 1).
  { unfold Conv2d.init in Hc2. destruct (_ || _); congruence. }
  subst c1 c2.
  unfold ResnetBlock.forward in Hy.
  cbn [ResnetBlock.in_channels ResnetBlock.out_channels ResnetBlock.norm1
       ResnetBlock.norm2 ResnetBlock.conv1 ResnetBlock.conv2] in Hy.
  rewrite Z.eqb_refl in Hy. cbn [negb] in Hy.
  apply bind_Ok_inv in Hy as (h1 & H1 & Hy). apply GroupNorm_forward_inv in H1.
  apply bind_Ok_inv in Hy as (h2 & H2 & Hy). apply swish_inv in H2.
  apply bind_Ok_inv in Hy as (h3 & H3 & Hy).
  apply bind_Ok_inv in Hy as (h4 & H4 & Hy). apply GroupNorm_forward_inv in H4.
  apply bind_Ok_inv in Hy as (h5 & H5 & Hy). apply swish_inv in H5.
  apply bind_Ok_inv in Hy as (h6 & H6 & Hy). cbn [bind] in Hy.
  destruct (shape x) as [[[B C] H] W] eqn:Hx.
  assert (HC : C = c).
  { unfold Conv2d.forward in H3. rewrite H2, H1 in H3.
    cbn [Conv2d.in_channels] in H3.
    destruct (Z.eqb_spec C c); [assumption | discriminate]. }
  subst C.
  rewrite H1 in H2.
  pose proof (Conv2d_forward_inv K _ h2 h3 B c H W H3 H2) as S3.
  rewrite S3 in H4. rewrite H4 in H5.
  pose proof (Conv2d_forward_inv K _ h5 h6 B _ _ _ H6 H5) as S6.
  unfold Conv2d.out_size in S6.
  cbn [Conv2d.out_channels Conv2d.kernel_size Conv2d.stride Conv2d.padding]
    in S6.
  rewrite !Z.div_1_r in S6.
  replace (H + 2 * 1 - 3 + 1 + 2 * 1 - 3 + 1) with H in S6 by lia.
  replace (W + 2 * 1 - 3 + 1 + 2 * 1 - 3 + 1) with W in S6 by lia.
  rewrite <- Hx. apply (add_inv K x h6 y Hy). now rewrite Hx, S6.
Qed.

Lemma ResnetBlock_default_out_channels_example :
  ResnetBlock.init 64 None = Ok (resnet_block 64 64)
  /\ ResnetBlock.nin_shortcut (resnet_block 64 64) = None.
Proof.
  split; [reflexivity|].
  exact (proj1 (proj2 (proj2
    (proj2 (ResnetBlock_default_out_channels 64) (resnet_block 64 64) eq_refl)))).
Defined.

(** ** AttnBlock *)

(** What [AttnBlock.forward] adds up: the first operand of the final
    addition is the output of the block's normalization, the tensor that
    the name [x_BCHW] holds from the first statement on, and the second
    is the projected attention computed from it. *)
Lemma AttnBlock_residual_operand (K : Kernels) (self : AttnBlock.t)
  (x y : Tensor) :
  AttnBlock.forward K self x = Ok y ->
  exists xn q k v h h' p,
    GroupNorm.forward K (AttnBlock.norm self) x = Ok xn
    /\ Conv2d.forward K (AttnBlock.q self) xn = Ok q
    /\ Conv2d.forward K (AttnBlock.k self) xn = Ok k
    /\ Conv2d.forward K (AttnBlock.v self) xn = Ok v
    /\ scaled_dot_product_attention K (rearrange_to_seq K q)
         (rearrange_to_seq K k) (rearrange_to_seq K v) = Ok h
    /\ (let '(B, C, H, W) := shape xn in
        rearrange_from_seq K h H W C B) = Ok h'
    /\ Conv2d.forward K (AttnBlock.proj_out self) h' = Ok p
    /\ add K xn p = Ok y
    /\ values y = add_values K xn p.
Proof.
  unfold AttnBlock.forward. intros Hy.
  apply bind_Ok_inv in Hy as (xn & Hxn & Hy).
  apply bind_Ok_inv in Hy as (q & Hq & Hy).
  apply bind_Ok_inv in Hy as (k & Hk & Hy).
  apply bind_Ok_inv in Hy as (v & Hv & Hy).
  destruct (shape xn) as [[[B C] H] W] eqn:Hs.
  apply bind_Ok_inv in Hy as (h & Hh & Hy).
  apply bind_Ok_inv in Hy as (h' & Hh' & Hy).
  apply bind_Ok_inv in Hy as (p & Hp & Hy).
  exists xn, q, k, v, h, h', p. repeat split; try assumption.
  - now rewrite Hs.
  - unfold add in Hy. apply bind_Ok_inv in Hy as (s & _ & Hy).
    now injection Hy as <-.
Qed.

(** C2 does not hold of the code: on a block of 32 channels and the
    (1, 32, 2, 2) input whose values are all 2, the normalization returns
    zeros, the projected attention is 6 everywhere, and [forward] returns
    their sum, 6 everywhere; the input plus the projected attention is 8
    everywhere. *)
Theorem AttnBlock_forward_adds_normalized_input :
  exists xn p,
    AttnBlock.init 32 = Ok (attn_block 32)
    /\ GroupNorm.forward constant_kernels (AttnBlock.norm (attn_block 32))
         (constant_tensor (F32.of_int 2)) = Ok xn
    /\ values xn = repeat (F32.of_int 0) 128
    /\ values p = repeat (F32.of_int 6) 128
    /\ AttnBlock.forward constant_kernels (attn_block 32)
         (constant_tensor (F32.of_int 2))
       = add constant_kernels xn p
    /\ fmap values
         (AttnBlock.forward constant_kernels (attn_block 32)
            (constant_tensor (F32.of_int 2)))
       = Ok (repeat (F32.of_int 6) 128)
    /\ fmap values (add constant_kernels (constant_tensor (F32.of_int 2)) p)
       = Ok (repeat (F32.of_int 8) 128).
Proof.
  exists (mkTensor (1, 32, 2, 2) (repeat (F32.of_int 0) 128)),
         (mkTensor (1, 32, 2, 2) (repeat (F32.of_int 6) 128)).
  repeat split; vm_compute; reflexivity.
Qed.

(** ** The methods of the model *)

Section Methods.

Variables (VQ : QuantizerClass) (K : Kernels).

(** C6: [forward] returns a reconstruction with residual maps, index
    grids, scales and a loss exactly when the Encoder returns a latent,
    the quantizer returns on it a quantized feature map with these very
    residual maps, index grids, scales and loss, in this order, and the
    Decoder returns the reconstruction on the quantized feature map. *)
Theorem forward_returns_quantizer_outputs (self : VQVAE.t VQ) (x x_hat : Tensor)
  (r_maps : RMaps VQ) (idxs : Idxs VQ) (scales : Scales VQ) (loss : Loss VQ) :
  VQVAE.forward VQ K self x = Ok (x_hat, r_maps, idxs, scales, loss)
  <-> exists f fhat,
        Encoder.forward K (VQVAE.encoder VQ self) x = Ok f
        /\ Quantizer_forward VQ (VQVAE.quantizer VQ self) f
           = Ok (fhat, r_maps, idxs, scales, loss)
        /\ Decoder.forward K (VQVAE.decoder VQ self) fhat = Ok x_hat.
Proof.
  unfold VQVAE.forward. split.
  - intros H.
    apply bind_Ok_inv in H as (f & Hf & H).
    apply bind_Ok_inv in H as ([[[[fhat r] i] s] l] & Hq & H).
    apply bind_Ok_inv in H as (xh & Hd & H).
    injection H as <- <- <- <- <-.
    now exists f, fhat.
  - intros (f & fhat & Hf & Hq & Hd).
    rewrite Hf. cbn [bind]. rewrite Hq. cbn [bind]. rewrite Hd. reflexivity.
Qed.

(** C9: when [forward] returns, [img_to_indices] returns the third
    component of its result; it returns index grids exactly when the
    Encoder returns a latent and the quantizer returns them on it; and its
    result does not depend on the Decoder. *)
Theorem img_to_indices_is_forward_idxs (self : VQVAE.t VQ) (x : Tensor) :
  (forall x_hat r_maps idxs scales loss,
     VQVAE.forward VQ K self x = Ok (x_hat, r_maps, idxs, scales, loss) ->
     VQVAE.img_to_indices VQ K self x = Ok idxs)
  /\ (forall idxs,
        VQVAE.img_to_indices VQ K self x = Ok idxs
        <-> exists f fhat r_maps scales loss,
              Encoder.forward K (VQVAE.encoder VQ self) x = Ok f
              /\ Quantizer_forward VQ (VQVAE.quantizer VQ self) f
                 = Ok (fhat, r_maps, idxs, scales, loss))
  /\ (forall self',
        VQVAE.encoder VQ self' = VQVAE.encoder VQ self ->
        VQVAE.quantizer VQ self' = VQVAE.quantizer VQ self ->
        VQVAE.img_to_indices VQ K self' x = VQVAE.img_to_indices VQ K self x).
Proof.
  unfold VQVAE.forward, VQVAE.img_to_indices. split; [|split].
  - intros x_hat r i s l H.
    apply bind_Ok_inv in H as (f & Hf & H). rewrite Hf. cbn [bind].
    apply bind_Ok_inv in H as ([[[[fhat r'] i'] s'] l'] & Hq & H).
    rewrite Hq. cbn [bind].
    apply bind_Ok_inv in H as (xh & _ & H). now injection H as _ _ <- _ _.
  - intros i. split.
    + intros H.
      apply bind_Ok_inv in H as (f & Hf & H).
      apply bind_Ok_inv in H as ([[[[fhat r] i'] s] l] & Hq & H).
      injection H as <-. now exists f, fhat, r, s, l.
    + intros (f & fhat & r & s & l & Hf & Hq).
      rewrite Hf. cbn [bind]. rewrite Hq. reflexivity.
  - intros self' He Hq. now rewrite He, Hq.
Qed.

(** C7, as stated, fails: on the one-level model with the arithmetic of
    constant tensors, the feature map whose values are all NaN gives a
    raw output of the Decoder that is NaN everywhere, and [to_img]
    returns it as it is: no value of the image lies in [[-1, 1]].  And on
    a feature map of 64 channels, not the 32 of the Configuration,
    [to_img] returns nothing, the Decoder's first convolution raises. *)
Lemma to_img_keeps_nan :
  (exists y,
     VQVAE.init passthrough_quantizer one_level_config = Ok one_level_model
     /\ Decoder.forward constant_kernels
          (VQVAE.decoder passthrough_quantizer one_level_model)
          (constant_tensor S754_nan)
        = Ok (constant_tensor S754_nan)
     /\ VQVAE.to_img passthrough_quantizer constant_kernels one_level_model
          (constant_tensor S754_nan) = Ok y
     /\ values y = repeat S754_nan 128
     /\ Forall (fun v => ~ between (F32.of_int (-1)) (F32.of_int 1) v)
          (values y)
     /\ ~ within (F32.of_int (-1)) (F32.of_int 1) y)
  /\ VQVAE.to_img passthrough_quantizer constant_kernels one_level_model
       (mkTensor (1, 64, 2, 2) (repeat (F32.of_int 0) 256))
     = Raise RuntimeError.
Proof.
  split; [|vm_compute; reflexivity].
  exists (constant_tensor S754_nan).
  split; [reflexivity|]. split; [vm_compute; reflexivity|].
  split; [vm_compute; reflexivity|]. split; [reflexivity|].
  assert (Hn : ~ between (F32.of_int (-1)) (F32.of_int 1) S754_nan).
  { intros [H _]. vm_compute in H. discriminate. }
  split.
  - cbn [constant_tensor values]. apply Forall_forall. intros v Hv.
    apply repeat_spec in Hv. now subst v.
  - intros Hw. unfold within in Hw. cbn [constant_tensor values repeat] in Hw.
    apply Forall_inv in Hw. now apply Hn.
Qed.

(** C7, amended: [to_img] returns whenever the Decoder does, with the
    Decoder's output clamped: the shape is the Decoder's, a value that is
    NaN in the Decoder's output is NaN in the image, and every other
    value of the image lies in [[-1, 1]], infinite values of the
    Decoder's output included; it fails as the Decoder fails, and nothing
    of the model but the Decoder has a part in the result. *)
Theorem to_img_clamped (self : VQVAE.t VQ) (f : Tensor) :
  (forall raw,
     Decoder.forward K (VQVAE.decoder VQ self) f = Ok raw ->
     exists y,
       VQVAE.to_img VQ K self f = Ok y
       /\ shape y = shape raw
       /\ values y
          = map (fun v => F32.min (F32.max v (F32.of_int (-1))) (F32.of_int 1))
              (values raw)
       /\ within_or_nan (F32.of_int (-1)) (F32.of_int 1) y
       /\ same_nans raw y
       /\ (Forall (fun v => F32.is_nan v = false) (values raw) ->
           within (F32.of_int (-1)) (F32.of_int 1) y))
  /\ (forall e,
        Decoder.forward K (VQVAE.decoder VQ self) f = Raise e ->
        VQVAE.to_img VQ K self f = Raise e)
  /\ (forall self',
        VQVAE.decoder VQ self' = VQVAE.decoder VQ self ->
        VQVAE.to_img VQ K self' f = VQVAE.to_img VQ K self f).
Proof.
  unfold VQVAE.to_img. split; [|split].
  - intros raw Hraw. exists (clamp (F32.of_int (-1)) (F32.of_int 1) raw).
    rewrite Hraw. cbn [bind].
    destruct (clamp_within_or_nan (F32.of_int (-1)) (F32.of_int 1) raw)
      as [Hw Hs]; try reflexivity.
    repeat split; try assumption.
    intros Hnn. now apply clamp_within.
  - intros e He. now rewrite He.
  - intros self' ->. reflexivity.
Qed.

End Methods.

(** The methods on the one-level model, with the arithmetic of constant
    tensors: the Decoder's raw output is 3 everywhere. *)
Lemma one_level_model_built :
  VQVAE.init passthrough_quantizer one_level_config = Ok one_level_model.
Proof. reflexivity. Defined.

Lemma one_level_decoder_raw :
  Decoder.forward constant_kernels
    (VQVAE.decoder passthrough_quantizer one_level_model)
    (constant_tensor (F32.of_int 5))
  = Ok (constant_tensor (F32.of_int 3)).
Proof. vm_compute. reflexivity. Defined.

Lemma one_level_encoder_latent :
  Encoder.forward constant_kernels
    (VQVAE.encoder passthrough_quantizer one_level_model)
    (constant_tensor (F32.of_int 5))
  = Ok (constant_tensor (F32.of_int 3)).
Proof. vm_compute. reflexivity. Defined.

Lemma forward_returns_quantizer_outputs_example :
  let f := constant_tensor (F32.of_int 3) in
  Quantizer_forward passthrough_quantizer
    (VQVAE.quantizer passthrough_quantizer one_level_model) f
  = Ok (f, [f; f], [f; f], [1; 2], F32.of_int 0)
  /\ VQVAE.forward passthrough_quantizer constant_kernels one_level_model
       (constant_tensor (F32.of_int 5))
     = Ok (f, [f; f], [f; f], [1; 2], F32.of_int 0).
Proof.
  intros f. split; [reflexivity|].
  apply (proj2 (forward_returns_quantizer_outputs passthrough_quantizer
                  constant_kernels one_level_model
                  (constant_tensor (F32.of_int 5))
                  f [f; f] [f; f] [1; 2] (F32.of_int 0))).
  exists f, f. split; [exact one_level_encoder_latent|].
  split; [reflexivity|]. vm_compute. reflexivity.
Defined.

Lemma img_to_indices_is_forward_idxs_example :
  let f := constant_tensor (F32.of_int 3) in
  VQVAE.forward passthrough_quantizer constant_kernels one_level_model
    (constant_tensor (F32.of_int 5))
  = Ok (f, [f; f], [f; f], [1; 2], F32.of_int 0)
  /\ VQVAE.img_to_indices passthrough_quantizer constant_kernels
       one_level_model (constant_tensor (F32.of_int 5))
     = Ok [f; f].
Proof.
  intros f.
  assert (H : VQVAE.forward passthrough_quantizer constant_kernels
                one_level_model (constant_tensor (F32.of_int 5))
              = Ok (f, [f; f], [f; f], [1; 2], F32.of_int 0))
    by (vm_compute; reflexivity).
  split; [exact H|].
  exact (proj1 (img_to_indices_is_forward_idxs passthrough_quantizer
                  constant_kernels one_level_model
                  (constant_tensor (F32.of_int 5)))
           f [f; f] [f; f] [1; 2] (F32.of_int 0) H).
Defined.

(** The raw output 3 is clamped to 1. *)
Lemma to_img_clamped_example :
  exists y,
    VQVAE.to_img passthrough_quantizer constant_kernels one_level_model
      (constant_tensor (F32.of_int 5)) = Ok y
    /\ shape y = (1, 32, 2, 2)
    /\ values y = repeat (F32.of_int 1) 128
    /\ within_or_nan (F32.of_int (-1)) (F32.of_int 1) y
    /\ within (F32.of_int (-1)) (F32.of_int 1) y.
Proof.
  destruct (proj1 (to_img_clamped passthrough_quantizer constant_kernels
                     one_level_model (constant_tensor (F32.of_int 5)))
              _ one_level_decoder_raw)
    as (y & Hy & Hs & Hv & Hw & _ & Hin).
  exists y. split; [exact Hy|]. split; [exact Hs|].
  split; [rewrite Hv; vm_compute; reflexivity|]. split; [exact Hw|].
  apply Hin. apply Forall_forall. intros v Hv'.
  apply repeat_spec in Hv'. now subst v.
Defined.

(** ** What the constructors check *)

Lemma sim_bind {A B : Type} (R : A -> A -> Prop) (Q : B -> B -> Prop)
  (r1 r2 : result A) (k1 k2 : A -> result B) :
  sim R r1 r2 ->
  (forall a1 a2, R a1 a2 -> sim Q (k1 a1) (k2 a2)) ->
  sim Q (bind r1 k1) (bind r2 k2).
Proof.
  destruct r1 as [a1|e1], r2 as [a2|e2]; simpl; intros H Hk;
    try contradiction; auto.
Qed.

Lemma sim_refl {A : Type} (R : A -> A -> Prop) (r : result A) :
  (forall a, R a a) -> sim R r r.
Proof. intros HR. destruct r; simpl; auto. Qed.

Lemma sim_outcome {A : Type} (R : A -> A -> Prop) (r1 r2 : result A) :
  sim R r1 r2 -> outcome r1 = outcome r2.
Proof.
  destruct r1, r2; simpl; intros H; try contradiction; congruence.
Qed.

(** A loop run from two related states, the body keeping them related. *)
Lemma for_sim {A S : Type} (R : S -> S -> Prop) (xs : list A)
  (body1 body2 : A -> S -> result S) (s1 s2 : S) :
  R s1 s2 ->
  (forall x t1 t2, R t1 t2 -> sim R (body1 x t1) (body2 x t2)) ->
  sim R (for_ xs body1 s1) (for_ xs body2 s2).
Proof.
  intros H0 Hbody. revert s1 s2 H0.
  induction xs as [|x xs IH]; intros s1 s2 H0; simpl; [assumption|].
  apply (sim_bind R R); [now apply Hbody | exact IH].
Qed.

Lemma Encoder_init_level_sim (ch : Z) (ch_mult in_ch_mult : list Z)
  (L n i : Z) (s1 s2 : Z * Z * list (Level.t Downsample.t)) :
  same_but_res s1 s2 ->
  sim same_but_res
    (Encoder.init_level ch ch_mult in_ch_mult L n i s1)
    (Encoder.init_level ch ch_mult in_ch_mult L n i s2).
Proof.
  destruct s1 as [[b1 c1] d1], s2 as [[b2 c2] d2].
  intros [Hb Hd]. cbn [fst snd] in Hb, Hd. subst b2 d2.
  unfold Encoder.init_level.
  destruct (index in_ch_mult i) as [m_in|e]; [|reflexivity]. cbn [bind].
  destruct (index ch_mult i) as [m_out|e]; [|reflexivity]. cbn [bind].
  destruct (append_blocks _ _ _) as [[blk bi]|e]; [|reflexivity]. cbn [bind].
  destruct (negb _); [|now split].
  destruct (Downsample.init bi) as [d|e]; [|reflexivity]. now split.
Qed.

Lemma Decoder_init_level_sim (ch : Z) (ch_mult : list Z)
  (n i : Z) (s1 s2 : Z * Z * list (Level.t Upsample.t)) :
  same_but_res s1 s2 ->
  sim same_but_res
    (Decoder.init_level ch ch_mult n i s1)
    (Decoder.init_level ch ch_mult n i s2).
Proof.
  destruct s1 as [[b1 c1] d1], s2 as [[b2 c2] d2].
  intros [Hb Hd]. cbn [fst snd] in Hb, Hd. subst b2 d2.
  unfold Decoder.init_level.
  destruct (index ch_mult i) as [m_out|e]; [|reflexivity]. cbn [bind].
  destruct (append_blocks _ _ _) as [[blk bi]|e]; [|reflexivity]. cbn [bind].
  destruct (negb _); [|now split].
  destruct (Upsample.init bi) as [d|e]; [|reflexivity]. now split.
Qed.

(** The constructors of the Encoder and of the Decoder come to the same
    whatever the resolution. *)
Lemma Encoder_init_any_resolution (r1 r2 in_channels ch : Z)
  (ch_mult : list Z) (n z : Z) :
  outcome (Encoder.init r1 in_channels ch ch_mult n z)
  = outcome (Encoder.init r2 in_channels ch ch_mult n z).
Proof.
  apply (sim_outcome (fun _ _ => True)). unfold Encoder.init. cbv zeta.
  apply (sim_bind eq); [now apply sim_refl|]. intros conv_in _ <-.
  eapply sim_bind.
  - apply (for_sim same_but_res); [now split|].
    intros. now apply Encoder_init_level_sim.
  - intros [[b1 c1] d1] [[b2 c2] d2] [Hb Hd].
    cbn [fst snd] in Hb, Hd. subst b2 d2.
    destruct (Mid.init b1); [|reflexivity]. cbn [bind].
    destruct (GroupNorm.init 32 b1 eps_1e_6); [|reflexivity]. cbn [bind].
    destruct (Conv2d.init b1 z 3 1 1); [|reflexivity]. exact I.
Qed.

Lemma Decoder_init_any_resolution (r1 r2 ch out_ch : Z) (ch_mult : list Z)
  (n in_channels z : Z) :
  outcome (Decoder.init ch out_ch ch_mult n in_channels r1 z)
  = outcome (Decoder.init ch out_ch ch_mult n in_channels r2 z).
Proof.
  apply (sim_outcome (fun _ _ => True)). unfold Decoder.init. cbv zeta.
  apply (sim_bind eq); [now apply sim_refl|]. intros m_last _ <-.
  apply (sim_bind eq); [now apply sim_refl|]. intros conv_in _ <-.
  apply (sim_bind eq); [now apply sim_refl|]. intros mid _ <-.
  eapply sim_bind.
  - apply (for_sim same_but_res); [now split|].
    intros. now apply Decoder_init_level_sim.
  - intros [[b1 c1] d1] [[b2 c2] d2] [Hb Hd].
    cbn [fst snd] in Hb, Hd. subst b2 d2.
    destruct (GroupNorm.init 32 b1 eps_1e_6); [|reflexivity]. cbn [bind].
    destruct (Conv2d.init b1 out_ch 3 1 1); [|reflexivity]. exact I.
Qed.

Lemma outcome_bind {A B : Type} (r1 r2 : result A) (k1 k2 : A -> result B) :
  outcome r1 = outcome r2 ->
  (forall a1 a2, outcome (k1 a1) = outcome (k2 a2)) ->
  outcome (bind r1 k1) = outcome (bind r2 k2).
Proof.
  destruct r1, r2; simpl; intros H Hk; try discriminate; auto.
Qed.

(** C3, as the spec states it, fails: a resolution of 250 with four
    levels is not divisible by 8, and the Encoder, the Decoder and the
    model are built all the same. *)
Lemma construction_accepts_indivisible_resolution :
  resolution indivisible_config mod 2 ^ (len (ch_mult indivisible_config) - 1)
    <> 0
  /\ is_ok (Encoder_of indivisible_config) = true
  /\ is_ok (Decoder_of indivisible_config) = true
  /\ is_ok (VQVAE.init passthrough_quantizer indivisible_config) = true.
Proof. repeat split; vm_compute; congruence. Qed.

(** Nor does [forward] notice: on a (1, 3, 250, 250) image the model of
    that Configuration returns a reconstruction of shape (1, 3, 248, 248),
    the latent being 31 by 31. *)
Lemma indivisible_resolution_reconstruction :
  fmap (fun out => shape (fst (fst (fst (fst out)))))
    (model <- VQVAE.init passthrough_quantizer indivisible_config ;;
     VQVAE.forward passthrough_quantizer null_kernels model
       (mkTensor (1, 3, 250, 250) []))
  = Ok (1, 3, 248, 248).
Proof. vm_compute. reflexivity. Qed.

(** C3, amended: a Configuration with no level fails at construction, the
    Decoder's constructor raising [IndexError] when it reads the last
    multiplier; the resolution is not checked, the constructor of the
    model comes to the same, a model or the same exception, whatever the
    resolution. *)
Theorem construction_checks (VQ : QuantizerClass) (c : VQVAEConfig) :
  (ch_mult c = [] ->
   Decoder_of c = Raise IndexError /\ is_ok (VQVAE.init VQ c) = false)
  /\ (forall r,
        outcome (VQVAE.init VQ (with_resolution r c))
        = outcome (VQVAE.init VQ c)).
Proof.
  split.
  - intros Hnil.
    assert (Hd : Decoder_of c = Raise IndexError).
    { unfold Decoder_of, Decoder.init. rewrite Hnil. cbv zeta.
      now rewrite index_empty. }
    split; [exact Hd|]. unfold VQVAE.init. fold (Encoder_of c).
    destruct (Encoder_of c); [|reflexivity]. cbn [bind].
    fold (Decoder_of c). now rewrite Hd.
  - intros r. unfold VQVAE.init. cbn [with_resolution resolution in_channels
      dim ch_mult num_res_blocks z_channels out_ch vocab_size patch_sizes].
    apply outcome_bind; [apply Encoder_init_any_resolution|]. intros e1 e2.
    apply outcome_bind; [apply Decoder_init_any_resolution|]. intros d1 d2.
    now destruct (Quantizer_init VQ _ _ _).
Qed.

Lemma construction_checks_example :
  Decoder_of no_level_config = Raise IndexError
  /\ is_ok (VQVAE.init passthrough_quantizer no_level_config) = false.
Proof.
  exact (proj1 (construction_checks passthrough_quantizer no_level_config)
           eq_refl).
Defined.

(** ** The normalizations and the widths *)

Lemma for_inv_partial {A S : Type} (Inv : S -> Prop) (xs : list A)
  (body : A -> S -> result S) (s s' : S) :
  Inv s ->
  (forall x t t', Inv t -> body x t = Ok t' -> Inv t') ->
  for_ xs body s = Ok s' -> Inv s'.
Proof.
  intros H0 Hbody. revert s H0.
  induction xs as [|x xs IH]; intros s H0 Hrun; simpl in Hrun.
  - now injection Hrun as <-.
  - apply bind_Ok_inv in Hrun as (t & Ht & Hrun).
    apply (IH t); [now apply (Hbody x s) | assumption].
Qed.

(** A loop that returns has run its body, with a return, on every
    element. *)
Lemma for_Ok_Forall {A S : Type} (P : A -> Prop) (xs : list A)
  (body : A -> S -> result S) (s s' : S) :
  (forall x t t', body x t = Ok t' -> P x) ->
  for_ xs body s = Ok s' -> Forall P xs.
Proof.
  intros Hbody. revert s.
  induction xs as [|x xs IH]; intros s Hrun; simpl in Hrun; [constructor|].
  apply bind_Ok_inv in Hrun as (t & Ht & Hrun).
  constructor; [now apply (Hbody x s t) | now apply (IH t)].
Qed.

Lemma GroupNorm_init_inv (c : Z) (e : Q) (g : GroupNorm.t) :
  GroupNorm.init 32 c e = Ok g -> g = GroupNorm.mk 32 c e /\ c mod 32 = 0.
Proof.
  unfold GroupNorm.init.
  destruct (Z.eqb_spec (c mod 32) 0) as [Hm|]; cbn [negb]; [|discriminate].
  destruct (c <? 0); [discriminate|]. now intros [= <-].
Qed.

Lemma GroupNorm_init_norm32 (c : Z) (e : Q) (g : GroupNorm.t) :
  GroupNorm.init 32 c e = Ok g -> norm32 g.
Proof.
  intros H. apply GroupNorm_init_inv in H as [-> Hm]. now split.
Qed.

Lemma ResnetBlock_init_inv (cin : Z) (oc : option Z) (b : ResnetBlock.t) :
  ResnetBlock.init cin oc = Ok b ->
  Forall norm32 (ResnetBlock_norms b)
  /\ cin mod 32 = 0
  /\ (match oc with None => cin | Some c => c end) mod 32 = 0.
Proof.
  unfold ResnetBlock.init. intros H.
  apply bind_Ok_inv in H as (n1 & Hn1 & H).
  apply bind_Ok_inv in H as (c1 & Hc1 & H).
  apply bind_Ok_inv in H as (n2 & Hn2 & H).
  apply bind_Ok_inv in H as (c2 & Hc2 & H).
  assert (Hb : ResnetBlock.norm1 b = n1 /\ ResnetBlock.norm2 b = n2).
  { destruct (negb _).
    - apply bind_Ok_inv in H as (sc & _ & H). now injection H as <-.
    - now injection H as <-. }
  destruct Hb as [E1 E2]. unfold ResnetBlock_norms. rewrite E1, E2.
  pose proof (GroupNorm_init_norm32 _ _ _ Hn1).
  pose proof (GroupNorm_init_norm32 _ _ _ Hn2).
  apply GroupNorm_init_inv in Hn1 as [_ ?].
  apply GroupNorm_init_inv in Hn2 as [_ ?].
  repeat split; auto.
Qed.

Lemma AttnBlock_init_inv (c : Z) (a : AttnBlock.t) :
  AttnBlock.init c = Ok a -> Forall norm32 (AttnBlock_norms a).
Proof.
  unfold AttnBlock.init. intros H.
  apply bind_Ok_inv in H as (n & Hn & H).
  apply bind_Ok_inv in H as (q & _ & H).
  apply bind_Ok_inv in H as (k & _ & H).
  apply bind_Ok_inv in H as (v & _ & H).
  apply bind_Ok_inv in H as (p & _ & H).
  injection H as <-. unfold AttnBlock_norms. cbn.
  constructor; [|constructor]. now apply GroupNorm_init_norm32 in Hn.
Qed.

Lemma Mid_init_inv (c : Z) (m : Mid.t) :
  Mid.init c = Ok m -> Forall norm32 (Mid_norms m).
Proof.
  unfold Mid.init. intros H.
  apply bind_Ok_inv in H as (b1 & Hb1 & H).
  apply bind_Ok_inv in H as (a & Ha & H).
  apply bind_Ok_inv in H as (b2 & Hb2 & H).
  injection H as <-. unfold Mid_norms. cbn [Mid.block_1 Mid.attn_1 Mid.block_2].
  apply ResnetBlock_init_inv in Hb1 as [Hb1 _].
  apply ResnetBlock_init_inv in Hb2 as [Hb2 _].
  apply AttnBlock_init_inv in Ha.
  repeat (apply Forall_app; split); assumption.
Qed.

Lemma append_blocks_norms (n cout : Z) (blk blk' : list ResnetBlock.t)
  (bi bi' : Z) :
  append_blocks n cout (blk, bi) = Ok (blk', bi') ->
  Forall norm32 (flat_map ResnetBlock_norms blk) ->
  Forall norm32 (flat_map ResnetBlock_norms blk').
Proof.
  unfold append_blocks. intros Hrun H0.
  apply (for_inv_partial
           (fun st => Forall norm32 (flat_map ResnetBlock_norms (fst st))))
    in Hrun; [exact Hrun | exact H0 |].
  intros _ [b c] t' Ht Hbody. cbn [fst] in Ht.
  apply bind_Ok_inv in Hbody as (rb & Hrb & Hbody). injection Hbody as <-.
  cbn [fst]. rewrite flat_map_app. apply Forall_app. split; [assumption|].
  cbn [flat_map]. rewrite app_nil_r.
  now apply ResnetBlock_init_inv in Hrb as [? _].
Qed.

(** With at least one block to append, the first one is built from the
    channels that enter the level to those that leave it. *)
Lemma append_blocks_widths (n cout : Z) (blk : list ResnetBlock.t) (bi : Z)
  (r : list ResnetBlock.t * Z) :
  1 <= n -> append_blocks n cout (blk, bi) = Ok r ->
  bi mod 32 = 0 /\ cout mod 32 = 0.
Proof.
  intros Hn. unfold append_blocks, range.
  destruct (Z.to_nat n) as [|k] eqn:Ek; [lia|].
  simpl. intros Hrun.
  apply bind_Ok_inv in Hrun as (t & Ht & _).
  apply bind_Ok_inv in Ht as (rb & Hrb & _).
  now apply ResnetBlock_init_inv in Hrb as (_ & ? & ?).
Qed.

Lemma Level_norms_mk {R : Type} (block : list ResnetBlock.t) (r : option R) :
  Level_norms (Level.mk block [] r) = flat_map ResnetBlock_norms block.
Proof.
  unfold Level_norms. cbn [Level.block Level.attn flat_map].
  now rewrite app_nil_r.
Qed.

Lemma Encoder_init_level_norms (ch : Z) (ch_mult in_ch_mult : list Z)
  (L n i : Z) (st st' : Z * Z * list (Level.t Downsample.t)) :
  Encoder.init_level ch ch_mult in_ch_mult L n i st = Ok st' ->
  Forall norm32 (flat_map Level_norms (snd st)) ->
  Forall norm32 (flat_map Level_norms (snd st')).
Proof.
  destruct st as [[b c] d]. unfold Encoder.init_level. intros H H0.
  cbn [snd] in H0.
  apply bind_Ok_inv in H as (m_in & _ & H).
  apply bind_Ok_inv in H as (m_out & _ & H).
  apply bind_Ok_inv in H as ([blk bi] & Hblk & H).
  apply append_blocks_norms in Hblk; [|constructor].
  assert (Hd : exists r, snd st' = d ++ [Level.mk blk [] r]).
  { destruct (negb _).
    - apply bind_Ok_inv in H as (ds & _ & H). injection H as <-.
      now eexists.
    - injection H as <-. now eexists. }
  destruct Hd as (r & ->). rewrite flat_map_app. apply Forall_app.
  split; [assumption|]. cbn [flat_map]. now rewrite app_nil_r, Level_norms_mk.
Qed.

Lemma Decoder_init_level_norms (ch : Z) (ch_mult : list Z)
  (n i : Z) (st st' : Z * Z * list (Level.t Upsample.t)) :
  Decoder.init_level ch ch_mult n i st = Ok st' ->
  Forall norm32 (flat_map Level_norms (snd st)) ->
  Forall norm32 (flat_map Level_norms (snd st')).
Proof.
  destruct st as [[b c] d]. unfold Decoder.init_level. intros H H0.
  cbn [snd] in H0.
  apply bind_Ok_inv in H as (m_out & _ & H).
  apply bind_Ok_inv in H as ([blk bi] & Hblk & H).
  apply append_blocks_norms in Hblk; [|constructor].
  assert (Hd : exists r, snd st' = Level.mk blk [] r :: d).
  { destruct (negb _).
    - apply bind_Ok_inv in H as (us & _ & H). injection H as <-.
      now eexists.
    - injection H as <-. now eexists. }
  destruct Hd as (r & ->). cbn [flat_map]. apply Forall_app.
  split; [now rewrite Level_norms_mk | assumption].
Qed.

Lemma Encoder_init_norms (r i ch : Z) (ch_mult : list Z) (n z : Z)
  (enc : Encoder.t) :
  Encoder.init r i ch ch_mult n z = Ok enc -> Forall norm32 (Encoder_norms enc).
Proof.
  unfold Encoder.init. cbv zeta. intros H.
  apply bind_Ok_inv in H as (conv_in & _ & H).
  apply bind_Ok_inv in H as ([[bi cr] down] & Hloop & H).
  apply bind_Ok_inv in H as (mid & Hmid & H).
  apply bind_Ok_inv in H as (norm_out & Hn & H).
  apply bind_Ok_inv in H as (conv_out & _ & H).
  injection H as <-. unfold Encoder_norms.
  cbn [Encoder.down Encoder.mid Encoder.norm_out].
  apply Forall_app; split; [|apply Forall_app; split].
  - apply (for_inv_partial
             (fun st => Forall norm32 (flat_map Level_norms (snd st))))
      in Hloop; [exact Hloop | constructor |].
    intros x t t' Ht Hbody. exact (Encoder_init_level_norms _ _ _ _ _ _ _ _ Hbody Ht).
  - now apply Mid_init_inv in Hmid.
  - constructor; [|constructor]. now apply GroupNorm_init_norm32 in Hn.
Qed.

Lemma Decoder_init_norms (ch o : Z) (ch_mult : list Z) (n i r z : Z)
  (dec : Decoder.t) :
  Decoder.init ch o ch_mult n i r z = Ok dec -> Forall norm32 (Decoder_norms dec).
Proof.
  unfold Decoder.init. cbv zeta. intros H.
  apply bind_Ok_inv in H as (m_last & _ & H).
  apply bind_Ok_inv in H as (conv_in & _ & H).
  apply bind_Ok_inv in H as (mid & Hmid & H).
  apply bind_Ok_inv in H as ([[bi cr] up] & Hloop & H).
  apply bind_Ok_inv in H as (norm_out & Hn & H).
  apply bind_Ok_inv in H as (conv_out & _ & H).
  injection H as <-. unfold Decoder_norms.
  cbn [Decoder.up Decoder.mid Decoder.norm_out].
  apply Forall_app; split; [|apply Forall_app; split].
  - now apply Mid_init_inv in Hmid.
  - apply (for_inv_partial
             (fun st => Forall norm32 (flat_map Level_norms (snd st))))
      in Hloop; [exact Hloop | constructor |].
    intros x t t' Ht Hbody. exact (Decoder_init_level_norms _ _ _ _ _ _ Hbody Ht).
  - constructor; [|constructor]. now apply GroupNorm_init_norm32 in Hn.
Qed.

Lemma in_range (i L : nat) : (i < L)%nat -> In (Z.of_nat i) (range (Z.of_nat L)).
Proof.
  intros Hi. unfold range. rewrite Nat2Z.id.
  apply in_map, in_seq. lia.
Qed.

(** A Decoder that is built has, at every level, a first block whose
    output width 32 divides. *)
Lemma Decoder_init_widths (ch o : Z) (ch_mult : list Z) (n i r z : Z)
  (dec : Decoder.t) :
  0 <= n ->
  Decoder.init ch o ch_mult n i r z = Ok dec ->
  ch_mult <> [] /\ Forall (fun m => (ch * m) mod 32 = 0) ch_mult.
Proof.
  intros Hn. unfold Decoder.init. cbv zeta. intros H.
  apply bind_Ok_inv in H as (m_last & Hlast & H).
  apply bind_Ok_inv in H as (conv_in & _ & H).
  apply bind_Ok_inv in H as (mid & _ & H).
  apply bind_Ok_inv in H as (st & Hloop & _).
  split.
  { intros E. rewrite E, index_empty in Hlast. discriminate. }
  apply (for_Ok_Forall
           (fun j => forall m, index ch_mult j = Ok m -> (ch * m) mod 32 = 0))
    in Hloop.
  - apply Forall_forall. intros m Hm.
    destruct (In_nth ch_mult m 0 Hm) as (k & Hk & Ek).
    rewrite Forall_forall in Hloop.
    apply (Hloop (Z.of_nat k)).
    + unfold reversed. apply -> in_rev. now apply in_range.
    + rewrite (index_nth ch_mult k 0 Hk). now rewrite Ek.
  - intros j [[b c] d] t' Hbody m Hm. unfold Decoder.init_level in Hbody.
    rewrite Hm in Hbody. cbn [bind] in Hbody.
    apply bind_Ok_inv in Hbody as (blk & Hblk & _).
    apply append_blocks_widths in Hblk as [_ ?]; [assumption | lia].
Qed.

(** An Encoder that is built with at least one block a level has a first
    block whose input width, [ch] times the leading 1, 32 divides. *)
Lemma Encoder_init_dim (r i ch : Z) (ch_mult : list Z) (n z : Z)
  (enc : Encoder.t) :
  1 <= n -> ch_mult <> [] ->
  Encoder.init r i ch ch_mult n z = Ok enc -> ch mod 32 = 0.
Proof.
  intros Hn Hne. unfold Encoder.init. cbv zeta. intros H.
  apply bind_Ok_inv in H as (conv_in & _ & H).
  apply bind_Ok_inv in H as (st & Hloop & _).
  apply (for_Ok_Forall (fun j => j = 0 -> (ch * 1) mod 32 = 0)) in Hloop.
  - rewrite Forall_forall in Hloop. rewrite <- (Z.mul_1_r ch).
    apply (Hloop 0); [|reflexivity].
    apply (in_range 0 (length ch_mult)).
    destruct ch_mult; [congruence | simpl; lia].
  - intros j [[b c] d] t' Hbody ->. unfold Encoder.init_level in Hbody.
    change (index (1 :: ch_mult) 0) with (Ok 1) in Hbody; cbn [bind] in Hbody.
    apply bind_Ok_inv in Hbody as (m_out & _ & Hbody).
    apply bind_Ok_inv in Hbody as (blk & Hblk & _).
    apply append_blocks_widths in Hblk as [? _]; assumption.
Qed.

Lemma for_snoc {A S : Type} (xs : list A) (x : A)
  (body : A -> S -> result S) (s : S) :
  for_ (xs ++ [x]) body s = (t <- for_ xs body s ;; body x t).
Proof.
  revert s. induction xs as [|y ys IH]; intros s; simpl.
  - now destruct (body x s).
  - destruct (body y s) as [t|e]; simpl; [apply IH | reflexivity].
Qed.

Lemma range_S (n : nat) :
  range (Z.of_nat (S n)) = range (Z.of_nat n) ++ [Z.of_nat n].
Proof.
  unfold range. rewrite !Nat2Z.id, seq_S, map_app. reflexivity.
Qed.

Lemma Mid_init_width (c : Z) (m : Mid.t) : Mid.init c = Ok m -> c mod 32 = 0.
Proof.
  unfold Mid.init. intros H.
  apply bind_Ok_inv in H as (b1 & Hb1 & _).
  now apply ResnetBlock_init_inv in Hb1 as (_ & ? & _).
Qed.

(** A Decoder that is built has a bottleneck on the channels of the last
    level, which 32 divides. *)
Lemma Decoder_init_last (ch o : Z) (ch_mult : list Z) (n i r z : Z)
  (dec : Decoder.t) :
  Decoder.init ch o ch_mult n i r z = Ok dec ->
  ch_mult <> [] /\ width_last ch ch_mult mod 32 = 0.
Proof.
  unfold Decoder.init. cbv zeta. intros H.
  apply bind_Ok_inv in H as (m_last & Hlast & H).
  apply bind_Ok_inv in H as (conv_in & _ & H).
  apply bind_Ok_inv in H as (mid & Hmid & _).
  assert (Hne : ch_mult <> []).
  { intros E. rewrite E, index_empty in Hlast. discriminate. }
  split; [exact Hne|].
  assert (HL : (0 < length ch_mult)%nat)
    by (destruct ch_mult; [congruence | simpl; lia]).
  replace (len ch_mult - 1) with (Z.of_nat (length ch_mult - 1)) in Hlast
    by (unfold len; lia).
  rewrite (index_nth ch_mult (length ch_mult - 1) 0) in Hlast by lia.
  injection Hlast as <-. now apply Mid_init_width in Hmid.
Qed.

(** An Encoder that is built without blocks in its levels has a
    bottleneck on the channels that enter its last level, which 32
    divides. *)
Lemma Encoder_init_entry (r i ch : Z) (ch_mult : list Z) (n z : Z)
  (enc : Encoder.t) :
  n <= 0 -> ch_mult <> [] ->
  Encoder.init r i ch ch_mult n z = Ok enc ->
  width_in ch ch_mult (length ch_mult - 1) mod 32 = 0.
Proof.
  intros Hn Hne. unfold Encoder.init. cbv zeta. intros H.
  apply bind_Ok_inv in H as (conv_in & _ & H).
  apply bind_Ok_inv in H as ([[bi cr] down] & Hloop & H).
  apply bind_Ok_inv in H as (mid & Hmid & _).
  apply Mid_init_width in Hmid.
  destruct (length ch_mult) as [|L'] eqn:EL;
    [destruct ch_mult; [congruence | discriminate]|].
  unfold len in Hloop. rewrite EL, range_S, for_snoc in Hloop.
  apply bind_Ok_inv in Hloop as ([[b0 c0] d0] & _ & Hbody).
  unfold Encoder.init_level in Hbody.
  rewrite (index_nth (1 :: ch_mult) L' 0) in Hbody by (simpl; lia).
  cbn [bind] in Hbody.
  apply bind_Ok_inv in Hbody as (m_out & _ & Hbody).
  rewrite append_blocks_none in Hbody by assumption. cbn [bind] in Hbody.
  replace (S L' - 1)%nat with L' by lia. unfold width_in.
  destruct (negb _).
  - apply bind_Ok_inv in Hbody as (ds & _ & Hbody). now injection Hbody as <- _ _.
  - now injection Hbody as <- _ _.
Qed.

(** C8, as stated, fails where a level has no block.  With a base width
    of 16, two levels of multiplier 2 and [num_res_blocks] 0, the Encoder
    and the Decoder are built, and 32 does not divide 16 times the leading
    1.  With [num_res_blocks] -1 and the multipliers 1, 2 and 2 they are
    built too, and 32 does not divide 16 times the first multiplier. *)
Lemma blockless_pair_builds :
  (dim blockless_config * 1 mod 32 <> 0
   /\ is_ok (Encoder_of blockless_config) = true
   /\ is_ok (Decoder_of blockless_config) = true)
  /\ (dim blockless_decoder_config * nth 0 (ch_mult blockless_decoder_config) 0
        mod 32 <> 0
      /\ is_ok (Encoder_of blockless_decoder_config) = true
      /\ is_ok (Decoder_of blockless_decoder_config) = true).
Proof. repeat split; vm_compute; congruence. Qed.

(** C8, amended: every normalization of a built Encoder and of a built
    Decoder has 32 groups and channels that 32 divides; and the pair is
    built only if 32 divides [dim] times the last multiplier, every
    [dim * ch_mult[i]] when [num_res_blocks >= 0], [dim] itself when
    [num_res_blocks >= 1] or there is a single level, and, when
    [num_res_blocks <= 0], [dim] times the multiplier that enters the
    last level, [(1 :: ch_mult)[L-1]]. *)
Theorem normalization_widths (c : VQVAEConfig) :
  (forall enc, Encoder_of c = Ok enc -> Forall norm32 (Encoder_norms enc))
  /\ (forall dec, Decoder_of c = Ok dec -> Forall norm32 (Decoder_norms dec))
  /\ (is_ok (Encoder_of c) = true -> is_ok (Decoder_of c) = true ->
      last_width c mod 32 = 0
      /\ (0 <= num_res_blocks c ->
          Forall (fun m => (dim c * m) mod 32 = 0) (ch_mult c))
      /\ (1 <= num_res_blocks c \/ length (ch_mult c) = 1%nat ->
          dim c mod 32 = 0)
      /\ (num_res_blocks c <= 0 -> entry_width c mod 32 = 0)).
Proof.
  split; [|split].
  - intros enc H. exact (Encoder_init_norms _ _ _ _ _ _ _ H).
  - intros dec H. exact (Decoder_init_norms _ _ _ _ _ _ _ _ H).
  - intros He Hd.
    destruct (Encoder_of c) as [enc|] eqn:Ee; [|discriminate].
    destruct (Decoder_of c) as [dec|] eqn:Ed; [|discriminate].
    destruct (Decoder_init_last _ _ _ _ _ _ _ _ Ed) as [Hne Hlast].
    split; [exact Hlast|]. split; [|split].
    + intros Hn. exact (proj2 (Decoder_init_widths _ _ _ _ _ _ _ _ Hn Ed)).
    + intros Hn.
      destruct (Z_le_gt_dec 1 (num_res_blocks c)) as [H1|H0].
      * exact (Encoder_init_dim _ _ _ _ _ _ _ H1 Hne Ee).
      * destruct Hn as [Hn|HL]; [lia|].
        assert (Hn0 : num_res_blocks c <= 0) by lia.
        pose proof (Encoder_init_entry _ _ _ _ _ _ _ Hn0 Hne Ee) as H.
        rewrite HL in H. unfold width_in in H. cbn [Nat.sub nth] in H.
        now rewrite Z.mul_1_r in H.
    + intros Hn. exact (Encoder_init_entry _ _ _ _ _ _ _ Hn Hne Ee).
Qed.

Lemma normalization_widths_example :
  Forall norm32 (Encoder_norms (VQVAE.encoder passthrough_quantizer
                                  one_level_model))
  /\ last_width example_config mod 32 = 0
  /\ Forall (fun m => (dim example_config * m) mod 32 = 0)
       (ch_mult example_config)
  /\ dim example_config mod 32 = 0
  /\ entry_width (with_widths 32 [1; 1] 0 example_config) mod 32 = 0.
Proof.
  split; [exact (proj1 (normalization_widths one_level_config) _ eq_refl)|].
  destruct (proj2 (proj2 (normalization_widths example_config))
              eq_refl eq_refl) as (H1 & H2 & H3 & _).
  split; [exact H1|]. split; [apply H2; cbn; lia|].
  split; [apply H3; left; cbn; lia|].
  apply (proj2 (proj2 (normalization_widths
                         (with_widths 32 [1; 1] 0 example_config)))
           eq_refl eq_refl).
  cbn. lia.
Defined.

(** * Further properties of the blocks *)

(** ** Which exceptions a call can raise *)

Lemma raises_only_Ok {A : Type} (P : exn -> Prop) (a : A) :
  raises_only P (Ok a).
Proof. intros e H. discriminate. Qed.

Lemma raises_only_Raise {A : Type} (P : exn -> Prop) (e : exn) :
  P e -> raises_only P (@Raise A e).
Proof. intros He e' [= <-]. exact He. Qed.

Lemma raises_only_bind {A B : Type} (P : exn -> Prop) (r : result A)
  (k : A -> result B) :
  raises_only P r -> (forall a, r = Ok a -> raises_only P (k a)) ->
  raises_only P (bind r k).
Proof.
  intros Hr Hk. destruct r as [a|e]; simpl.
  - now apply Hk.
  - apply raises_only_Raise. now apply Hr.
Qed.


Lemma GroupNorm_forward_raises (K : Kernels) (g : GroupNorm.t) (x : Tensor) :
  raises_only library_error (GroupNorm.forward K g x).
Proof.
  unfold GroupNorm.forward. destruct (shape x) as [[[B C] H] W].
  destruct (_ =? 1); [apply raises_only_Raise; now left|].
  destruct (negb _); [apply raises_only_Raise; now right|].
  destruct (C =? 0); [apply raises_only_Raise; now right|].
  apply raises_only_Ok.
Qed.

Lemma Conv2d_forward_raises (K : Kernels) (c : Conv2d.t) (x : Tensor) :
  raises_only library_error (Conv2d.forward K c x).
Proof.
  unfold Conv2d.forward. destruct (shape x) as [[[B C] H] W].
  destruct (negb _); [apply raises_only_Raise; now right|].
  destruct (_ || _); [apply raises_only_Raise; now right|].
  destruct (_ || _); [apply raises_only_Raise; now right|].
  apply raises_only_Ok.
Qed.

Lemma broadcast_raises (s t : Shape) : raises_only library_error (broadcast s t).
Proof.
  destruct s as [[[a b] c] d], t as [[[a' b'] c'] d'].
  unfold broadcast, broadcast_dim.
  repeat (match goal with
          | |- context [if ?b then _ else _] => destruct b
          end; cbn [bind]);
    first [apply raises_only_Ok | apply raises_only_Raise; now right].
Qed.

Lemma add_raises (K : Kernels) (x y : Tensor) :
  raises_only library_error (add K x y).
Proof.
  unfold add. apply raises_only_bind; [apply broadcast_raises|].
  intros s _. apply raises_only_Ok.
Qed.

Lemma swish_raises (K : Kernels) (x : Tensor) :
  raises_only library_error (swish K x).
Proof.
  unfold swish, mul. apply raises_only_bind; [apply broadcast_raises|].
  intros s _. apply raises_only_Ok.
Qed.

(** ** What a constructor that returns has built *)

Lemma ResnetBlock_init_eq (cin : Z) (oc : option Z) (b : ResnetBlock.t) :
  ResnetBlock.init cin oc = Ok b ->
  b = resnet_block cin (match oc with None => cin | Some c => c end).
Proof.
  unfold ResnetBlock.init, resnet_block. intros H.
  apply bind_Ok_inv in H as (n1 & Hn1 & H).
  apply bind_Ok_inv in H as (c1 & Hc1 & H).
  apply bind_Ok_inv in H as (n2 & Hn2 & H).
  apply bind_Ok_inv in H as (c2 & Hc2 & H).
  apply GroupNorm_init_inv in Hn1 as [-> _].
  apply GroupNorm_init_inv in Hn2 as [-> _].
  apply Conv2d_init_inv in Hc1 as [-> _].
  apply Conv2d_init_inv in Hc2 as [-> _].
  destruct (cin =? _); cbn [negb] in H.
  - now injection H as <-.
  - apply bind_Ok_inv in H as (sc & Hsc & H).
    apply Conv2d_init_inv in Hsc as [-> _]. now injection H as <-.
Qed.

Lemma AttnBlock_init_eq (c : Z) (a : AttnBlock.t) :
  AttnBlock.init c = Ok a -> a = attn_block c /\ c mod 32 = 0 /\ 0 <= c.
Proof.
  unfold AttnBlock.init, attn_block. intros H.
  apply bind_Ok_inv in H as (n & Hn & H).
  apply bind_Ok_inv in H as (q & Hq & H).
  apply bind_Ok_inv in H as (k & Hk & H).
  apply bind_Ok_inv in H as (v & Hv & H).
  apply bind_Ok_inv in H as (p & Hp & H).
  apply GroupNorm_init_inv in Hn as [-> Hm].
  apply Conv2d_init_inv in Hq as (-> & Hc & _).
  apply Conv2d_init_inv in Hk as [-> _].
  apply Conv2d_init_inv in Hv as [-> _].
  apply Conv2d_init_inv in Hp as [-> _].
  injection H as <-. now repeat split.
Qed.

(** ** Upsample and Downsample *)

(** X1: on a feature map with at least one pixel and at least one
    channel, the layer's channels, [Upsample.forward] returns a feature
    map of the same batch and channels and of twice the height and twice
    the width. *)
Theorem Upsample_doubles (K : Kernels) (c : Z) (self : Upsample.t)
  (x : Tensor) (B H W : Z) :
  Upsample.init c = Ok self -> 0 < c ->
  shape x = (B, c, H, W) -> 1 <= H -> 1 <= W ->
  exists y, Upsample.forward K self x = Ok y /\ shape y = (B, c, 2 * H, 2 * W).
Proof.
  intros Hinit Hc Hx HH HW. apply Upsample_init_eq in Hinit as ->.
  apply Upsample_forward_shape; (assumption || lia).
Qed.

Lemma Upsample_doubles_example :
  exists y,
    Upsample.forward null_kernels (Upsample.mk (Conv2d.mk 64 64 3 1 1))
      (mkTensor (2, 64, 5, 7) []) = Ok y
    /\ shape y = (2, 64, 2 * 5, 2 * 7).
Proof.
  apply (Upsample_doubles null_kernels 64 _ _ 2 5 7); first [reflexivity | lia].
Defined.

(** X2: on a feature map of the layer's channels, [Downsample.forward]
    halves the height and the width rounding down, also when they are
    odd, as long as both are at least 2 and there is at least one
    channel; a feature map with a side shorter than 2, or without
    channels, is refused with the library's [RuntimeError], the padded
    side being shorter than the kernel or the weight being empty. *)
Theorem Downsample_rounds_down_or_refuses (K : Kernels) (c : Z)
  (self : Downsample.t) (x : Tensor) (B H W : Z) :
  Downsample.init c = Ok self ->
  shape x = (B, c, H, W) ->
  (0 < c -> 2 <= H -> 2 <= W ->
   exists y, Downsample.forward K self x = Ok y
             /\ shape y = (B, c, H / 2, W / 2))
  /\ (c = 0 \/ H < 2 \/ W < 2 ->
      Downsample.forward K self x = Raise RuntimeError).
Proof.
  intros Hinit Hx. apply Downsample_init_eq in Hinit as ->. split.
  - intros Hc HH HW. apply Downsample_forward_shape; (assumption || lia).
  - intros Hsmall. unfold Downsample.forward, Conv2d.forward, pad_0101.
    rewrite Hx. cbn [shape Downsample.conv Conv2d.in_channels Conv2d.padding
                      Conv2d.kernel_size Conv2d.out_channels].
    rewrite Z.eqb_refl. cbn [negb].
    destruct (c =? 0) eqn:Ec; [reflexivity|]. cbn [orb].
    destruct Hsmall as [Hs|[Hs|Hs]]; [apply Z.eqb_neq in Ec; contradiction|..].
    + replace (H + 1 + 2 * 0 <? 3) with true
        by (symmetry; apply Z.ltb_lt; lia). reflexivity.
    + replace (W + 1 + 2 * 0 <? 3) with true
        by (symmetry; apply Z.ltb_lt; lia).
      now rewrite orb_true_r.
Qed.

Lemma Downsample_rounds_down_or_refuses_example :
  (exists y,
     Downsample.forward null_kernels (Downsample.mk (Conv2d.mk 64 64 3 2 0))
       (mkTensor (1, 64, 7, 9) []) = Ok y
     /\ shape y = (1, 64, 7 / 2, 9 / 2))
  /\ Downsample.forward null_kernels (Downsample.mk (Conv2d.mk 64 64 3 2 0))
       (mkTensor (1, 64, 1, 9) []) = Raise RuntimeError.
Proof.
  split.
  - apply (proj1 (Downsample_rounds_down_or_refuses null_kernels 64 _
                    (mkTensor (1, 64, 7, 9) []) 1 7 9 eq_refl eq_refl)); lia.
  - apply (proj2 (Downsample_rounds_down_or_refuses null_kernels 64 _
                    (mkTensor (1, 64, 1, 9) []) 1 1 9 eq_refl eq_refl)); lia.
Defined.

(** X3: on a feature map of height and width at least 2, with at least
    one channel, a [Downsample] followed by an [Upsample] of the same
    channels returns a feature map whose height and width are those of
    the input less their remainder by 2: the size is recovered exactly
    when it is even, and is one short when it is odd. *)
Theorem Downsample_then_Upsample (K : Kernels) (c : Z) (down : Downsample.t)
  (up : Upsample.t) (x : Tensor) (B H W : Z) :
  Downsample.init c = Ok down -> Upsample.init c = Ok up -> 0 < c ->
  shape x = (B, c, H, W) -> 2 <= H -> 2 <= W ->
  exists y z,
    Downsample.forward K down x = Ok y
    /\ Upsample.forward K up y = Ok z
    /\ shape z = (B, c, H - H mod 2, W - W mod 2).
Proof.
  intros Hd Hu Hc Hx HH HW.
  apply Downsample_init_eq in Hd as ->. apply Upsample_init_eq in Hu as ->.
  destruct (Downsample_forward_shape K c x B H W Hx) as (y & Hy & Sy);
    [lia..|].
  assert (1 <= H / 2) by (apply Z.div_le_lower_bound; lia).
  assert (1 <= W / 2) by (apply Z.div_le_lower_bound; lia).
  destruct (Upsample_forward_shape K c y B (H / 2) (W / 2) Sy) as (z & Hz & Sz);
    [lia..|].
  exists y, z. repeat split; try assumption.
  rewrite Sz. pose proof (Z.div_mod H 2). pose proof (Z.div_mod W 2).
  f_equal; [f_equal|]; lia.
Qed.

Lemma Downsample_then_Upsample_example :
  exists y z,
    Downsample.forward null_kernels (Downsample.mk (Conv2d.mk 64 64 3 2 0))
      (mkTensor (1, 64, 7, 8) []) = Ok y
    /\ Upsample.forward null_kernels (Upsample.mk (Conv2d.mk 64 64 3 1 1)) y
       = Ok z
    /\ shape z = (1, 64, 7 - 7 mod 2, 8 - 8 mod 2).
Proof.
  apply (Downsample_then_Upsample null_kernels 64 _ _ _ 1 7 8);
    first [reflexivity | lia].
Defined.

(** ** ResnetBlock and AttnBlock *)

(** X4: a [ResnetBlock] built from [cin] to [cout] channels, both
    positive, maps a (B, cin, H, W) feature map with at least one pixel to
    a (B, cout, H, W) feature map, provided that neither normalization
    has a single value per group: [(B * cin // 32) * H * W] and
    [(B * cout // 32) * H * W] are not 1. *)
Theorem ResnetBlock_forward_maps_channels (K : Kernels) (cin cout : Z)
  (b : ResnetBlock.t) (x : Tensor) (B H W : Z) :
  ResnetBlock.init cin (Some cout) = Ok b ->
  0 < cin -> 0 < cout ->
  shape x = (B, cin, H, W) -> 1 <= H -> 1 <= W ->
  normalizable B cin H W -> normalizable B cout H W ->
  exists y, ResnetBlock.forward K b x = Ok y /\ shape y = (B, cout, H, W).
Proof.
  intros Hinit Hi Ho Hx HH HW Hni Hno.
  pose proof (ResnetBlock_init_inv _ _ _ Hinit) as (_ & Hmi & Hmo).
  apply ResnetBlock_init_eq in Hinit as ->.
  apply ResnetBlock_forward_shape; auto; now split.
Qed.

Lemma ResnetBlock_forward_maps_channels_example :
  exists y,
    ResnetBlock.forward null_kernels (resnet_block 128 256)
      (mkTensor (1, 128, 4, 4) []) = Ok y
    /\ shape y = (1, 256, 4, 4).
Proof.
  apply (ResnetBlock_forward_maps_channels null_kernels 128 256 _ _ 1 4 4);
    first [reflexivity | lia | (vm_compute; discriminate)].
Defined.

Lemma resnet_block_raises (K : Kernels) (cin cout : Z) (x : Tensor) :
  raises_only library_error (ResnetBlock.forward K (resnet_block cin cout) x).
Proof.
  unfold ResnetBlock.forward, resnet_block.
  cbn [ResnetBlock.norm1 ResnetBlock.conv1 ResnetBlock.norm2
       ResnetBlock.conv2 ResnetBlock.nin_shortcut ResnetBlock.in_channels
       ResnetBlock.out_channels].
  apply raises_only_bind; [apply GroupNorm_forward_raises|]. intros h1 _.
  apply raises_only_bind; [apply swish_raises|]. intros h2 _.
  apply raises_only_bind; [apply Conv2d_forward_raises|]. intros h3 _.
  apply raises_only_bind; [apply GroupNorm_forward_raises|]. intros h4 _.
  apply raises_only_bind; [apply swish_raises|]. intros h5 _.
  apply raises_only_bind; [apply Conv2d_forward_raises|]. intros h6 _.
  apply raises_only_bind; [|intros; apply add_raises].
  destruct (cin =? cout); cbn [negb getattr bind];
    [apply raises_only_Ok | apply Conv2d_forward_raises].
Qed.

(** X5: a built [ResnetBlock] has a shortcut projection exactly when its
    channels change, so its [forward] never fails for a missing
    attribute: whatever the input, it raises nothing but the library's
    [ValueError] and [RuntimeError]; and it refuses, with one of these,
    every input whose channels are not its [in_channels]. *)
Theorem ResnetBlock_forward_errors (cin : Z) (oc : option Z)
  (b : ResnetBlock.t) :
  ResnetBlock.init cin oc = Ok b ->
  (ResnetBlock.nin_shortcut b = None
   <-> ResnetBlock.in_channels b = ResnetBlock.out_channels b)
  /\ (forall K x, raises_only library_error (ResnetBlock.forward K b x))
  /\ (forall K x B C H W,
        shape x = (B, C, H, W) -> C <> cin ->
        exists e, ResnetBlock.forward K b x = Raise e /\ library_error e).
Proof.
  intros Hinit. apply ResnetBlock_init_eq in Hinit as ->.
  set (cout := match oc with None => cin | Some c => c end).
  unfold resnet_block. cbn [ResnetBlock.nin_shortcut ResnetBlock.in_channels
                            ResnetBlock.out_channels].
  split; [|split].
  - destruct (Z.eqb_spec cin cout); split; intros H; congruence.
  - intros K x. apply (resnet_block_raises K cin cout x).
  - intros K x B C H W Hx HC. unfold ResnetBlock.forward.
    cbn [ResnetBlock.norm1]. unfold GroupNorm.forward. rewrite Hx.
    cbn [GroupNorm.num_groups GroupNorm.num_channels].
    destruct (_ =? 1); cbn [bind].
    + exists ValueError. split; [reflexivity | now left].
    + destruct (Z.eqb_spec C cin); [contradiction|]. cbn [negb bind].
      exists RuntimeError. split; [reflexivity | now right].
Qed.

Lemma ResnetBlock_forward_errors_example :
  (ResnetBlock.nin_shortcut (resnet_block 128 256) = None
   <-> ResnetBlock.in_channels (resnet_block 128 256)
       = ResnetBlock.out_channels (resnet_block 128 256))
  /\ exists e,
       ResnetBlock.forward null_kernels (resnet_block 128 256)
         (mkTensor (1, 64, 4, 4) []) = Raise e
       /\ library_error e.
Proof.
  pose proof (ResnetBlock_forward_errors 128 (Some 256) (resnet_block 128 256)
                eq_refl) as (H1 & _ & H3).
  split; [exact H1|].
  apply (H3 null_kernels _ 1 64 4 4); [reflexivity | lia].
Defined.

(** The part of [AttnBlock.forward] after the normalization returns
    whenever the normalized feature map has a pixel. *)
Lemma AttnBlock_forward_after_norm (K : Kernels) (c : Z) (x xn : Tensor)
  (B H W : Z) :
  GroupNorm.forward K (GroupNorm.mk 32 c eps_1e_6) x = Ok xn ->
  shape xn = (B, c, H, W) -> c <> 0 -> 1 <= H -> 1 <= W ->
  returns_shape (AttnBlock.forward K (attn_block c) x) (B, c, H, W).
Proof.
  intros Hgn Hn Hc HH HW. unfold AttnBlock.forward, attn_block.
  cbn [AttnBlock.norm AttnBlock.q AttnBlock.k AttnBlock.v AttnBlock.proj_out].
  rewrite Hgn. cbn [bind].
  shape_step conv1x1_shape. intros q Hq.
  shape_step conv1x1_shape. intros k Hk.
  shape_step conv1x1_shape. intros v Hv.
  rewrite Hn.
  unfold scaled_dot_product_attention, rearrange_to_seq. rewrite Hq, Hk, Hv.
  cbn [shape]. rewrite !Z.eqb_refl. cbn [andb bind].
  unfold rearrange_from_seq. cbn [shape]. rewrite !Z.eqb_refl. cbn [andb bind].
  shape_step conv1x1_shape. intros p Hp.
  now apply add_shape.
Qed.

Lemma GroupNorm_forward_Ok_inv (K : Kernels) (g : GroupNorm.t) (x y : Tensor)
  (B C H W : Z) :
  GroupNorm.forward K g x = Ok y -> shape x = (B, C, H, W) ->
  C = GroupNorm.num_channels g /\ C <> 0 /\ shape y = (B, C, H, W).
Proof.
  unfold GroupNorm.forward. intros Hy Hx. rewrite Hx in Hy.
  destruct (_ =? 1); [discriminate|].
  destruct (Z.eqb_spec C (GroupNorm.num_channels g)); cbn [negb] in Hy;
    [|discriminate].
  destruct (Z.eqb_spec C 0); [discriminate|].
  injection Hy as <-. now repeat split.
Qed.

(** X6: a built [AttnBlock] of [c] channels, [c] positive, maps a
    (B, c, H, W) feature map with at least one pixel to a feature map of
    the same shape, provided that its normalization does not have a
    single value per group: [(B * c // 32) * H * W] is not 1. *)
Theorem AttnBlock_forward_keeps_shape (K : Kernels) (c : Z) (a : AttnBlock.t)
  (x : Tensor) (B H W : Z) :
  AttnBlock.init c = Ok a -> 0 < c ->
  shape x = (B, c, H, W) -> 1 <= H -> 1 <= W -> normalizable B c H W ->
  exists y, AttnBlock.forward K a x = Ok y /\ shape y = (B, c, H, W).
Proof.
  intros Hinit Hc Hx HH HW Hn. apply AttnBlock_init_eq in Hinit as (-> & Hm & _).
  apply AttnBlock_forward_shape; auto. now split.
Qed.

Lemma AttnBlock_forward_keeps_shape_example :
  exists y,
    AttnBlock.forward null_kernels (attn_block 512)
      (mkTensor (1, 512, 32, 32) []) = Ok y
    /\ shape y = (1, 512, 32, 32).
Proof.
  apply (AttnBlock_forward_keeps_shape null_kernels 512 _ _ 1 32 32);
    first [reflexivity | lia | (vm_compute; discriminate)].
Defined.

Lemma attn_block_forward_cases (K : Kernels) (c : Z) (x : Tensor)
  (B C H W : Z) :
  shape x = (B, C, H, W) ->
  raises_only library_error (AttnBlock.forward K (attn_block c) x)
  /\ (is_ok (AttnBlock.forward K (attn_block c) x) = true
      <-> is_ok (GroupNorm.forward K (GroupNorm.mk 32 c eps_1e_6) x) = true
          /\ 1 <= H /\ 1 <= W).
Proof.
  intros Hx.
  destruct (GroupNorm.forward K (GroupNorm.mk 32 c eps_1e_6) x) as [xn|e]
    eqn:Hgn.
  - destruct (GroupNorm_forward_Ok_inv K _ x xn B C H W Hgn Hx)
      as (HC & Hc0 & Hn).
    cbn [GroupNorm.num_channels] in HC. subst C.
    assert (Ec0 : (c =? 0) = false) by now apply Z.eqb_neq.
    destruct (Z_le_dec 1 H) as [HH|HH], (Z_le_dec 1 W) as [HW|HW].
    + destruct (AttnBlock_forward_after_norm K c x xn B H W Hgn Hn Hc0 HH HW)
        as (y & Hy & _).
      rewrite Hy. split; [apply raises_only_Ok | now split].
    + assert (E : AttnBlock.forward K (attn_block c) x = Raise RuntimeError).
      { unfold AttnBlock.forward, attn_block. cbn [AttnBlock.norm AttnBlock.q].
        rewrite Hgn. cbn [bind]. unfold Conv2d.forward at 1. rewrite Hn.
        cbn [Conv2d.in_channels Conv2d.padding Conv2d.kernel_size
             Conv2d.out_channels].
        rewrite Z.eqb_refl, Ec0. cbn [negb orb].
        replace (W + 2 * 0 <? 1) with true by (symmetry; apply Z.ltb_lt; lia).
        now rewrite orb_true_r. }
      rewrite E. split; [apply raises_only_Raise; now right|].
      split; [discriminate | intros (_ & _ & ?); lia].
    + assert (E : AttnBlock.forward K (attn_block c) x = Raise RuntimeError).
      { unfold AttnBlock.forward, attn_block. cbn [AttnBlock.norm AttnBlock.q].
        rewrite Hgn. cbn [bind]. unfold Conv2d.forward at 1. rewrite Hn.
        cbn [Conv2d.in_channels Conv2d.padding Conv2d.kernel_size
             Conv2d.out_channels].
        rewrite Z.eqb_refl, Ec0. cbn [negb orb].
        now replace (H + 2 * 0 <? 1) with true
          by (symmetry; apply Z.ltb_lt; lia). }
      rewrite E. split; [apply raises_only_Raise; now right|].
      split; [discriminate | intros (_ & ? & _); lia].
    + assert (E : AttnBlock.forward K (attn_block c) x = Raise RuntimeError).
      { unfold AttnBlock.forward, attn_block. cbn [AttnBlock.norm AttnBlock.q].
        rewrite Hgn. cbn [bind]. unfold Conv2d.forward at 1. rewrite Hn.
        cbn [Conv2d.in_channels Conv2d.padding Conv2d.kernel_size
             Conv2d.out_channels].
        rewrite Z.eqb_refl, Ec0. cbn [negb orb].
        now replace (H + 2 * 0 <? 1) with true
          by (symmetry; apply Z.ltb_lt; lia). }
      rewrite E. split; [apply raises_only_Raise; now right|].
      split; [discriminate | intros (_ & ? & _); lia].
  - assert (E : AttnBlock.forward K (attn_block c) x = Raise e).
    { unfold AttnBlock.forward, attn_block. cbn [AttnBlock.norm].
      now rewrite Hgn. }
    rewrite E. split.
    + apply raises_only_Raise.
      exact (GroupNorm_forward_raises K _ x e Hgn).
    + split; [discriminate | intros (? & _); discriminate].
Qed.


(** X7: in a built [AttnBlock] the flattening of the pixels and its
    inverse always agree: once the normalization has returned on a
    feature map with a pixel, the three projections, the attention, the
    rearrangement back with the recorded B, C, H and W, the output
    projection and the addition all return; so [forward] raises nothing
    but the library's [ValueError] and [RuntimeError], never the
    rearrangement's error. *)
Theorem AttnBlock_forward_errors (K : Kernels) (c : Z) (a : AttnBlock.t)
  (x : Tensor) (B C H W : Z) :
  AttnBlock.init c = Ok a ->
  shape x = (B, C, H, W) ->
  raises_only library_error (AttnBlock.forward K a x)
  /\ (is_ok (AttnBlock.forward K a x) = true
      <-> is_ok (GroupNorm.forward K (AttnBlock.norm a) x) = true
          /\ 1 <= H /\ 1 <= W).
Proof.
  intros Hinit Hx. apply AttnBlock_init_eq in Hinit as (-> & _ & _).
  exact (attn_block_forward_cases K c x B C H W Hx).
Qed.

Lemma AttnBlock_forward_errors_example :
  raises_only library_error
    (AttnBlock.forward null_kernels (attn_block 64) (mkTensor (2, 64, 3, 3) []))
  /\ (is_ok (AttnBlock.forward null_kernels (attn_block 64)
               (mkTensor (2, 64, 3, 3) [])) = true
      <-> is_ok (GroupNorm.forward null_kernels
                   (AttnBlock.norm (attn_block 64))
                   (mkTensor (2, 64, 3, 3) [])) = true
          /\ 1 <= 3 /\ 1 <= 3).
Proof.
  exact (AttnBlock_forward_errors null_kernels 64 (attn_block 64)
           (mkTensor (2, 64, 3, 3) []) 2 64 3 3 eq_refl eq_refl).
Defined.

(** * Further properties of the Encoder and the Decoder *)

(** ** From a Configuration, the resolution apart *)

Section OfChannels.

Variable c : VQVAEConfig.
Hypothesis Hc : channels_ok c.

Let L := length (ch_mult c).

Lemma channels_blocks :
  num_res_blocks c = Z.of_nat (Z.to_nat (num_res_blocks c))
  /\ (0 < Z.to_nat (num_res_blocks c))%nat.
Proof. destruct Hc as (_ & _ & _ & Hn & _). lia. Qed.

Lemma channels_scale : scale_factor c = 2 ^ Z.of_nat (L - 1) /\ (0 < L)%nat.
Proof.
  destruct Hc as (Hne & _). unfold scale_factor, len. fold L.
  assert (0 < L)%nat by (unfold L; destruct (ch_mult c); [congruence|simpl; lia]).
  split; [f_equal; lia | assumption].
Qed.

Lemma Encoder_of_channels :
  Encoder_of c
  = Ok (built_encoder (resolution c) (in_channels c) (dim c) (ch_mult c)
          (num_res_blocks c) (z_channels c)).
Proof.
  destruct Hc as (Hne & Hd & Hm & _ & Hi & Hz & _).
  destruct channels_blocks as [En Hn].
  unfold Encoder_of. rewrite En.
  apply Encoder_init_ok; auto; lia.
Qed.

Lemma Decoder_of_channels :
  Decoder_of c
  = Ok (built_decoder (dim c) (out_ch c) (ch_mult c) (num_res_blocks c)
          (in_channels c) (resolution c) (z_channels c)).
Proof.
  destruct Hc as (Hne & Hd & Hm & _ & Hi & Hz & Ho).
  destruct channels_blocks as [En Hn].
  unfold Decoder_of. rewrite En.
  apply Decoder_init_ok; auto; lia.
Qed.


Lemma Encoder_of_channels_shape (K : Kernels) (x : Tensor) (B H W : Z) :
  shape x = (B, in_channels c, H, W) ->
  scale_factor c <= H -> scale_factor c <= W ->
  normalizable B (entry_width c) (H / scale_factor c) (W / scale_factor c) ->
  normalizable B (last_width c) (H / scale_factor c) (W / scale_factor c) ->
  returns_shape
    (Encoder.forward K
       (built_encoder (resolution c) (in_channels c) (dim c) (ch_mult c)
          (num_res_blocks c) (z_channels c)) x)
    (B, z_channels c, H / scale_factor c, W / scale_factor c).
Proof.
  destruct Hc as (Hne & Hd & Hm & _ & Hi & Hz & _).
  destruct channels_blocks as [En Hn]. destruct channels_scale as [Es _].
  rewrite Es, En. intros Hx HH HW Hni Hno.
  now apply Encoder_forward_any_size.
Qed.

Lemma Decoder_of_channels_shape (K : Kernels) (z : Tensor) (B H W : Z) :
  shape z = (B, z_channels c, H, W) -> 1 <= H -> 1 <= W ->
  normalizable B (last_width c) H W ->
  returns_shape
    (Decoder.forward K
       (built_decoder (dim c) (out_ch c) (ch_mult c) (num_res_blocks c)
          (in_channels c) (resolution c) (z_channels c)) z)
    (B, out_ch c, H * scale_factor c, W * scale_factor c).
Proof.
  destruct Hc as (Hne & Hd & Hm & _ & Hi & Hzc & Ho).
  destruct channels_blocks as [En Hn]. destruct channels_scale as [Es _].
  rewrite Es, En. intros Hz H1 W1 Hno.
  now apply Decoder_forward_any_size.
Qed.


End OfChannels.

Lemma example_channels_ok : channels_ok example_config.
Proof. split; [discriminate | exact example_buildable]. Defined.

(** X8: [Encoder.forward] does not use the configured resolution.  For
    a Configuration with at least one level, a base width and widths
    [dim * ch_mult[i]] that are positive multiples of 32, at least one
    block a level and positive [in_channels], [z_channels] and [out_ch],
    the Encoder maps a (B, in_channels, H, W) image with H and W at least
    2^(L-1) to a latent of shape
    (B, z_channels, H // 2^(L-1), W // 2^(L-1)), the divisions rounding
    down, provided that on the latent's size the normalizations of the
    last level do not have a single value per group: with C the channels
    that enter the last level, [dim * ([1] + ch_mult)[L-1]], and with C
    those of the last level, [dim * ch_mult[L-1]], the count
    [(B * C // 32) * (H // 2^(L-1)) * (W // 2^(L-1))] is not 1. *)
Theorem Encoder_forward_any_image (K : Kernels) (c : VQVAEConfig)
  (enc : Encoder.t) (x : Tensor) (B H W : Z) :
  channels_ok c -> Encoder_of c = Ok enc ->
  shape x = (B, in_channels c, H, W) ->
  scale_factor c <= H -> scale_factor c <= W ->
  normalizable B (entry_width c) (H / scale_factor c) (W / scale_factor c) ->
  normalizable B (last_width c) (H / scale_factor c) (W / scale_factor c) ->
  exists y,
    Encoder.forward K enc x = Ok y
    /\ shape y = (B, z_channels c, H / scale_factor c, W / scale_factor c).
Proof.
  intros Hc Henc Hx HH HW Hni Hno.
  rewrite (Encoder_of_channels c Hc) in Henc. injection Henc as <-.
  now apply Encoder_of_channels_shape.
Qed.

Lemma Encoder_forward_any_image_example :
  exists y,
    Encoder.forward null_kernels
      (built_encoder 256 3 128 [1; 2; 4; 4] 2 64)
      (mkTensor (1, 3, 100, 8) []) = Ok y
    /\ shape y = (1, 64, 100 / scale_factor example_config,
                  8 / scale_factor example_config).
Proof.
  apply (Encoder_forward_any_image null_kernels example_config _
           (mkTensor (1, 3, 100, 8) []) 1 100 8
           example_channels_ok eq_refl eq_refl);
    vm_compute; discriminate.
Defined.

(** X9: the Decoder of such a Configuration records 2^(L-1) as its
    [ffactor], and its [forward] maps a (B, z_channels, H, W) latent with
    at least one pixel to a feature map of shape
    (B, out_ch, H * ffactor, W * ffactor), whatever the configured
    resolution, provided that the normalizations of the last level do not
    have a single value per group:
    [(B * dim * ch_mult[L-1] // 32) * H * W] is not 1. *)
Theorem Decoder_forward_any_latent (K : Kernels) (c : VQVAEConfig)
  (dec : Decoder.t) (z : Tensor) (B H W : Z) :
  channels_ok c -> Decoder_of c = Ok dec ->
  shape z = (B, z_channels c, H, W) -> 1 <= H -> 1 <= W ->
  normalizable B (last_width c) H W ->
  Decoder.ffactor dec = scale_factor c
  /\ exists y,
       Decoder.forward K dec z = Ok y
       /\ shape y = (B, out_ch c, H * Decoder.ffactor dec,
                     W * Decoder.ffactor dec).
Proof.
  intros Hc Hdec Hz H1 W1 Hno.
  rewrite (Decoder_of_channels c Hc) in Hdec. injection Hdec as <-.
  split; [reflexivity|].
  change (Decoder.ffactor (built_decoder _ _ _ _ _ _ _))
    with (scale_factor c).
  now apply Decoder_of_channels_shape.
Qed.

Lemma Decoder_forward_any_latent_example :
  Decoder.ffactor (built_decoder 128 3 [1; 2; 4; 4] 2 3 256 64) = 8
  /\ exists y,
       Decoder.forward null_kernels
         (built_decoder 128 3 [1; 2; 4; 4] 2 3 256 64)
         (mkTensor (1, 64, 1, 1) []) = Ok y
       /\ shape y = (1, 3, 1 * 8, 1 * 8).
Proof.
  apply (Decoder_forward_any_latent null_kernels example_config _
           (mkTensor (1, 64, 1, 1) []) 1 1 1
           example_channels_ok eq_refl eq_refl); [lia | lia |].
  vm_compute. discriminate.
Defined.

(** * Further properties of the model *)

Lemma VQVAE_init_inv (VQ : QuantizerClass) (c : VQVAEConfig)
  (model : VQVAE.t VQ) :
  VQVAE.init VQ c = Ok model ->
  VQVAE.config VQ model = c
  /\ Encoder_of c = Ok (VQVAE.encoder VQ model)
  /\ Decoder_of c = Ok (VQVAE.decoder VQ model)
  /\ Quantizer_init VQ (vocab_size c) (z_channels c) (patch_sizes c)
     = Ok (VQVAE.quantizer VQ model).
Proof.
  unfold VQVAE.init. fold (Encoder_of c). fold (Decoder_of c). intros H.
  apply bind_Ok_inv in H as (e & He & H).
  apply bind_Ok_inv in H as (d & Hd & H).
  apply bind_Ok_inv in H as (q & Hq & H).
  injection H as <-. now repeat split.
Qed.

(** X10: for a Configuration as in X8 and X9, [to_img] of a built model
    maps a (B, z_channels, H, W) feature map with at least one pixel,
    with [(B * dim * ch_mult[L-1] // 32) * H * W] other than 1, to an
    image of shape (B, out_ch, H * 2^(L-1), W * 2^(L-1)) in which every
    value is a NaN, where the Decoder's output is one, or lies in
    [[-1, 1]]; the feature map need not come from the Encoder nor have
    the configured size. *)
Theorem to_img_any_latent (VQ : QuantizerClass) (K : Kernels)
  (c : VQVAEConfig) (model : VQVAE.t VQ) (f : Tensor) (B H W : Z) :
  channels_ok c -> VQVAE.init VQ c = Ok model ->
  shape f = (B, z_channels c, H, W) -> 1 <= H -> 1 <= W ->
  normalizable B (last_width c) H W ->
  exists raw y,
    Decoder.forward K (VQVAE.decoder VQ model) f = Ok raw
    /\ VQVAE.to_img VQ K model f = Ok y
    /\ shape y = (B, out_ch c, H * scale_factor c, W * scale_factor c)
    /\ within_or_nan (F32.of_int (-1)) (F32.of_int 1) y
    /\ same_nans raw y.
Proof.
  intros Hc Hinit Hf H1 W1 Hno.
  apply VQVAE_init_inv in Hinit as (_ & _ & Hdec & _).
  rewrite (Decoder_of_channels c Hc) in Hdec. injection Hdec as Hdec.
  destruct (Decoder_of_channels_shape c Hc K f B H W Hf H1 W1 Hno)
    as (raw & Hraw & Hs).
  exists raw, (clamp (F32.of_int (-1)) (F32.of_int 1) raw).
  unfold VQVAE.to_img. rewrite <- Hdec, Hraw. cbn [bind].
  destruct (clamp_within_or_nan (F32.of_int (-1)) (F32.of_int 1) raw)
    as [Hw Hn]; try reflexivity.
  repeat split; assumption.
Qed.

Lemma to_img_any_latent_example :
  exists raw y,
    Decoder.forward constant_kernels
      (VQVAE.decoder passthrough_quantizer one_level_model)
      (mkTensor (1, 32, 3, 5) (repeat (F32.of_int 7) 480)) = Ok raw
    /\ VQVAE.to_img passthrough_quantizer constant_kernels one_level_model
         (mkTensor (1, 32, 3, 5) (repeat (F32.of_int 7) 480)) = Ok y
    /\ shape y = (1, 32, 3 * 1, 5 * 1)
    /\ within_or_nan (F32.of_int (-1)) (F32.of_int 1) y
    /\ same_nans raw y.
Proof.
  apply (to_img_any_latent passthrough_quantizer constant_kernels
           one_level_config one_level_model _ 1 3 5).
  - split; [discriminate|]. unfold buildable, width_ok. cbn.
    repeat split; try lia; repeat constructor; lia.
  - reflexivity.
  - reflexivity.
  - lia.
  - lia.
  - vm_compute. discriminate.
Defined.

(** X11: for a Configuration as in X8, on a (B, in_channels, H, W)
    image with H and W at least 2^(L-1), with a quantizer that returns a
    quantized feature map of the latent's shape, and provided that on the
    latent's size the normalizations of the last level do not have a
    single value per group (the two counts of X8 are not 1), [forward] of
    a built model returns a reconstruction whose height and width are
    those of the image less their remainder by 2^(L-1); the
    reconstruction has the shape (B, out_ch, H, W) exactly when 2^(L-1)
    divides both. *)
Theorem forward_reconstruction_size (VQ : QuantizerClass) (K : Kernels)
  (c : VQVAEConfig) (model : VQVAE.t VQ) (x : Tensor) (B H W : Z) :
  channels_ok c -> VQVAE.init VQ c = Ok model ->
  shape x = (B, in_channels c, H, W) ->
  scale_factor c <= H -> scale_factor c <= W ->
  normalizable B (entry_width c) (H / scale_factor c) (W / scale_factor c) ->
  normalizable B (last_width c) (H / scale_factor c) (W / scale_factor c) ->
  (forall f, shape f = (B, z_channels c, H / scale_factor c, W / scale_factor c) ->
     exists fhat r i s l,
       Quantizer_forward VQ (VQVAE.quantizer VQ model) f = Ok (fhat, r, i, s, l)
       /\ shape fhat = shape f) ->
  exists x_hat r_maps idxs scales loss,
    VQVAE.forward VQ K model x = Ok (x_hat, r_maps, idxs, scales, loss)
    /\ shape x_hat
       = (B, out_ch c, H - H mod scale_factor c, W - W mod scale_factor c)
    /\ (shape x_hat = (B, out_ch c, H, W)
        <-> H mod scale_factor c = 0 /\ W mod scale_factor c = 0).
Proof.
  intros Hc Hinit Hx HH HW Hni Hno Hquant.
  apply VQVAE_init_inv in Hinit as (_ & Henc & Hdec & _).
  rewrite (Encoder_of_channels c Hc) in Henc. injection Henc as Henc.
  rewrite (Decoder_of_channels c Hc) in Hdec. injection Hdec as Hdec.
  destruct (Encoder_of_channels_shape c Hc K x B H W Hx HH HW Hni Hno)
    as (f & Hf & Sf).
  destruct (Hquant f Sf) as (fhat & r & i & s & l & Hq & Sq).
  rewrite Sf in Sq.
  assert (Hsf : 0 < scale_factor c).
  { destruct (channels_scale c Hc) as [-> _]. apply pow2_pos. }
  assert (H1 : 1 <= H / scale_factor c)
    by (apply Z.div_le_lower_bound; lia).
  assert (W1 : 1 <= W / scale_factor c)
    by (apply Z.div_le_lower_bound; lia).
  destruct (Decoder_of_channels_shape c Hc K fhat B _ _ Sq H1 W1 Hno)
    as (x_hat & Hxh & Sx).
  exists x_hat, r, i, s, l.
  pose proof (Z.div_mod H (scale_factor c) ltac:(lia)) as EH.
  pose proof (Z.div_mod W (scale_factor c) ltac:(lia)) as EW.
  assert (Sx' : shape x_hat
                = (B, out_ch c, H - H mod scale_factor c,
                   W - W mod scale_factor c)).
  { rewrite Sx. f_equal; [f_equal|]; lia. }
  split; [|split].
  - unfold VQVAE.forward. rewrite <- Henc, Hf. cbn [bind].
    rewrite Hq. cbn [bind]. rewrite <- Hdec, Hxh. reflexivity.
  - exact Sx'.
  - rewrite Sx'. split.
    + intros [= E1 E2]. lia.
    + intros [E1 E2]. rewrite E1, E2, !Z.sub_0_r. reflexivity.
Qed.

Lemma forward_reconstruction_size_example :
  exists x_hat r_maps idxs scales loss,
    VQVAE.forward passthrough_quantizer null_kernels
      (VQVAE.mk passthrough_quantizer example_config
         (built_encoder 256 3 128 [1; 2; 4; 4] 2 64)
         (built_decoder 128 3 [1; 2; 4; 4] 2 3 256 64)
         (patch_sizes example_config))
      (mkTensor (1, 3, 100, 64) [])
    = Ok (x_hat, r_maps, idxs, scales, loss)
    /\ shape x_hat = (1, 3, 100 - 100 mod 8, 64 - 64 mod 8)
    /\ (shape x_hat = (1, 3, 100, 64) <-> 100 mod 8 = 0 /\ 64 mod 8 = 0).
Proof.
  apply (forward_reconstruction_size passthrough_quantizer null_kernels
           example_config _ (mkTensor (1, 3, 100, 64) []) 1 100 64
           example_channels_ok eq_refl eq_refl).
  - vm_compute. discriminate.
  - vm_compute. discriminate.
  - vm_compute. discriminate.
  - vm_compute. discriminate.
  - intros f _. now eexists _, _, _, _, _.
Defined.

(** X12: when [forward] returns a reconstruction, [to_img] called on the
    quantized feature map that the quantizer returned on the Encoder's
    latent returns that reconstruction clamped: a value of the
    reconstruction that is NaN stays NaN, and every other value is
    brought into [[-1, 1]]. *)
Theorem to_img_of_quantized (VQ : QuantizerClass) (K : Kernels)
  (self : VQVAE.t VQ) (x x_hat : Tensor) (r_maps : RMaps VQ) (idxs : Idxs VQ)
  (scales : Scales VQ) (loss : Loss VQ) :
  VQVAE.forward VQ K self x = Ok (x_hat, r_maps, idxs, scales, loss) ->
  exists f fhat,
    Encoder.forward K (VQVAE.encoder VQ self) x = Ok f
    /\ Quantizer_forward VQ (VQVAE.quantizer VQ self) f
       = Ok (fhat, r_maps, idxs, scales, loss)
    /\ VQVAE.to_img VQ K self fhat
       = Ok (clamp (F32.of_int (-1)) (F32.of_int 1) x_hat)
    /\ within_or_nan (F32.of_int (-1)) (F32.of_int 1)
         (clamp (F32.of_int (-1)) (F32.of_int 1) x_hat)
    /\ same_nans x_hat (clamp (F32.of_int (-1)) (F32.of_int 1) x_hat).
Proof.
  unfold VQVAE.forward, VQVAE.to_img. intros H.
  apply bind_Ok_inv in H as (f & Hf & H).
  apply bind_Ok_inv in H as ([[[[fhat r] i] s] l] & Hq & H).
  apply bind_Ok_inv in H as (xh & Hd & H).
  injection H as <- <- <- <- <-.
  destruct (clamp_within_or_nan (F32.of_int (-1)) (F32.of_int 1) xh)
    as [Hw Hn]; try reflexivity.
  exists f, fhat. repeat split; try assumption.
  now rewrite Hd.
Qed.

Lemma to_img_of_quantized_example :
  let f := constant_tensor (F32.of_int 3) in
  exists f' fhat,
    Encoder.forward constant_kernels
      (VQVAE.encoder passthrough_quantizer one_level_model)
      (constant_tensor (F32.of_int 5))
    = Ok f'
    /\ Quantizer_forward passthrough_quantizer
         (VQVAE.quantizer passthrough_quantizer one_level_model) f'
       = Ok (fhat, [f; f], [f; f], [1; 2], F32.of_int 0)
    /\ VQVAE.to_img passthrough_quantizer constant_kernels one_level_model fhat
       = Ok (clamp (F32.of_int (-1)) (F32.of_int 1) f)
    /\ within_or_nan (F32.of_int (-1)) (F32.of_int 1)
         (clamp (F32.of_int (-1)) (F32.of_int 1) f)
    /\ same_nans f (clamp (F32.of_int (-1)) (F32.of_int 1) f).
Proof.
  intros f.
  apply (to_img_of_quantized passthrough_quantizer constant_kernels
           one_level_model (constant_tensor (F32.of_int 5))
           f [f; f] [f; f] [1; 2] (F32.of_int 0)).
  vm_compute. reflexivity.
Defined.

(** ** What the Encoder and the Decoder never raise *)











(** ** Inputs with the wrong channels *)

Lemma Encoder_init_conv_in (r i ch : Z) (ch_mult : list Z) (n z : Z)
  (enc : Encoder.t) :
  Encoder.init r i ch ch_mult n z = Ok enc ->
  Encoder.conv_in enc = Conv2d.mk i ch 3 1 1.
Proof.
  unfold Encoder.init. cbv zeta. intros H.
  apply bind_Ok_inv in H as (conv_in & Hc & H).
  apply bind_Ok_inv in H as ([[bi cr] down] & _ & H).
  apply bind_Ok_inv in H as (mid & _ & H).
  apply bind_Ok_inv in H as (norm_out & _ & H).
  apply bind_Ok_inv in H as (conv_out & _ & H).
  injection H as <-. cbn [Encoder.conv_in].
  now apply Conv2d_init_inv in Hc as [-> _].
Qed.

Lemma Decoder_init_conv_in (ch o : Z) (ch_mult : list Z) (n i r z : Z)
  (dec : Decoder.t) :
  Decoder.init ch o ch_mult n i r z = Ok dec ->
  Conv2d.in_channels (Decoder.conv_in dec) = z.
Proof.
  unfold Decoder.init. cbv zeta. intros H.
  apply bind_Ok_inv in H as (m_last & _ & H).
  apply bind_Ok_inv in H as (conv_in & Hc & H).
  apply bind_Ok_inv in H as (mid & _ & H).
  apply bind_Ok_inv in H as ([[bi cr] up] & _ & H).
  apply bind_Ok_inv in H as (norm_out & _ & H).
  apply bind_Ok_inv in H as (conv_out & _ & H).
  injection H as <-. cbn [Decoder.conv_in].
  now apply Conv2d_init_inv in Hc as [-> _].
Qed.

Lemma Conv2d_forward_wrong_channels (K : Kernels) (cv : Conv2d.t) (x : Tensor)
  (B C H W : Z) :
  shape x = (B, C, H, W) -> C <> Conv2d.in_channels cv ->
  Conv2d.forward K cv x = Raise RuntimeError.
Proof.
  intros Hx HC. unfold Conv2d.forward. rewrite Hx.
  now destruct (Z.eqb_spec C (Conv2d.in_channels cv)).
Qed.

(** X15: a model that has been built refuses an image whose channels are
    not [in_channels]: the Encoder's first convolution raises
    [RuntimeError], and so do [forward] and [img_to_indices], before the
    quantizer is called and whatever it would do. *)
Theorem image_with_wrong_channels (VQ : QuantizerClass) (K : Kernels)
  (c : VQVAEConfig) (model : VQVAE.t VQ) (x : Tensor) (B C H W : Z) :
  VQVAE.init VQ c = Ok model ->
  shape x = (B, C, H, W) -> C <> in_channels c ->
  Encoder.forward K (VQVAE.encoder VQ model) x = Raise RuntimeError
  /\ VQVAE.forward VQ K model x = Raise RuntimeError
  /\ VQVAE.img_to_indices VQ K model x = Raise RuntimeError.
Proof.
  intros Hinit Hx HC.
  apply VQVAE_init_inv in Hinit as (_ & Henc & _).
  apply Encoder_init_conv_in in Henc.
  assert (E : Encoder.forward K (VQVAE.encoder VQ model) x = Raise RuntimeError).
  { unfold Encoder.forward.
    rewrite (Conv2d_forward_wrong_channels K _ x B C H W Hx); [reflexivity|].
    now rewrite Henc. }
  split; [exact E|].
  unfold VQVAE.forward, VQVAE.img_to_indices. now rewrite E.
Qed.

Lemma image_with_wrong_channels_example :
  Encoder.forward constant_kernels
    (VQVAE.encoder passthrough_quantizer one_level_model)
    (mkTensor (1, 3, 2, 2) []) = Raise RuntimeError
  /\ VQVAE.forward passthrough_quantizer constant_kernels one_level_model
       (mkTensor (1, 3, 2, 2) []) = Raise RuntimeError
  /\ VQVAE.img_to_indices passthrough_quantizer constant_kernels
       one_level_model (mkTensor (1, 3, 2, 2) []) = Raise RuntimeError.
Proof.
  apply (image_with_wrong_channels passthrough_quantizer constant_kernels
           one_level_config one_level_model (mkTensor (1, 3, 2, 2) [])
           1 3 2 2 eq_refl eq_refl).
  cbn. lia.
Defined.

(** X16: a model that has been built refuses a feature map whose
    channels are not [z_channels]: the Decoder's first convolution raises
    [RuntimeError], and so does [to_img]. *)
Theorem latent_with_wrong_channels (VQ : QuantizerClass) (K : Kernels)
  (c : VQVAEConfig) (model : VQVAE.t VQ) (f : Tensor) (B C H W : Z) :
  VQVAE.init VQ c = Ok model ->
  shape f = (B, C, H, W) -> C <> z_channels c ->
  Decoder.forward K (VQVAE.decoder VQ model) f = Raise RuntimeError
  /\ VQVAE.to_img VQ K model f = Raise RuntimeError.
Proof.
  intros Hinit Hf HC.
  apply VQVAE_init_inv in Hinit as (_ & _ & Hdec & _).
  apply Decoder_init_conv_in in Hdec.
  assert (E : Decoder.forward K (VQVAE.decoder VQ model) f = Raise RuntimeError).
  { unfold Decoder.forward.
    rewrite (Conv2d_forward_wrong_channels K _ f B C H W Hf); [reflexivity|].
    now rewrite Hdec. }
  split; [exact E|]. unfold VQVAE.to_img. now rewrite E.
Qed.

Lemma latent_with_wrong_channels_example :
  Decoder.forward constant_kernels
    (VQVAE.decoder passthrough_quantizer one_level_model)
    (mkTensor (1, 64, 2, 2) []) = Raise RuntimeError
  /\ VQVAE.to_img passthrough_quantizer constant_kernels one_level_model
       (mkTensor (1, 64, 2, 2) []) = Raise RuntimeError.
Proof.
  apply (latent_with_wrong_channels passthrough_quantizer constant_kernels
           one_level_config one_level_model (mkTensor (1, 64, 2, 2) [])
           1 64 2 2 eq_refl eq_refl).
  cbn. lia.
Defined.

(** ** The levels that the constructors build *)




(** ** An Encoder with no level *)

(** X18: unlike the Decoder, the Encoder can be built with an empty
    [ch_mult], for a base width [ch] that is a positive multiple of 32
    and channel counts that are not negative: it then has no level and
    no downsampler, its bottleneck has [ch] channels, and, with positive
    [in_channels] and [z_channels], its [forward] maps a
    (B, in_channels, H, W) image with at least one pixel to a
    (B, z_channels, H, W) latent of the same height and width, provided
    that [(B * ch // 32) * H * W] is not 1. *)
Theorem Encoder_without_levels (K : Kernels) (r i ch n z : Z) (x : Tensor)
  (B H W : Z) :
  width_ok ch -> 0 <= i -> 0 <= z ->
  exists enc,
    Encoder.init r i ch [] n z = Ok enc
    /\ Encoder.down enc = []
    /\ (0 < i -> 0 < z ->
        shape x = (B, i, H, W) -> 1 <= H -> 1 <= W ->
        normalizable B ch H W ->
        exists y, Encoder.forward K enc x = Ok y /\ shape y = (B, z, H, W)).
Proof.
  intros Hch Hi Hz. pose proof Hch as [Hch0 _].
  exists (Encoder.mk ch 0 n r i (Conv2d.mk i ch 3 1 1) [1] []
            (mid_block ch) (GroupNorm.mk 32 ch eps_1e_6)
            (Conv2d.mk ch z 3 1 1)).
  split; [|split; [reflexivity|]].
  - unfold Encoder.init. cbv zeta. rewrite Conv2d_init_ok by lia.
    cbn [bind len length range Z.of_nat Z.to_nat seq map for_].
    rewrite Mid_init_ok by assumption. cbn [bind].
    rewrite GroupNorm_init_ok by assumption. cbn [bind].
    now rewrite Conv2d_init_ok by lia.
  - intros Hi0 Hz0 Hx H1 W1 Hn.
    unfold Encoder.forward.
    cbn [Encoder.conv_in Encoder.num_resolutions Encoder.mid Encoder.norm_out
         Encoder.conv_out].
    shape_step conv3x3_shape. intros h0 Hh0.
    cbn [range Z.to_nat seq map for_ bind].
    shape_step Mid_forward_shape. intros h1 Hh1.
    shape_step GroupNorm_forward_shape. intros h2 Hh2.
    shape_step swish_shape. intros h3 Hh3.
    shape_step conv3x3_shape. intros h4 Hh4.
    now apply returns_shape_Ok.
Qed.

Lemma Encoder_without_levels_example :
  exists enc,
    Encoder.init 256 3 128 [] 2 64 = Ok enc
    /\ Encoder.down enc = []
    /\ exists y, Encoder.forward null_kernels enc
                   (mkTensor (1, 3, 256, 256) []) = Ok y
                 /\ shape y = (1, 64, 256, 256).
Proof.
  destruct (Encoder_without_levels null_kernels 256 3 128 2 64
              (mkTensor (1, 3, 256, 256) []) 1 256 256)
    as (enc & He & Hd & Hf);
    [unfold width_ok; split; [lia | reflexivity] | lia | lia |].
  exists enc. split; [exact He|]. split; [exact Hd|].
  apply Hf; first [reflexivity | lia | (vm_compute; discriminate)].
Defined.

(** ** The latent shape that the Decoder records *)


